(** * EduConnect single-page client: router, auth state, HTTP client, chat polling

    A shallow embedding of the browser-side modules [router.js], [auth.js],
    [api.js] and the polling part of [ui.js].  JavaScript objects become
    records, [Map]s become ordered association lists, plain objects used as
    dictionaries become [gmap]s, and the effects on the browser (history,
    events, timers, console) are threaded through an explicit world state
    that also keeps a trace of what happened, in order. *)

From Stdlib Require Import ZArith Ascii String.
From stdpp Require Import base option list strings pretty gmap.

(** ** JavaScript values that the modules test for truthiness *)

(** A property holding a string, [null] or [undefined]: only a non-empty
    string is truthy. *)
Definition truthy (o : option string) : bool :=
  match o with
  | Some s => negb (String.eqb s "")
  | None => false
  end.

(** ** Router: route table and matching ([router.js]) *)

Module Routing.

(** The five page handlers installed by [setupRoutes]. *)
Inductive Handler :=
| HRedirectDefault   (* () => this.redirectToDefaultRoute() *)
| HLogin             (* () => this.renderLogin() *)
| HRegister          (* () => this.renderRegister() *)
| HDashboard         (* () => this.renderDashboard() *)
| HGroup.            (* (params) => this.renderGroup(params.id) *)

#[global] Instance Handler_eq_dec : EqDecision Handler.
Proof. solve_decision. Defined.

Record Route := {
  handler : Handler;
  requiresAuth : bool;
  redirectIfAuth : option string
}.

#[global] Instance Route_eq_dec : EqDecision Route.
Proof. solve_decision. Defined.

(** [this.routes] is a [Map]: keys are unique and iteration follows
    insertion order. *)
Definition RouteTable := list (string * Route).

Fixpoint routes_get (rs : RouteTable) (path : string) : option Route :=
  match rs with
  | [] => None
  | (k, r) :: rest => if String.eqb k path then Some r else routes_get rest path
  end.

(** [Map.prototype.set]: an existing key keeps its position. *)
Fixpoint routes_set (k : string) (r : Route) (rs : RouteTable) : RouteTable :=
  match rs with
  | [] => [(k, r)]
  | (k', r') :: rest =>
      if String.eqb k' k then (k', r) :: rest else (k', r') :: routes_set k r rest
  end.

Definition setupRoutes : RouteTable :=
  routes_set "/group/:id"
    {| handler := HGroup; requiresAuth := true; redirectIfAuth := None |}
  (routes_set "/dashboard"
    {| handler := HDashboard; requiresAuth := true; redirectIfAuth := None |}
  (routes_set "/register"
    {| handler := HRegister; requiresAuth := false; redirectIfAuth := Some "/dashboard" |}
  (routes_set "/login"
    {| handler := HLogin; requiresAuth := false; redirectIfAuth := Some "/dashboard" |}
  (routes_set "/"
    {| handler := HRedirectDefault; requiresAuth := false; redirectIfAuth := None |}
  [])))).

(** *** [matchRoute]: the pattern as a regular expression *)

(** [\w] of JavaScript regular expressions: [A-Za-z0-9_]. *)
Definition is_word (c : ascii) : bool :=
  let n := nat_of_ascii c in
  (((48 <=? n) && (n <=? 57)) || ((65 <=? n) && (n <=? 90))
   || ((97 <=? n) && (n <=? 122)) || (n =? 95))%nat.

Definition slash : ascii := "/"%char.
Definition colon : ascii := ":"%char.

(** Characters that mean something to [new RegExp] when they are copied
    from the pattern unescaped, as [matchRoute] copies them: it escapes only
    [/].  The embedding below reads the dot as the wildcard it then is, and
    every other pattern character as itself; it is the regular expression
    of [matchRoute] for the patterns that hold none of the other thirteen. *)
Definition is_regex_meta (c : ascii) : bool :=
  existsb (Ascii.eqb c)
    ["\"%char; "^"%char; "$"%char; "."%char; "*"%char; "+"%char; "?"%char;
     "("%char; ")"%char; "["%char; "]"%char; "{"%char; "}"%char; "|"%char].

Definition dot : ascii := "."%char.

(** The line terminators below 256, which the dot of a regular expression
    does not match: line feed and carriage return. *)
Definition is_line_terminator (c : ascii) : bool :=
  let n := nat_of_ascii c in ((n =? 10) || (n =? 13))%nat.

Fixpoint plain_pattern (s : string) : bool :=
  match s with
  | EmptyString => true
  | String c s' => negb (is_regex_meta c) && plain_pattern s'
  end.

(** The pieces of the regular expression: a literal character, the dot, or
    the group [([^/]+)] that replaced [:name]. *)
Inductive Token :=
| TLit (c : ascii)
| TAny
| TParam (name : string).

(** A pattern character that is no part of a parameter, as the regular
    expression reads it. *)
Definition piece (c : ascii) : Token :=
  if Ascii.eqb c dot then TAny else TLit c.

(** [pattern.replace(/:\w+/g, ...)], scanning left to right.  [name] holds
    the parameter being read: after a colon followed by a word character the
    scanner takes every following word character (the [+] is greedy). *)
Fixpoint scan (name : option string) (s : string) : list Token :=
  match s with
  | EmptyString =>
      match name with
      | Some n => [TParam n]
      | None => []
      end
  | String c rest =>
      let fresh :=
        if Ascii.eqb c colon
        then match rest with
             | String d _ =>
                 if is_word d then scan (Some "") rest
                 else piece c :: scan None rest
             | EmptyString => piece c :: scan None rest
             end
        else piece c :: scan None rest in
      match name with
      | Some n =>
          if is_word c then scan (Some (n +:+ String c "")) rest
          else TParam n :: fresh
      | None => fresh
      end
  end.

Definition tokenize (pattern : string) : list Token := scan None pattern.

Fixpoint paramNames (toks : list Token) : list string :=
  match toks with
  | [] => []
  | TLit _ :: ts => paramNames ts
  | TAny :: ts => paramNames ts
  | TParam n :: ts => n :: paramNames ts
  end.

(** The group [([^/]+)] followed by the rest [k] of the expression: the
    longest run of non-slash characters first, giving back one character at
    a time while the rest fails.  [pre] is what the group holds so far. *)
Fixpoint greedy (k : string -> option (list string)) (pre s : string)
  : option (list string) :=
  let here :=
    if String.eqb pre "" then None
    else match k s with
         | Some caps => Some (pre :: caps)
         | None => None
         end in
  match s with
  | EmptyString => here
  | String c s' =>
      if Ascii.eqb c slash then here
      else match greedy k (pre +:+ String c "") s' with
           | Some r => Some r
           | None => here
           end
  end.

(** [path.match(new RegExp(`^${regexPattern}$`))]: the captured groups, in
    order, when the whole path matches. *)
Fixpoint match_tokens (toks : list Token) (s : string) : option (list string) :=
  match toks with
  | [] => if String.eqb s "" then Some [] else None
  | TLit c :: ts =>
      match s with
      | String c' s' => if Ascii.eqb c c' then match_tokens ts s' else None
      | EmptyString => None
      end
  | TAny :: ts =>
      match s with
      | String c' s' => if is_line_terminator c' then None else match_tokens ts s'
      | EmptyString => None
      end
  | TParam _ :: ts => greedy (match_tokens ts) "" s
  end.

(** [paramNames.forEach((name, index) => params[name] = match[index + 1])]:
    a name used twice keeps the later group. *)
Fixpoint bind_params (names caps : list string) (params : gmap string string)
  : gmap string string :=
  match names, caps with
  | n :: ns, v :: vs => bind_params ns vs (<[n := v]> params)
  | _, _ => params
  end.

Definition matchRoute (pattern path : string) : option (gmap string string) :=
  let toks := tokenize pattern in
  match match_tokens toks path with
  | Some caps => Some (bind_params (paramNames toks) caps ∅)
  | None => None
  end.

(** The loop of [findRoute] over [this.routes.entries()]. *)
Fixpoint firstPattern (rs : RouteTable) (path : string)
  : option (Route * gmap string string) :=
  match rs with
  | [] => None
  | (pattern, route) :: rest =>
      match matchRoute pattern path with
      | Some params => Some (route, params)
      | None => firstPattern rest path
      end
  end.

Definition findRoute (rs : RouteTable) (path : string)
  : option (Route * gmap string string) :=
  match routes_get rs path with
  | Some route => Some (route, ∅)
  | None => firstPattern rs path
  end.

(** *** What a match means, in the words of the route table

    A parameter stands for one non-empty run of characters without a
    slash. *)
Fixpoint no_slash (s : string) : bool :=
  match s with
  | EmptyString => true
  | String c s' => negb (Ascii.eqb c slash) && no_slash s'
  end.

Definition is_segment (v : string) : bool :=
  negb (String.eqb v "") && no_slash v.

(** [matches toks path vals]: the path is the literals of the pattern with
    each parameter replaced by a segment, [vals] listing them in order, and
    each dot by one character that ends no line. *)
Inductive matches : list Token -> string -> list string -> Prop :=
| matches_end : matches [] "" []
| matches_lit c ts s vs :
    matches ts s vs -> matches (TLit c :: ts) (String c s) vs
| matches_any c ts s vs :
    is_line_terminator c = false ->
    matches ts s vs -> matches (TAny :: ts) (String c s) vs
| matches_param n ts v s vs :
    is_segment v = true -> matches ts s vs ->
    matches (TParam n :: ts) (v +:+ s) (v :: vs).

(** No entry of [rs] matches [path] as a pattern. *)
Definition none_match (rs : RouteTable) (path : string) : Prop :=
  Forall (fun e : string * Route => matchRoute e.1 path = None) rs.

End Routing.


(** ** The application state and the browser around it *)

Module App.
Import Routing.

Record User := { user_id : Z; user_name : string }.

(** Response bodies of the REST backend, as far as the client looks into
    them: [{success, data: {user, token}, error: {message}}]. *)
Record Payload := { p_user : option User; p_token : option string }.

Record Json := {
  success : bool;
  data : option Payload;
  error_message : option string
}.

(** [data] in [request]: the result of [response.json()] or of
    [response.text()]. *)
Inductive Body :=
| BJson (j : Json)
| BText (s : string).

(** The error objects the modules throw or let through. *)
Inductive ErrorName :=
| HttpError          (* new Error(...) with status and data, built by request *)
| FetchFailure       (* what fetch rejects with: no response was received *)
| BodyFailure        (* what response.json() or response.text() rejects with *)
| InvalidResponse    (* new Error('Resposta inválida do servidor') *)
| TypeError.         (* reading a property of undefined *)

Record JsError := {
  err_name : ErrorName;
  err_message : string;
  err_status : option Z;      (* error.status; undefined unless request set it *)
  err_data : option Body      (* error.data *)
}.

(** How a function call ended. *)
Inductive Result (A : Type) :=
| Returned (a : A)
| Thrown (e : JsError).
Arguments Returned {A} a.
Arguments Thrown {A} e.

(** What the network gives back to one [fetch]. *)
Record Response := {
  status : Z;
  statusText : string;
  isJson : bool;               (* content-type includes application/json *)
  jsonBody : option Json;      (* response.json(); None when it rejects *)
  textBody : string            (* response.text() *)
}.

Inductive FetchResult :=
| FetchRejected (message : string)
| FetchResponse (r : Response).

Inductive Page :=
| PLogin | PRegister | PDashboard
| PGroup (groupId : option string)
| PNotFound
| PError.

Inductive Detail :=
| DNone
| DToast (type : string)
| DNavigate (path : string).

(** Observable effects, in the order they happen. *)
Inductive Event :=
| EvPushState (path : string)
| EvReplaceState (path : string)
| EvHandler (h : Handler) (params : gmap string string)
| EvRenderPage (p : Page)
| EvFetchGroup (groupId : option string)
| EvFetch (endpoint : string) (authorization : option string)
| EvDispatch (name : string) (detail : Detail)
| EvSetInterval (handle : nat) (groupId : option string)
| EvClearInterval (handle : nat)
| EvConsoleError
| EvConsoleWarn
| EvThrow (e : JsError).

(** The two callbacks the router registers with [auth.addListener]. *)
Inductive Listener :=
| LRouterAuthChange      (* setupEventListeners *)
| LRouterInitialRoute.   (* handleInitialRoute, removes itself when it fires *)

#[global] Instance Listener_eq_dec : EqDecision Listener.
Proof. solve_decision. Defined.

Record Auth := {
  user : option User;
  isAuthenticated : bool;
  isLoading : bool;
  listeners : list Listener
}.

Record Router := {
  routes : RouteTable;
  currentRoute : option string;
  currentParams : gmap string string
}.

Record Ui := {
  chatPolling : option nat;          (* the handle returned by setInterval *)
  currentGroupId : option string
}.

Record Browser := {
  storage : gmap string string;                (* localStorage *)
  pathname : string;                           (* window.location.pathname *)
  nextTimer : nat;                             (* next handle setInterval gives *)
  intervals : list (nat * option string)       (* running interval timers *)
}.

Record World := {
  token : option string;     (* api.client.token *)
  auth : Auth;
  router : Router;
  ui : Ui;
  browser : Browser;
  trace : list Event
}.

Definition with_token (t : option string) (w : World) : World :=
  {| token := t; auth := auth w; router := router w; ui := ui w;
     browser := browser w; trace := trace w |}.
Definition with_auth (a : Auth) (w : World) : World :=
  {| token := token w; auth := a; router := router w; ui := ui w;
     browser := browser w; trace := trace w |}.
Definition with_router (r : Router) (w : World) : World :=
  {| token := token w; auth := auth w; router := r; ui := ui w;
     browser := browser w; trace := trace w |}.
Definition with_ui (u : Ui) (w : World) : World :=
  {| token := token w; auth := auth w; router := router w; ui := u;
     browser := browser w; trace := trace w |}.
Definition with_browser (b : Browser) (w : World) : World :=
  {| token := token w; auth := auth w; router := router w; ui := ui w;
     browser := b; trace := trace w |}.
Definition log (e : Event) (w : World) : World :=
  {| token := token w; auth := auth w; router := router w; ui := ui w;
     browser := browser w; trace := trace w ++ [e] |}.

Definition with_storage (s : gmap string string) (b : Browser) : Browser :=
  {| storage := s; pathname := pathname b; nextTimer := nextTimer b;
     intervals := intervals b |}.
Definition with_pathname (p : string) (b : Browser) : Browser :=
  {| storage := storage b; pathname := p; nextTimer := nextTimer b;
     intervals := intervals b |}.

(** *** [api.js]: the HTTP client *)

(** [ApiClient.setToken] *)
Definition setToken (t : option string) (w : World) : World :=
  let w := with_token t w in
  let b := browser w in
  match t with
  | Some s =>
      if truthy t
      then with_browser (with_storage (<["auth_token" := s]> (storage b)) b) w
      else with_browser (with_storage (delete "auth_token" (storage b)) b) w
  | None => with_browser (with_storage (delete "auth_token" (storage b)) b) w
  end.

(** [getAuthHeaders]: the Authorization header, when a token is set. *)
Definition authorization (w : World) : option string :=
  match token w with
  | Some s => if truthy (token w) then Some ("Bearer " +:+ s) else None
  | None => None
  end.

Definition response_ok (r : Response) : bool :=
  ((200 <=? status r) && (status r <=? 299))%Z.

(** The [try] block of [request], after [fetch] settled: the parsed body, or
    the error thrown on the way. *)
Definition receive (fr : FetchResult) : Result Body :=
  match fr with
  | FetchRejected m =>
      Thrown {| err_name := FetchFailure; err_message := m;
                err_status := None; err_data := None |}
  | FetchResponse r =>
      let read :=
        if isJson r
        then match jsonBody r with
             | Some j => Returned (BJson j)
             | None =>
                 Thrown {| err_name := BodyFailure; err_message := "";
                           err_status := None; err_data := None |}
             end
        else Returned (BText (textBody r)) in
      match read with
      | Thrown e => Thrown e
      | Returned d =>
          if response_ok r then Returned d
          else
            let server_message :=
              match d with
              | BJson j => error_message j
              | BText _ => None
              end in
            Thrown {| err_name := HttpError;
                      err_message :=
                        if truthy server_message then default "" server_message
                        else "HTTP " +:+ pretty (status r) +:+ ": " +:+ statusText r;
                      err_status := Some (status r);
                      err_data := Some d |}
      end
  end.

(** *** [ui.js]: the chat polling loop *)

(** [if (this.chatPolling)]: [null] and the number 0 are falsy. *)
Definition truthy_handle (h : option nat) : bool :=
  match h with
  | Some n => negb (n =? 0)
  | None => false
  end.

(** [setInterval(callback, 10000)]: a fresh handle; the callback refreshes
    the messages of [groupId] until the timer is cleared. *)
Definition setInterval (groupId : option string) (w : World) : nat * World :=
  let b := browser w in
  let h := nextTimer b in
  (h, log (EvSetInterval h groupId)
        (with_browser {| storage := storage b; pathname := pathname b;
                         nextTimer := S h;
                         intervals := intervals b ++ [(h, groupId)] |} w)).

(** [clearInterval(handle)]: nothing happens for a handle that is not
    running. *)
Definition clearInterval (h : nat) (w : World) : World :=
  let b := browser w in
  log (EvClearInterval h)
    (with_browser {| storage := storage b; pathname := pathname b;
                     nextTimer := nextTimer b;
                     intervals := filter (fun t => t.1 ≠ h) (intervals b) |} w).

(** [UIManager.stopChatPolling] *)
Definition stopChatPolling (w : World) : World :=
  if truthy_handle (chatPolling (ui w))
  then
    let w := clearInterval (default 0 (chatPolling (ui w))) w in
    with_ui {| chatPolling := None; currentGroupId := currentGroupId (ui w) |} w
  else w.

(** [UIManager.startChatPolling] *)
Definition startChatPolling (groupId : option string) (w : World) : World :=
  let w := stopChatPolling w in
  let w := with_ui {| chatPolling := chatPolling (ui w);
                      currentGroupId := groupId |} w in
  let '(h, w) := setInterval groupId w in
  with_ui {| chatPolling := Some h; currentGroupId := currentGroupId (ui w) |} w.

(** *** [router.js]: navigation *)

Definition pushState (path : string) (w : World) : World :=
  log (EvPushState path) (with_browser (with_pathname path (browser w)) w).

Definition replaceState (path : string) (w : World) : World :=
  log (EvReplaceState path) (with_browser (with_pathname path (browser w)) w).

(** [Router.navigate], with [handleRoute] passed in as [resolve]. *)
Definition navigate_with (resolve : string -> World -> option World)
    (path : string) (replace : bool) (w : World) : option World :=
  if decide (currentRoute (router w) = Some path) then Some w
  else resolve path (if replace then replaceState path w else pushState path w).

(** [Router.redirectToDefaultRoute] *)
Definition defaultRoute (w : World) : string :=
  if isAuthenticated (auth w) then "/dashboard" else "/login".

(** [route.handler(route.params)], up to the first [await] of the page
    handlers.  [renderGroup] renders nothing before the group arrives; what
    it does then is [renderGroup_loaded]. *)
Definition run_handler (navigate : string -> bool -> World -> option World)
    (h : Handler) (params : gmap string string) (w : World) : option World :=
  match h with
  | HRedirectDefault => navigate (defaultRoute w) true w
  | HLogin => Some (log (EvRenderPage PLogin) w)
  | HRegister => Some (log (EvRenderPage PRegister) w)
  | HDashboard => Some (log (EvRenderPage PDashboard) w)
  | HGroup => Some (log (EvFetchGroup (params !! "id")) w)
  end.

(** [Router.handleRoute].  [handleRoute] and [navigate] call each other;
    [fuel] bounds the depth of that recursion and [None] means it ran out. *)
Fixpoint handleRoute (fuel : nat) (path : string) (w : World) : option World :=
  match fuel with
  | 0 => None
  | S fuel' =>
      let navigate := navigate_with (handleRoute fuel') in
      match findRoute (routes (router w)) path with
      | None => Some (log (EvRenderPage PNotFound) w)
      | Some (route, params) =>
          if requiresAuth route && negb (isAuthenticated (auth w))
          then navigate "/login" true w
          else if truthy (redirectIfAuth route) && isAuthenticated (auth w)
          then navigate (default "" (redirectIfAuth route)) true w
          else
            let w := with_router {| routes := routes (router w);
                                    currentRoute := Some path;
                                    currentParams := params |} w in
            run_handler navigate (handler route) params
              (log (EvHandler (handler route) params) w)
      end
  end.

Definition navigate (fuel : nat) : string -> bool -> World -> option World :=
  navigate_with (handleRoute fuel).

(** [Router.handleAuthStateChange], given [authState.isAuthenticated]. *)
Definition handleAuthStateChange (fuel : nat) (authenticated : bool) (w : World)
  : option World :=
  match findRoute (routes (router w)) (pathname (browser w)) with
  | Some (route, _) =>
      if requiresAuth route && negb authenticated
      then navigate fuel "/login" true w
      else if truthy (redirectIfAuth route) && authenticated
      then navigate fuel (default "" (redirectIfAuth route)) true w
      else Some w
  | None => Some w
  end.

(** The rest of [Router.renderGroup], once [api.getGroup] has answered. *)
Definition renderGroup_loaded (groupId : option string) (found : bool) (w : World)
  : World :=
  if found
  then startChatPolling groupId (log (EvRenderPage (PGroup groupId)) w)
  else log (EvRenderPage PError) w.

(** [Router.cleanup], through [UIManager.cleanup]. *)
Definition cleanup (w : World) : World := stopChatPolling w.

(** *** [auth.js]: the auth state and its listeners *)

Definition removeListener (l : Listener) (w : World) : World :=
  let a := auth w in
  with_auth {| user := user a; isAuthenticated := isAuthenticated a;
               isLoading := isLoading a;
               listeners := filter (fun l' => l' ≠ l) (listeners a) |} w.

Definition addListener (l : Listener) (w : World) : World :=
  let a := auth w in
  with_auth {| user := user a; isAuthenticated := isAuthenticated a;
               isLoading := isLoading a;
               listeners := listeners a ++ [l] |} w.

(** One callback, called with the state as it is at that moment. *)
Definition call_listener (fuel : nat) (l : Listener) (w : World) : option World :=
  if isLoading (auth w) then Some w
  else match l with
       | LRouterAuthChange =>
           handleAuthStateChange fuel (isAuthenticated (auth w)) w
       | LRouterInitialRoute =>
           handleRoute fuel (pathname (browser w))
             (removeListener LRouterInitialRoute w)
       end.

Fixpoint notify_each (fuel : nat) (ls : list Listener) (w : World) : option World :=
  match ls with
  | [] => Some w
  | l :: rest => w' ← call_listener fuel l w; notify_each fuel rest w'
  end.

(** [AuthManager.notifyListeners]: [forEach] walks the array that was
    current when it started. *)
Definition notifyListeners (fuel : nat) (w : World) : option World :=
  notify_each fuel (listeners (auth w)) w.

(** [AuthManager.setUser] *)
Definition setUser (fuel : nat) (u : User) (w : World) : option World :=
  let a := auth w in
  notifyListeners fuel
    (with_auth {| user := Some u; isAuthenticated := true;
                  isLoading := isLoading a; listeners := listeners a |} w).

(** [AuthManager.clearAuth] *)
Definition clearAuth (fuel : nat) (w : World) : option World :=
  let a := auth w in
  notifyListeners fuel
    (setToken None
       (with_auth {| user := None; isAuthenticated := false;
                     isLoading := isLoading a; listeners := listeners a |} w)).

(** [window.dispatchEvent(new CustomEvent('auth:logout'))]: the listener of
    [auth.js] runs before [dispatchEvent] returns. *)
Definition dispatch_auth_logout (fuel : nat) (w : World) : option World :=
  clearAuth fuel (log (EvDispatch "auth:logout" DNone) w).

(** [ui:toast] only shows a message. *)
Definition dispatch_toast (type : string) (w : World) : World :=
  log (EvDispatch "ui:toast" (DToast type)) w.

(** [router:navigate]: the listener calls [navigate(path, undefined)]. *)
Definition dispatch_navigate (fuel : nat) (path : string) (w : World) : option World :=
  navigate fuel path false (log (EvDispatch "router:navigate" (DNavigate path)) w).

(** [handleApiError(error)]: chooses a message and shows it. *)
Definition handleApiError (e : JsError) (w : World) : World :=
  dispatch_toast "error" w.

(** [ApiClient.request], given what [fetch] settles with. *)
Definition request (fuel : nat) (endpoint : string) (fr : FetchResult) (w : World)
  : option (World * Result Body) :=
  let w := log (EvFetch endpoint (authorization w)) w in
  match receive fr with
  | Returned d => Some (w, Returned d)
  | Thrown e =>
      w ← (if decide (err_status e = Some 401%Z)
           then dispatch_auth_logout fuel (setToken None w)
           else Some w);
      Some (log (EvThrow e) (log EvConsoleError w), Thrown e)
  end.

Definition property_of_undefined : JsError :=
  {| err_name := TypeError; err_message := "";
     err_status := None; err_data := None |}.

(** [response.success && response.data.token] and the like: the payload to
    look into, nothing when [success] is falsy, a [TypeError] when [data] is
    missing. *)
Definition success_data (b : Body) : Result (option Payload) :=
  match b with
  | BText _ => Returned None
  | BJson j =>
      if success j
      then match data j with
           | Some p => Returned (Some p)
           | None => Thrown property_of_undefined
           end
      else Returned None
  end.

(** [ApiService.login] and [ApiService.register] *)
Definition api_authenticate (fuel : nat) (endpoint : string) (fr : FetchResult)
    (w : World) : option (World * Result Body) :=
  '(w, r) ← request fuel endpoint fr w;
  match r with
  | Thrown e => Some (w, Thrown e)
  | Returned response =>
      match success_data response with
      | Thrown e => Some (w, Thrown e)
      | Returned (Some p) =>
          if truthy (p_token p)
          then Some (setToken (p_token p) w, Returned response)
          else Some (w, Returned response)
      | Returned None => Some (w, Returned response)
      end
  end.

Definition api_login fuel := api_authenticate fuel "/api/auth/login".
Definition api_register fuel := api_authenticate fuel "/api/auth/register".

Definition invalid_response : JsError :=
  {| err_name := InvalidResponse;
     err_message := "Resposta inválida do servidor";
     err_status := None; err_data := None |}.

(** The [catch] of [login] and [register]. *)
Definition rethrow (e : JsError) (w : World) : World * Result Body :=
  (log (EvThrow e) (handleApiError e w), Thrown e).

(** [AuthManager.login] and [AuthManager.register] *)
Definition authenticate (fuel : nat) (endpoint : string) (fr : FetchResult)
    (w : World) : option (World * Result Body) :=
  '(w, r) ← api_authenticate fuel endpoint fr w;
  match r with
  | Thrown e => Some (rethrow e w)
  | Returned response =>
      match success_data response with
      | Thrown e => Some (rethrow e w)
      | Returned (Some {| p_user := Some u |}) =>
          w ← setUser fuel u w;
          Some (dispatch_toast "success" w, Returned response)
      | Returned _ => Some (rethrow invalid_response w)
      end
  end.

Definition login fuel := authenticate fuel "/api/auth/login".
Definition register fuel := authenticate fuel "/api/auth/register".

(** [ApiService.logout] *)
Definition api_logout (fuel : nat) (w : World) : option World :=
  dispatch_auth_logout fuel (setToken None w).

(** [AuthManager.logout] *)
Definition logout (fuel : nat) (w : World) : option World :=
  w ← api_logout fuel w;
  w ← clearAuth fuel w;
  dispatch_navigate fuel "/login" (dispatch_toast "info" w).

Definition finish_loading (fuel : nat) (w : World) : option World :=
  let a := auth w in
  notifyListeners fuel
    (with_auth {| user := user a; isAuthenticated := isAuthenticated a;
                  isLoading := false; listeners := listeners a |} w).

(** [AuthManager.validateToken] from the answer of [api.getProfile] on, and
    the [catch] of [init] around it. *)
Definition validateToken (fuel : nat) (fr : FetchResult) (w : World) : option World :=
  '(w, r) ← request fuel "/api/auth/profile" fr w;
  let outcome :=
    match r with
    | Thrown e => Thrown e
    | Returned response => success_data response
    end in
  match outcome with
  | Returned (Some {| p_user := Some u |}) =>
      w ← setUser fuel u w; finish_loading fuel w
  | Returned _ =>
      w ← clearAuth fuel w; finish_loading fuel w
  | Thrown e =>
      w ← clearAuth fuel w;
      w ← finish_loading fuel w;
      clearAuth fuel (log EvConsoleWarn w)
  end.

(** *** Start-up: the module instances, in import order *)

(** [new ApiClient()], then [new AuthManager()] up to the first [await] of
    [init]. *)
Definition auth_init (fuel : nat) (w : World) : option World :=
  let stored := storage (browser w) !! "auth_token" in
  let w := with_token stored w in
  if truthy stored then Some (setToken stored w)
  else finish_loading fuel w.

(** [new Router()] *)
Definition router_init (fuel : nat) (w : World) : option World :=
  let w := with_router {| routes := setupRoutes; currentRoute := None;
                          currentParams := ∅ |} w in
  let w := addListener LRouterAuthChange w in
  if isLoading (auth w) then Some (addListener LRouterInitialRoute w)
  else handleRoute fuel (pathname (browser w)) w.

(** The page before any script ran. *)
Definition blank (stored : gmap string string) (path : string) : World :=
  {| token := None;
     auth := {| user := None; isAuthenticated := false; isLoading := true;
                listeners := [] |};
     router := {| routes := []; currentRoute := None; currentParams := ∅ |};
     ui := {| chatPolling := None; currentGroupId := None |};
     browser := {| storage := stored; pathname := path; nextTimer := 1;
                   intervals := [] |};
     trace := [] |}.

Definition boot (fuel : nat) (stored : gmap string string) (path : string)
  : option World :=
  w ← auth_init fuel (blank stored path); router_init fuel w.

(** *** What can happen next *)

Inductive Action :=
| AProfile (fr : FetchResult)          (* the profile request of init settles *)
| ALogin (fr : FetchResult)            (* the login form is submitted *)
| ARegister (fr : FetchResult)
| ALogout                              (* the logout button *)
| ARequest (endpoint : string) (fr : FetchResult)   (* any other API call *)
| ANavigate (path : string)            (* a link click: navigate(path) *)
| APopState (path : string)            (* back or forward button *)
| AGroupLoaded (groupId : option string) (found : bool).

(** After a successful submit the form handlers call
    [this.navigate('/dashboard')]. *)
Definition submit (fuel : nat) (r : option (World * Result Body)) : option World :=
  '(w, res) ← r;
  match res with
  | Returned _ => navigate fuel "/dashboard" false w
  | Thrown _ => Some w
  end.

Definition step (fuel : nat) (a : Action) (w : World) : option World :=
  match a with
  | AProfile fr => validateToken fuel fr w
  | ALogin fr => submit fuel (login fuel fr w)
  | ARegister fr => submit fuel (register fuel fr w)
  | ALogout => logout fuel w
  | ARequest endpoint fr => fst <$> request fuel endpoint fr w
  | ANavigate path => navigate fuel path false w
  | APopState path =>
      handleRoute fuel path (with_browser (with_pathname path (browser w)) w)
  | AGroupLoaded groupId found => Some (renderGroup_loaded groupId found w)
  end.

Fixpoint run (fuel : nat) (actions : list Action) (w : World) : option World :=
  match actions with
  | [] => Some w
  | a :: rest => w' ← step fuel a w; run fuel rest w'
  end.

(** The states the application can be in. *)
Definition reachable (fuel : nat) (w : World) : Prop :=
  exists stored path actions,
    (w0 ← boot fuel stored path; run fuel actions w0) = Some w.

End App.

(** ** Notions the properties are stated with *)

Module Notions.
Import Routing App.

(** The part of the auth state the session invariant speaks of. *)
Definition session (w : World) : option User * bool :=
  (user (auth w), isAuthenticated (auth w)).

Definition consistent (s : option User * bool) : Prop :=
  s.2 = true <-> is_Some s.1.

(** One operation either leaves the session alone or ends in a consistent
    one. *)
Definition session_step (w w' : World) : Prop :=
  session w' = session w \/ consistent (session w').

(** The polling state: the fields of [UIManager] and the timers of the
    browser. *)
Definition polling (w : World) : Ui * nat * list (nat * option string) :=
  (ui w, nextTimer (browser w), intervals (browser w)).

(** Handles are positive, and the running timers are exactly the one whose
    handle [chatPolling] holds, refreshing the group [currentGroupId]
    names. *)
Definition one_session (v : Ui * nat * list (nat * option string)) : Prop :=
  let '(u, next, timers) := v in
  0 < next /\
  match chatPolling u with
  | Some h => h <> 0 /\ timers = [(h, currentGroupId u)]
  | None => timers = []
  end.

(** [w'] comes after [w]: its trace is the trace of [w] followed by events
    that all satisfy [Q]. *)
Definition extends (Q : Event -> Prop) (w w' : World) : Prop :=
  exists evs, trace w' = trace w ++ evs /\ Forall Q evs.

(** [e] is not the invocation of a handler, unless some path resolves in
    [rs] to a route with that handler and those parameters that does not
    require authentication. *)
Definition open_handler (rs : RouteTable) (e : Event) : Prop :=
  match e with
  | EvHandler h ps =>
      exists path route,
        findRoute rs path = Some (route, ps) /\ handler route = h /\
        requiresAuth route = false
  | _ => True
  end.

(** A response whose body [request] can read. *)
Definition readable (r : Response) : Prop :=
  isJson r = true -> is_Some (jsonBody r).
Arguments readable r /.

(** The world after [handleRoute] accepted [path] for the route with handler
    [h] and that handler rendered [page]. *)
Definition shown (path : string) (h : Handler) (page : Page) (w : World) : World :=
  log (EvRenderPage page)
    (log (EvHandler h ∅)
       (with_router {| routes := routes (router w); currentRoute := Some path;
                       currentParams := ∅ |} w)).

(** *** Sample runs *)

Definition ana : User := {| user_id := 1; user_name := "ana" |}.

(** A 200 answer of the auth endpoints: [{success: true, data: {user, token}}]. *)
Definition auth_answer (u : option User) (t : option string) : FetchResult :=
  FetchResponse
    {| status := 200; statusText := "OK"; isJson := true;
       jsonBody := Some {| success := true;
                           data := Some {| p_user := u; p_token := t |};
                           error_message := None |};
       textBody := "" |}.

(** A 401 answer that declares JSON and carries an empty body, so that
    [response.json()] rejects. *)
Definition unauthorized_empty : FetchResult :=
  FetchResponse
    {| status := 401; statusText := "Unauthorized"; isJson := true;
       jsonBody := None; textBody := "" |}.

(** A 401 answer with a readable JSON body. *)
Definition unauthorized_json : FetchResult :=
  FetchResponse
    {| status := 401; statusText := "Unauthorized"; isJson := true;
       jsonBody := Some {| success := false; data := None;
                           error_message := Some "Invalid token" |};
       textBody := "" |}.

(** A visitor without a stored token opens [/login]. *)
Definition visitor_at_login : option World := boot 4 ∅ "/login".

(** The visitor signs in, opens the group [g1], and the group arrives. *)
Definition member_in_group : option World :=
  w ← visitor_at_login;
  run 4 [ALogin (auth_answer (Some ana) (Some "tok"));
         ANavigate "/group/g1";
         AGroupLoaded (Some "g1") true] w.

(** The visitor signs in and the server answers with a user but no token. *)
Definition signed_in_without_token : option World :=
  w ← visitor_at_login; run 4 [ALogin (auth_answer (Some ana) None)] w.

(** The visitor signs in with a token. *)
Definition signed_in : option World :=
  w ← visitor_at_login; run 4 [ALogin (auth_answer (Some ana) (Some "tok"))] w.

(** The page on the screen: what [renderPage] was last called with. *)
Definition displayed (w : World) : option Page :=
  last (omap (fun e => match e with EvRenderPage p => Some p | _ => None end)
          (trace w)).

(** A visitor without a stored token opens an address that does not exist,
    follows the link of the not-found page to the dashboard, and goes back
    with the back button. *)
Definition visitor_back_at_unknown : option World :=
  w ← boot 4 ∅ "/nowhere";
  run 4 [ANavigate "/dashboard"; APopState "/nowhere"] w.




(** A 200 answer without user or token: [{success: true, data: {}}]. *)
Definition plain_answer : FetchResult := auth_answer None None.

End Notions.

(** ** More of the modules: guards, permissions, start-up helpers *)

Module Helpers.
Import Routing App.

(** The literal characters of a pattern without parameters, as tokens. *)
Fixpoint lits (p : string) : list Token :=
  match p with
  | EmptyString => []
  | String c p' => TLit c :: lits p'
  end.

(** What is left of [s] after the prefix [p], when [s] starts with [p]. *)
Fixpoint strip_prefix (p s : string) : option string :=
  match p, s with
  | EmptyString, _ => Some s
  | String c p', String d s' => if Ascii.eqb c d then strip_prefix p' s' else None
  | String _ _, EmptyString => None
  end.

(** The user a profile answer carries, when it is a success with a user:
    the test [response.success && response.data.user] of [validateToken]. *)
Definition profile_user (fr : FetchResult) : option User :=
  match receive fr with
  | Returned response =>
      match success_data response with
      | Returned (Some {| p_user := Some u |}) => Some u
      | _ => None
      end
  | Thrown _ => None
  end.

(** [AuthManager.requireAuth]: the answer, and the world after it. *)
Definition requireAuth (fuel : nat) (w : World) : option (World * bool) :=
  if negb (isAuthenticated (auth w)) && negb (isLoading (auth w))
  then w' ← dispatch_navigate fuel "/login" w; Some (w', false)
  else Some (w, true).

(** Groups, mentorships and materials, as far as the permission checks look
    into them; [None] stands for a missing or undefined field. *)
Record Group := { owner_id : option Z }.
Record Mentorship := { created_by : option Z }.
Record Material := { uploaded_by : option Z }.

(** [AuthManager.canManageGroup]; [group] may be [null]. *)
Definition canManageGroup (w : World) (group : option Group) : bool :=
  match user (auth w), group with
  | Some u, Some g => bool_decide (owner_id g = Some (user_id u))
  | _, _ => false
  end.

(** [AuthManager.canDeleteMentorship] *)
Definition canDeleteMentorship (w : World) (m : option Mentorship) : bool :=
  match user (auth w), m with
  | Some u, Some x => bool_decide (created_by x = Some (user_id u))
  | _, _ => false
  end.

(** [AuthManager.canDeleteMaterial] *)
Definition canDeleteMaterial (w : World) (m : option Material) : bool :=
  match user (auth w), m with
  | Some u, Some x => bool_decide (uploaded_by x = Some (user_id u))
  | _, _ => false
  end.

(** [Router.updateDocumentTitle]: the title for [this.currentRoute], and a
    [TypeError] while it is still [null].  The lookup in [titles] is read for
    paths, which start with a slash and so name no inherited property. *)
Definition documentTitle (current : option string) : Result string :=
  match current with
  | None => Thrown property_of_undefined
  | Some path =>
      match strip_prefix "/group/" path with
      | Some _ => Returned "Grupo - EduConnect"
      | None =>
          Returned
            (if String.eqb path "/login" then "Login - EduConnect"
             else if String.eqb path "/register" then "Criar Conta - EduConnect"
             else if String.eqb path "/dashboard" then "Dashboard - EduConnect"
             else "EduConnect")
      end
  end.

(** The router has settled on [path]: the application's table is in place,
    the auth state is not loading, and both the address and the router's
    current route are [path]. *)
Definition at_page (path : string) (authenticated : bool) (w : World) : Prop :=
  routes (router w) = setupRoutes /\
  isLoading (auth w) = false /\
  isAuthenticated (auth w) = authenticated /\
  pathname (browser w) = path /\
  currentRoute (router w) = Some path.

(** Events other than a request going out. *)
Definition not_fetch (e : Event) : Prop :=
  match e with
  | EvFetch _ _ => False
  | _ => True
  end.

(** The endpoint of [ApiService.getMessages(groupId, 30)]: an undefined
    group id is spelled out by the template string. *)
Definition messages_endpoint (groupId : option string) : string :=
  "/api/groups/" +:+ default "undefined" groupId +:+ "/messages?limit=30".

(** [UIManager.refreshChatMessages]: the messages are fetched and whatever
    is thrown is swallowed.  On success they are written into the chat
    container, which is no part of the world. *)
Definition refreshChatMessages (fuel : nat) (groupId : option string)
    (fr : FetchResult) (w : World) : option World :=
  fst <$> request fuel (messages_endpoint groupId) fr w.

(** One firing of the interval timer [handle]: a cleared timer does not
    fire. *)
Definition tick (fuel : nat) (handle : nat) (fr : FetchResult) (w : World)
  : option World :=
  match list_find (fun t => t.1 = handle) (intervals (browser w)) with
  | Some (_, (_, groupId)) => refreshChatMessages fuel groupId fr w
  | None => Some w
  end.

End Helpers.

(** ** Form validation ([auth.js], [ui.js]) and small helpers of [ui.js] *)

Module Forms.
Import Routing App Helpers.

(** Strings are read as sequences of code units below 256.  Among those,
    [\s] of a regular expression and the characters [trim] removes are tab,
    line feed, vertical tab, form feed, carriage return, space and the
    no-break space. *)
Definition is_space (c : ascii) : bool :=
  let n := nat_of_ascii c in
  (((9 <=? n) && (n <=? 13)) || (n =? 32) || (n =? 160))%nat.

(** The regular expressions of the validators: single characters and
    one-or-more repetitions of a character class. *)
Inductive Atom :=
| AChar (c : ascii)
| APlus (cls : ascii -> bool).

(** [cls+] followed by the rest [k] of the expression; [started] tells
    whether a character was taken already. *)
Fixpoint plus (cls : ascii -> bool) (k : string -> bool) (started : bool)
    (s : string) : bool :=
  match s with
  | EmptyString => started && k ""
  | String c s' =>
      (if cls c then plus cls k true s' else false) || (started && k s)
  end.

(** [regex.test(s)] for an expression anchored at both ends. *)
Fixpoint rmatch (re : list Atom) (s : string) : bool :=
  match re with
  | [] => String.eqb s ""
  | AChar c :: r =>
      match s with
      | String d s' => Ascii.eqb c d && rmatch r s'
      | EmptyString => false
      end
  | APlus cls :: r => plus cls (rmatch r) false s
  end.

(** [[^\s@]] *)
Definition email_char (c : ascii) : bool :=
  negb (is_space c) && negb (Ascii.eqb c "@").

(** [/^[^\s@]+@[^\s@]+\.[^\s@]+$/] *)
Definition emailRegex : list Atom :=
  [APlus email_char; AChar "@"; APlus email_char; AChar "."; APlus email_char].

(** Every character of [s] is in the class. *)
Fixpoint all_of (cls : ascii -> bool) (s : string) : bool :=
  match s with
  | EmptyString => true
  | String c s' => cls c && all_of cls s'
  end.

(** A non-empty run of characters that are neither white space nor [@]. *)
Definition email_part (s : string) : bool :=
  negb (String.eqb s "") && all_of email_char s.

(** What [test] makes of its argument: [undefined] is tested as the string
    ["undefined"]. *)
Definition js_string (v : option string) : string := default "undefined" v.

(** [AuthManager.validateEmail] *)
Definition validateEmail (email : option string) : bool :=
  rmatch emailRegex (js_string email).

(** [AuthManager.validatePassword], as the truth value of
    [password && password.length >= 6]. *)
Definition validatePassword (password : option string) : bool :=
  match password with
  | Some s => negb (String.eqb s "") && (6 <=? String.length s)%nat
  | None => false
  end.

Fixpoint trim_start (s : string) : string :=
  match s with
  | EmptyString => ""
  | String c s' => if is_space c then trim_start s' else s
  end.

Fixpoint trim_end (s : string) : string :=
  match s with
  | EmptyString => ""
  | String c s' =>
      let t := trim_end s' in
      if is_space c && String.eqb t "" then "" else String c t
  end.

(** [String.prototype.trim] *)
Definition trim (s : string) : string := trim_end (trim_start s).

(** [AuthManager.validateName], as the truth value of
    [name && name.trim().length >= 2]. *)
Definition validateName (name : option string) : bool :=
  match name with
  | Some s => negb (String.eqb s "") && (2 <=? String.length (trim s))%nat
  | None => false
  end.

(** [UIManager.validateRequired]: the message, or [null]. *)
Definition ui_validateRequired (value : option string) (fieldName : string)
  : option string :=
  match value with
  | Some s =>
      if String.eqb s "" || String.eqb (trim s) ""
      then Some (fieldName +:+ " é obrigatório")
      else None
  | None => Some (fieldName +:+ " é obrigatório")
  end.

(** [UIManager.validateEmail] *)
Definition ui_validateEmail (email : option string) : option string :=
  if negb (truthy email) then Some "E-mail é obrigatório"
  else if negb (rmatch emailRegex (js_string email))
  then Some "Digite um e-mail válido"
  else None.

(** [UIManager.validatePassword] *)
Definition ui_validatePassword (password : option string) : option string :=
  match password with
  | Some s =>
      if String.eqb s "" then Some "Senha é obrigatória"
      else if (String.length s <? 6)%nat
      then Some "Senha deve ter pelo menos 6 caracteres"
      else None
  | None => Some "Senha é obrigatória"
  end.

(** [Object.fromEntries(new FormData(form).entries())] of the login and
    register forms: a field the form does not have is [undefined]. *)
Record FormData := {
  f_name : option string;
  f_email : option string;
  f_password : option string
}.

Record Validation := {
  isValid : bool;
  v_data : FormData;
  errors : gmap string string
}.

(** [AuthForms.validateForm]: the value it returns. *)
Definition validateForm (fd : FormData) : Validation :=
  let step1 : bool * gmap string string :=
    match f_name fd with
    | Some n =>
        if negb (validateName (Some n))
        then (false, {["name" := "Nome deve ter pelo menos 2 caracteres"]})
        else (true, ∅)
    | None => (true, ∅)
    end in
  let step2 : bool * gmap string string :=
    if negb (validateEmail (f_email fd))
    then (false, <["email" := "Digite um e-mail válido"]> (step1.2))
    else step1 in
  let step3 : bool * gmap string string :=
    if negb (validatePassword (f_password fd))
    then (false,
          <["password" := "Senha deve ter pelo menos 6 caracteres"]> (step2.2))
    else step2 in
  {| isValid := step3.1; v_data := fd; errors := step3.2 |}.

(** The submit handler of the login form ([setupLoginHandlers]): nothing is
    sent unless the form validates. *)
Definition login_submit (fuel : nat) (fd : FormData) (fr : FetchResult)
    (w : World) : option World :=
  if negb (isValid (validateForm fd)) then Some w
  else submit fuel (login fuel fr w).

(** The submit handler of the register form ([setupRegisterHandlers]). *)
Definition register_submit (fuel : nat) (fd : FormData) (fr : FetchResult)
    (w : World) : option World :=
  if negb (isValid (validateForm fd)) then Some w
  else submit fuel (register fuel fr w).

(** [sendMessage] of [setupChatHandlers]: the text of the input, what the
    POST and the refresh that follows are answered with. *)
Definition sendMessage (fuel : nat) (groupId : option string) (value : string)
    (posted refreshed : FetchResult) (w : World) : option World :=
  let content := trim value in
  if String.eqb content "" then Some w
  else
    '(w, r) ← request fuel
                ("/api/groups/" +:+ default "undefined" groupId +:+ "/messages")
                posted w;
    match r with
    | Returned _ => refreshChatMessages fuel groupId refreshed w
    | Thrown e => Some (handleApiError e w)
    end.

(** [UIManager.truncateText]; [text] may be [null]. *)
Definition truncateText (text : option string) (maxLength : Z) : option string :=
  match text with
  | Some s =>
      if String.eqb s "" || (Z.of_nat (String.length s) <=? maxLength)%Z
      then Some s
      else Some (String.substring 0 (Z.to_nat maxLength) s +:+ "...")
  | None => None
  end.

End Forms.

(** ** Modals ([ui.js]) *)

Module Modals.

(** What [showModal] pushes: [{ overlay, handleEscape }], both named by the
    number of the modal. *)
Record Entry := { overlay : nat; handleEscape : nat }.

#[global] Instance Entry_eq_dec : EqDecision Entry.
Proof. solve_decision. Defined.

Record State := {
  modals : list Entry;       (* this.modals *)
  attached : list nat;       (* overlays that are children of document.body *)
  keydown : list nat;        (* keydown listeners on document *)
  next : nat                 (* the number of the next modal *)
}.

(** [UIManager.showModal]: the new state and the overlay it returns. *)
Definition showModal (st : State) : State * nat :=
  let n := next st in
  ({| modals := modals st ++ [{| overlay := n; handleEscape := n |}];
      attached := attached st ++ [n];
      keydown := keydown st ++ [n];
      next := S n |}, n).

(** What [hideModal] is called with: nothing, the overlay element (as the
    close button, the overlay click and the Escape handler do), or an entry
    of [this.modals] (as [cleanup] does). *)
Inductive Arg :=
| Nothing
| Element (n : nat)
| Pushed (e : Entry).

(** [UIManager.hideModal].  An overlay element has neither an [overlay] nor a
    [handleEscape] property and is no member of [this.modals]. *)
Definition hideModal (arg : Arg) (st : State) : State :=
  let modal :=
    match arg with
    | Nothing => from_option Pushed Nothing (last (modals st))
    | _ => arg
    end in
  match modal with
  | Pushed e =>
      {| modals := filter (fun m => m ≠ e) (modals st);
         attached := filter (fun n => n ≠ overlay e) (attached st);
         keydown := filter (fun n => n ≠ handleEscape e) (keydown st);
         next := next st |}
  | _ => st
  end.

(** The Escape handler of modal [n]. *)
Definition pressEscape (n : nat) (st : State) : State :=
  let st := hideModal (Element n) st in
  {| modals := modals st; attached := attached st;
     keydown := filter (fun k => k ≠ n) (keydown st); next := next st |}.

(** The loop over the modals in [UIManager.cleanup]. *)
Definition hideAll (st : State) : State :=
  foldl (fun st e => hideModal (Pushed e) st) st (modals st).

(** No modal, overlay or listener carries a number that is still to come. *)
Definition well_formed (st : State) : Prop :=
  Forall (fun e => overlay e < next st /\ handleEscape e < next st) (modals st) /\
  Forall (fun n => n < next st) (attached st) /\
  Forall (fun n => n < next st) (keydown st).

End Modals.

(** * Properties *)

(** ** Route matching *)

Module RoutingFacts.
Import Routing.

Lemma app_nil_l (b : string) : "" +:+ b = b.
Proof. reflexivity. Qed.

Lemma app_cons (x : ascii) (a b : string) :
  String x a +:+ b = String x (a +:+ b).
Proof. reflexivity. Qed.

Lemma app_assoc (a b c : string) : (a +:+ b) +:+ c = a +:+ (b +:+ c).
Proof.
  induction a as [|x a IH]; [done |]. rewrite !app_cons. by f_equal.
Qed.

Lemma app_nil_r (a : string) : a +:+ "" = a.
Proof. induction a as [|x a IH]; [done |]. rewrite app_cons. by f_equal. Qed.

Lemma snoc_app (a : string) (c : ascii) (b : string) :
  (a +:+ String c "") +:+ b = a +:+ String c b.
Proof. by rewrite app_assoc. Qed.

Lemma eqb_empty_app (a b : string) :
  String.eqb (a +:+ b) "" = String.eqb a "" && String.eqb b "".
Proof. destruct a, b; done. Qed.

Lemma no_slash_app (a b : string) :
  no_slash (a +:+ b) = no_slash a && no_slash b.
Proof.
  induction a as [|x a IH]; [done |]. rewrite app_cons. simpl.
  rewrite IH. by destruct (Ascii.eqb x slash).
Qed.

(** What the group took is a non-empty run without a slash, and the rest of
    the expression accepted what follows. *)
Lemma greedy_sound k pre s r :
  greedy k pre s = Some r ->
  exists v s' caps,
    s = v +:+ s' /\ no_slash v = true /\ String.eqb (pre +:+ v) "" = false /\
    k s' = Some caps /\ r = (pre +:+ v) :: caps.
Proof.
  revert pre r. induction s as [|c s IH]; intros pre r; simpl.
  - destruct (String.eqb pre "") eqn:Hp; [done |].
    destruct (k "") as [caps|] eqn:Hk; [|done]. intros [= <-].
    exists "", "", caps. by rewrite !app_nil_r.
  - assert (Hhere :
      (if String.eqb pre "" then None
       else match k (String c s) with
            | Some caps => Some (pre :: caps)
            | None => None
            end) = Some r ->
      exists v s' caps,
        String c s = v +:+ s' /\ no_slash v = true /\
        String.eqb (pre +:+ v) "" = false /\
        k s' = Some caps /\ r = (pre +:+ v) :: caps).
    { destruct (String.eqb pre "") eqn:Hp; [done |].
      destruct (k (String c s)) as [caps|] eqn:Hk; [|done]. intros [= <-].
      exists "", (String c s), caps. by rewrite !app_nil_r, app_nil_l. }
    destruct (Ascii.eqb c slash) eqn:Hc; [exact Hhere |].
    destruct (greedy k (pre +:+ String c "") s) as [r'|] eqn:Hg; [|exact Hhere].
    intros [= <-]. apply IH in Hg as (v & s' & caps & -> & Hv & Hne & Hk & ->).
    exists (String c v), s', caps. rewrite app_cons. simpl. rewrite Hc, Hv.
    rewrite snoc_app in Hne. by rewrite snoc_app.
Qed.

(** Whenever some split of the input satisfies the group and the rest, the
    greedy search finds one. *)
Lemma greedy_complete k pre v s' caps :
  no_slash v = true -> String.eqb (pre +:+ v) "" = false ->
  k s' = Some caps ->
  is_Some (greedy k pre (v +:+ s')).
Proof.
  revert pre. induction v as [|c v IH]; intros pre Hv Hne Hk.
  - rewrite app_nil_r in Hne. rewrite app_nil_l.
    destruct s' as [|d s']; simpl; rewrite Hne, Hk.
    + by eexists.
    + destruct (Ascii.eqb d slash); [by eexists |].
      destruct (greedy k (pre +:+ String d "") s'); by eexists.
  - simpl in Hv. apply andb_true_iff in Hv as [Hc Hv].
    apply negb_true_iff in Hc. rewrite app_cons. simpl. rewrite Hc.
    destruct (IH (pre +:+ String c "") Hv) as [r Hr]; [by rewrite snoc_app | done |].
    rewrite Hr. by eexists.
Qed.

Lemma match_tokens_sound toks s vs :
  match_tokens toks s = Some vs -> matches toks s vs.
Proof.
  revert s vs. induction toks as [|[c| |n] ts IH]; intros s vs; simpl.
  - destruct (String.eqb_spec s ""); [|done]. intros [= <-]. subst. constructor.
  - destruct s as [|c' s]; [done |].
    destruct (Ascii.eqb_spec c c'); [|done]. subst. intros H. constructor. by apply IH.
  - destruct s as [|c' s]; [done |].
    destruct (is_line_terminator c') eqn:Hc; [done |].
    intros H. constructor; [done |]. by apply IH.
  - intros H. apply greedy_sound in H as (v & s' & caps & -> & Hv & Hne & Hk & ->).
    rewrite app_nil_l in *. constructor; [|by apply IH].
    unfold is_segment. by rewrite Hne, Hv.
Qed.

Lemma match_tokens_complete toks s vs :
  matches toks s vs -> is_Some (match_tokens toks s).
Proof.
  induction 1 as [|c ts s vs _ IH|c ts s vs Hc _ IH|n ts v s vs Hseg _ IH]; simpl.
  - by eexists.
  - by rewrite Ascii.eqb_refl.
  - by rewrite Hc.
  - destruct IH as [caps Hcaps].
    unfold is_segment in Hseg. apply andb_true_iff in Hseg as [Hne Hv].
    apply negb_true_iff in Hne.
    apply (greedy_complete _ "" v s caps); by rewrite ?app_nil_l.
Qed.

Lemma firstPattern_Some rs path r ps :
  firstPattern rs path = Some (r, ps) <->
  exists pre pat post,
    rs = pre ++ (pat, r) :: post /\ none_match pre path /\
    matchRoute pat path = Some ps.
Proof.
  induction rs as [|[pat0 r0] rs IH]; simpl.
  - split; [done |]. intros (pre & pat & post & H & _). by destruct pre.
  - destruct (matchRoute pat0 path) as [ps0|] eqn:Hm.
    + split.
      * intros [= -> ->]. exists [], pat0, rs. repeat split; [constructor | done].
      * intros (pre & pat & post & Hrs & Hpre & Hpat).
        destruct pre as [|e pre]; simplify_eq/=; [congruence |].
        inversion Hpre; simplify_eq/=.
    + rewrite IH. split.
      * intros (pre & pat & post & -> & Hpre & Hpat).
        exists ((pat0, r0) :: pre), pat, post. repeat split; [|done].
        by constructor.
      * intros (pre & pat & post & Hrs & Hpre & Hpat).
        destruct pre as [|e pre]; simplify_eq/=.
        inversion Hpre; simplify_eq/=. by exists pre, pat, post.
Qed.

Lemma firstPattern_None rs path :
  firstPattern rs path = None <-> none_match rs path.
Proof.
  unfold none_match. induction rs as [|[pat0 r0] rs IH]; simpl.
  - split; [constructor | done].
  - destruct (matchRoute pat0 path) eqn:Hm.
    + split; [done |]. inversion 1; subst. simpl in *. congruence.
    + rewrite IH. split; [by constructor | by inversion 1].
Qed.

End RoutingFacts.

(** ** What the router leaves alone *)

Module Frames.
Import Routing App.

(** Splits the sequencing of fallible steps in a hypothesis. *)
Ltac unbind :=
  repeat match goal with
  | H : (_ ≫= _) = Some _ |- _ =>
      let x := fresh "w" in
      let Hx := fresh "H" x in
      let H' := fresh "Hk" in
      apply bind_Some in H as (x & Hx & H'); try rename H' into H
  | H : Some _ = Some _ |- _ => apply (inj Some) in H
  | H : None = Some _ |- _ => discriminate H
  end.

Section RouterFrame.
Context {A : Type} (view : World -> A).
Hypothesis view_log : forall e w, view (log e w) = view w.
Hypothesis view_route :
  forall cr cp w,
    view (with_router {| routes := routes (router w); currentRoute := cr;
                         currentParams := cp |} w) = view w.
Hypothesis view_pathname :
  forall p w, view (with_browser (with_pathname p (browser w)) w) = view w.
Hypothesis view_unsubscribe :
  forall l w, view (removeListener l w) = view w.

Lemma navigate_with_frame resolve :
  (forall p w w', resolve p w = Some w' -> view w' = view w) ->
  forall path replace w w',
    navigate_with resolve path replace w = Some w' -> view w' = view w.
Proof.
  intros Hres path replace w w'. unfold navigate_with.
  destruct (decide _); [by intros [= <-] |].
  intros H. apply Hres in H. rewrite H.
  destruct replace; unfold replaceState, pushState;
    by rewrite view_log, view_pathname.
Qed.

Lemma handleRoute_frame fuel path w w' :
  handleRoute fuel path w = Some w' -> view w' = view w.
Proof.
  revert path w w'. induction fuel as [|fuel IH]; intros path w w'; [done |].
  cbn [handleRoute].
  pose proof (navigate_with_frame (handleRoute fuel) IH) as Hnav.
  destruct (findRoute (routes (router w)) path) as [[route params]|].
  - destruct (requiresAuth route && negb (isAuthenticated (auth w))).
    { apply Hnav. }
    destruct (truthy (redirectIfAuth route) && isAuthenticated (auth w)).
    { apply Hnav. }
    destruct (handler route); cbn [run_handler].
    + intros H. apply Hnav in H. by rewrite H, view_log, view_route.
    + intros [= <-]. by rewrite !view_log, view_route.
    + intros [= <-]. by rewrite !view_log, view_route.
    + intros [= <-]. by rewrite !view_log, view_route.
    + intros [= <-]. by rewrite !view_log, view_route.
  - intros [= <-]. by rewrite view_log.
Qed.

Lemma navigate_frame fuel path replace w w' :
  navigate fuel path replace w = Some w' -> view w' = view w.
Proof. apply navigate_with_frame. intros p. apply handleRoute_frame. Qed.

Lemma handleAuthStateChange_frame fuel b w w' :
  handleAuthStateChange fuel b w = Some w' -> view w' = view w.
Proof.
  unfold handleAuthStateChange.
  destruct (findRoute _ _) as [[route params]|]; [|by intros [= <-]].
  destruct (requiresAuth route && negb b); [apply navigate_frame |].
  destruct (truthy (redirectIfAuth route) && b); [apply navigate_frame |].
  by intros [= <-].
Qed.

Lemma call_listener_frame fuel l w w' :
  call_listener fuel l w = Some w' -> view w' = view w.
Proof.
  unfold call_listener. destruct (isLoading (auth w)); [by intros [= <-] |].
  destruct l.
  - apply handleAuthStateChange_frame.
  - intros H. apply handleRoute_frame in H. by rewrite H, view_unsubscribe.
Qed.

Lemma notify_each_frame fuel ls w w' :
  notify_each fuel ls w = Some w' -> view w' = view w.
Proof.
  revert w. induction ls as [|l ls IH]; intros w; simpl; [by intros [= <-] |].
  intros H. unbind. apply IH in H. apply call_listener_frame in Hw0. congruence.
Qed.

Lemma notifyListeners_frame fuel w w' :
  notifyListeners fuel w = Some w' -> view w' = view w.
Proof. apply notify_each_frame. Qed.

End RouterFrame.

(** Views of the world that only the polling loop can change: every other
    operation of the three modules leaves them as they are. *)
Section AppFrame.
Context {A : Type} (view : World -> A).
Hypothesis view_log : forall e w, view (log e w) = view w.
Hypothesis view_route :
  forall cr cp w,
    view (with_router {| routes := routes (router w); currentRoute := cr;
                         currentParams := cp |} w) = view w.
Hypothesis view_pathname :
  forall p w, view (with_browser (with_pathname p (browser w)) w) = view w.
Hypothesis view_auth : forall a w, view (with_auth a w) = view w.
Hypothesis view_token : forall t w, view (with_token t w) = view w.
Hypothesis view_setToken : forall t w, view (setToken t w) = view w.

Local Lemma view_unsubscribe l w : view (removeListener l w) = view w.
Proof. apply view_auth. Qed.

Local Abbreviation framed f :=
  (forall w w', f w = Some w' -> view w' = view w) (only parsing).

Lemma navigate_app_frame fuel path replace : framed (navigate fuel path replace).
Proof.
  intros w w'. by apply navigate_frame; auto using view_unsubscribe.
Qed.

Lemma handleRoute_app_frame fuel path : framed (handleRoute fuel path).
Proof.
  intros w w'. by apply handleRoute_frame; auto using view_unsubscribe.
Qed.

Lemma notifyListeners_app_frame fuel : framed (notifyListeners fuel).
Proof.
  intros w w'. by apply notifyListeners_frame; auto using view_unsubscribe.
Qed.

Lemma setUser_frame fuel u : framed (setUser fuel u).
Proof.
  intros w w' H. apply notifyListeners_app_frame in H. by rewrite H, view_auth.
Qed.

Lemma clearAuth_frame fuel : framed (clearAuth fuel).
Proof.
  intros w w' H. apply notifyListeners_app_frame in H.
  by rewrite H, view_setToken, view_auth.
Qed.

Lemma finish_loading_frame fuel : framed (finish_loading fuel).
Proof.
  intros w w' H. apply notifyListeners_app_frame in H. by rewrite H, view_auth.
Qed.

Lemma dispatch_auth_logout_frame fuel : framed (dispatch_auth_logout fuel).
Proof. intros w w' H. apply clearAuth_frame in H. by rewrite H, view_log. Qed.

Lemma request_frame fuel endpoint fr w w' r :
  request fuel endpoint fr w = Some (w', r) -> view w' = view w.
Proof.
  unfold request. destruct (receive fr) as [d|e].
  - intros [= <- <-]. by rewrite view_log.
  - intros H. unbind. injection H as <- <-. rewrite !view_log.
    destruct (decide _).
    + apply dispatch_auth_logout_frame in Hw0.
      by rewrite Hw0, view_setToken, view_log.
    + injection Hw0 as <-. by rewrite view_log.
Qed.

Lemma api_authenticate_frame fuel endpoint fr w w' r :
  api_authenticate fuel endpoint fr w = Some (w', r) -> view w' = view w.
Proof.
  unfold api_authenticate. intros H. unbind.
  destruct w0 as [w1 [response|e]]; apply request_frame in Hw0.
  - destruct (success_data response) as [[p|]|e].
    + destruct (truthy (p_token p)); injection H as <- <-;
        by rewrite ?view_setToken.
    + by injection H as <- <-.
    + by injection H as <- <-.
  - by injection H as <- <-.
Qed.

Lemma rethrow_frame e w : view (rethrow e w).1 = view w.
Proof. unfold rethrow, handleApiError, dispatch_toast. simpl. by rewrite !view_log. Qed.

Lemma authenticate_frame fuel endpoint fr w w' r :
  authenticate fuel endpoint fr w = Some (w', r) -> view w' = view w.
Proof.
  unfold authenticate. intros H. unbind.
  destruct w0 as [w1 res]. apply api_authenticate_frame in Hw0.
  assert (Hre : forall e, Some (rethrow e w1) = Some (w', r) -> view w' = view w).
  { intros e [= He _]. rewrite <- He.
    change (view (rethrow e w1).1 = view w). by rewrite rethrow_frame. }
  destruct res as [response|e]; [|by eapply Hre].
  destruct (success_data response) as [[[[u|] t]|]|e]; try by eapply Hre.
  unbind. injection H as <- <-.
  match goal with
  | Hs : setUser _ _ _ = Some _ |- _ => apply setUser_frame in Hs; rename Hs into Hset
  end.
  unfold dispatch_toast. by rewrite view_log, Hset.
Qed.

Lemma logout_frame fuel : framed (logout fuel).
Proof.
  intros w w'. unfold logout, api_logout, dispatch_navigate. intros H. unbind.
  apply navigate_app_frame in H.
  repeat match goal with
  | Hc : clearAuth _ _ = Some _ |- _ => apply clearAuth_frame in Hc
  | Hc : dispatch_auth_logout _ _ = Some _ |- _ =>
      apply dispatch_auth_logout_frame in Hc
  end.
  unfold dispatch_toast in H. rewrite !view_log in H.
  rewrite view_setToken in *. congruence.
Qed.

Lemma validateToken_frame fuel fr : framed (validateToken fuel fr).
Proof.
  intros w w'. unfold validateToken. intros H. unbind.
  destruct w0 as [w1 res]. apply request_frame in Hw0. rewrite <- Hw0.
  destruct (match res with
            | Returned response => success_data response
            | Thrown e => Thrown e
            end) as [[[[u|] t]|]|e]; unbind;
    repeat match goal with
    | H : setUser _ _ _ = Some _ |- _ => apply setUser_frame in H
    | H : clearAuth _ _ = Some _ |- _ => apply clearAuth_frame in H
    | H : finish_loading _ _ = Some _ |- _ => apply finish_loading_frame in H
    end; rewrite ?view_log in *; congruence.
Qed.

Lemma submit_frame fuel (r : option (World * Result Body)) w w' :
  (forall w1 res, r = Some (w1, res) -> view w1 = view w) ->
  submit fuel r = Some w' -> view w' = view w.
Proof.
  intros Hr. unfold submit. intros H. unbind. destruct w0 as [w1 [b|e]].
  - apply navigate_app_frame in H. rewrite H. by eapply Hr.
  - injection H as <-. by eapply Hr.
Qed.

(** Everything that can happen, other than a group page arriving. *)
Lemma step_frame fuel a w w' :
  (forall g found, a <> AGroupLoaded g found) ->
  step fuel a w = Some w' -> view w' = view w.
Proof.
  intros Ha. destruct a; cbn [step].
  - apply validateToken_frame.
  - apply submit_frame. intros w1 res. apply authenticate_frame.
  - apply submit_frame. intros w1 res. apply authenticate_frame.
  - apply logout_frame.
  - intros H. apply fmap_Some in H as ([w1 res] & H & ->).
    by apply request_frame in H.
  - apply navigate_app_frame.
  - intros H. apply handleRoute_app_frame in H. by rewrite H, view_pathname.
  - by destruct (Ha groupId found).
Qed.

Lemma auth_init_frame fuel : framed (auth_init fuel).
Proof.
  intros w w'. unfold auth_init.
  destruct (truthy _).
  - intros [= <-]. by rewrite view_setToken, view_token.
  - intros H. apply finish_loading_frame in H. by rewrite H, view_token.
Qed.

End AppFrame.

End Frames.

(** ** The auth state *)

Module AuthFacts.
Import Routing App Notions Frames.

Lemma session_step_refl w : session_step w w.
Proof. by left. Qed.

Lemma session_step_trans w1 w2 w3 :
  session_step w1 w2 -> session_step w2 w3 -> session_step w1 w3.
Proof.
  intros [H12|H2] [H23|H3]; unfold session_step; try (by right).
  - left. congruence.
  - right. by rewrite H23.
Qed.

Lemma session_step_consistent w w' :
  consistent (session w) -> session_step w w' -> consistent (session w').
Proof. intros Hw [H|H]; [by rewrite H | done]. Qed.

Lemma session_same w w' : session w' = session w -> session_step w w'.
Proof. by left. Qed.

Lemma session_log e w : session (log e w) = session w.
Proof. done. Qed.
Lemma session_route cr cp w :
  session (with_router {| routes := routes (router w); currentRoute := cr;
                          currentParams := cp |} w) = session w.
Proof. done. Qed.
Lemma session_pathname p w :
  session (with_browser (with_pathname p (browser w)) w) = session w.
Proof. done. Qed.
Lemma session_unsubscribe l w : session (removeListener l w) = session w.
Proof. done. Qed.
Lemma session_setToken t w : session (setToken t w) = session w.
Proof. unfold setToken. destruct t as [s|]; [destruct (truthy _) |]; done. Qed.

Lemma session_notifyListeners fuel w w' :
  notifyListeners fuel w = Some w' -> session w' = session w.
Proof.
  apply notifyListeners_frame;
    auto using session_log, session_route, session_pathname, session_unsubscribe.
Qed.

Lemma session_navigate fuel path replace w w' :
  navigate fuel path replace w = Some w' -> session w' = session w.
Proof.
  apply navigate_frame;
    auto using session_log, session_route, session_pathname, session_unsubscribe.
Qed.

Lemma session_handleRoute fuel path w w' :
  handleRoute fuel path w = Some w' -> session w' = session w.
Proof.
  apply handleRoute_frame;
    auto using session_log, session_route, session_pathname, session_unsubscribe.
Qed.

Lemma session_setUser fuel u w w' :
  setUser fuel u w = Some w' -> session w' = (Some u, true).
Proof. intros H. apply session_notifyListeners in H. by rewrite H. Qed.

Lemma session_clearAuth fuel w w' :
  clearAuth fuel w = Some w' -> session w' = (None, false).
Proof.
  intros H. apply session_notifyListeners in H. by rewrite H, session_setToken.
Qed.

Lemma session_finish_loading fuel w w' :
  finish_loading fuel w = Some w' -> session w' = session w.
Proof. intros H. apply session_notifyListeners in H. by rewrite H. Qed.

Lemma consistent_signed_in u : consistent (Some u, true).
Proof. split; [by eexists | done]. Qed.

Lemma consistent_signed_out : consistent (None, false).
Proof. split; [done | by intros [? ?]]. Qed.

Lemma step_setUser fuel u w w' : setUser fuel u w = Some w' -> session_step w w'.
Proof.
  intros H. right. apply session_setUser in H. rewrite H.
  apply consistent_signed_in.
Qed.

Lemma step_clearAuth fuel w w' : clearAuth fuel w = Some w' -> session_step w w'.
Proof.
  intros H. right. apply session_clearAuth in H. rewrite H.
  apply consistent_signed_out.
Qed.

Lemma step_request fuel endpoint fr w w' r :
  request fuel endpoint fr w = Some (w', r) -> session_step w w'.
Proof.
  unfold request. destruct (receive fr) as [d|e].
  - intros [= <- <-]. by left.
  - intros H. unbind. injection H as <- <-.
    destruct (decide _).
    + right. apply session_clearAuth in Hw0. rewrite !session_log, Hw0.
      apply consistent_signed_out.
    + injection Hw0 as <-. by left.
Qed.

Lemma step_api_authenticate fuel endpoint fr w w' r :
  api_authenticate fuel endpoint fr w = Some (w', r) -> session_step w w'.
Proof.
  unfold api_authenticate. intros H. unbind.
  destruct w0 as [w1 res]. apply step_request in Hw0.
  eapply session_step_trans; [exact Hw0 |]. apply session_same.
  destruct res as [response|e]; [|by injection H as <- <-].
  destruct (success_data response) as [[p|]|e]; [|by injection H as <- <-..].
  destruct (truthy (p_token p)); injection H as <- <-; [|done].
  apply session_setToken.
Qed.

Lemma step_authenticate fuel endpoint fr w w' r :
  authenticate fuel endpoint fr w = Some (w', r) -> session_step w w'.
Proof.
  unfold authenticate. intros H. unbind.
  destruct w0 as [w1 res]. apply step_api_authenticate in Hw0.
  eapply session_step_trans; [exact Hw0 |].
  assert (Hre : forall e, Some (rethrow e w1) = Some (w', r) -> session_step w1 w').
  { intros e [= <- _]. by left. }
  destruct res as [response|e]; [|by eapply Hre].
  destruct (success_data response) as [[[[u|] t]|]|e]; try by eapply Hre.
  unbind. injection H as <- <-.
  match goal with
  | Hs : setUser _ _ _ = Some _ |- _ => apply step_setUser in Hs; rename Hs into Hset
  end.
  destruct Hset as [Hset|Hset]; [by left | by right].
Qed.

Lemma step_logout fuel w w' : logout fuel w = Some w' -> session_step w w'.
Proof.
  unfold logout, dispatch_navigate. intros H. unbind. right.
  apply session_navigate in H. rewrite H. unfold dispatch_toast.
  rewrite !session_log.
  match goal with
  | Hc : clearAuth _ _ = Some _ |- _ => apply session_clearAuth in Hc; rewrite Hc
  end.
  apply consistent_signed_out.
Qed.

Lemma step_validateToken fuel fr w w' :
  validateToken fuel fr w = Some w' -> session_step w w'.
Proof.
  unfold validateToken. intros H. unbind. destruct w0 as [w1 res]. right.
  destruct (match res with
            | Returned response => success_data response
            | Thrown e => Thrown e
            end) as [[[[u|] t]|]|e]; unbind;
    repeat match goal with
    | Hf : finish_loading _ _ = Some _ |- _ =>
        apply session_finish_loading in Hf; try rewrite Hf
    end;
    match goal with
    | Hc : clearAuth _ _ = Some _ |- _ =>
        apply session_clearAuth in Hc; rewrite Hc; apply consistent_signed_out
    | Hs : setUser _ _ _ = Some _ |- _ =>
        apply session_setUser in Hs; rewrite Hs; apply consistent_signed_in
    end.
Qed.

Lemma step_submit fuel (r : option (World * Result Body)) w w' :
  (forall w1 res, r = Some (w1, res) -> session_step w w1) ->
  submit fuel r = Some w' -> session_step w w'.
Proof.
  intros Hr. unfold submit. intros H. unbind. destruct w0 as [w1 [b|e]].
  - apply session_navigate in H. eapply session_step_trans; [by eapply Hr |].
    by left.
  - injection H as <-. by eapply Hr.
Qed.

Lemma step_session fuel a w w' : step fuel a w = Some w' -> session_step w w'.
Proof.
  destruct a; cbn [step].
  - apply step_validateToken.
  - apply step_submit. intros w1 res. apply step_authenticate.
  - apply step_submit. intros w1 res. apply step_authenticate.
  - apply step_logout.
  - intros H. apply fmap_Some in H as ([w1 res] & H & ->).
    by apply step_request in H.
  - intros H. apply session_navigate in H. by left.
  - intros H. apply session_handleRoute in H. by left.
  - intros [= <-]. left. unfold renderGroup_loaded.
    destruct found; [|done]. unfold startChatPolling, stopChatPolling.
    by destruct (truthy_handle _).
Qed.

Lemma run_session fuel actions w w' :
  run fuel actions w = Some w' -> session_step w w'.
Proof.
  revert w. induction actions as [|a rest IH]; intros w; simpl.
  - intros [= <-]. apply session_step_refl.
  - intros H. unbind. eapply session_step_trans; [by eapply step_session | by apply IH].
Qed.

Lemma boot_session fuel stored path w :
  boot fuel stored path = Some w -> session w = (None, false).
Proof.
  unfold boot, auth_init, router_init. intros H. unbind.
  assert (session w0 = (None, false)) as H0.
  { destruct (truthy _).
    - injection Hw0 as <-. by rewrite session_setToken.
    - by apply session_finish_loading in Hw0. }
  rewrite <- H0. destruct (isLoading _).
  - by injection H as <-.
  - by apply session_handleRoute in H.
Qed.

End AuthFacts.

(** ** The chat polling loop *)

Module PollingFacts.
Import Routing App Notions Frames.

Lemma polling_log e w : polling (log e w) = polling w.
Proof. done. Qed.
Lemma polling_router r w : polling (with_router r w) = polling w.
Proof. done. Qed.
Lemma polling_pathname p w :
  polling (with_browser (with_pathname p (browser w)) w) = polling w.
Proof. done. Qed.
Lemma polling_auth a w : polling (with_auth a w) = polling w.
Proof. done. Qed.
Lemma polling_token t w : polling (with_token t w) = polling w.
Proof. done. Qed.
Lemma polling_setToken t w : polling (setToken t w) = polling w.
Proof. unfold setToken. destruct t as [s|]; [destruct (truthy _) |]; done. Qed.

Create HintDb polling.
#[local] Hint Resolve polling_log polling_router polling_pathname polling_auth
  polling_token polling_setToken : polling.

(** Navigation never touches the polling state: no route change stops, or
    starts, a timer. *)
Lemma navigate_keeps_polling fuel path replace w w' :
  navigate fuel path replace w = Some w' -> polling w' = polling w.
Proof. apply navigate_app_frame; auto with polling. Qed.

Lemma handleRoute_keeps_polling fuel path w w' :
  handleRoute fuel path w = Some w' -> polling w' = polling w.
Proof. apply handleRoute_app_frame; auto with polling. Qed.

Lemma request_keeps_polling fuel endpoint fr w w' r :
  request fuel endpoint fr w = Some (w', r) -> polling w' = polling w.
Proof. apply request_frame; auto with polling. Qed.

Lemma step_keeps_polling fuel a w w' :
  (forall g found, a <> AGroupLoaded g found) ->
  step fuel a w = Some w' -> polling w' = polling w.
Proof. apply step_frame; auto with polling. Qed.

Lemma boot_polling fuel stored path w :
  boot fuel stored path = Some w ->
  polling w = ({| chatPolling := None; currentGroupId := None |}, 1, []).
Proof.
  unfold boot, router_init. intros H. unbind.
  apply (auth_init_frame polling) in Hw0; auto with polling.
  change (polling w = polling (blank stored path)). rewrite <- Hw0.
  destruct (isLoading _).
  - by injection H as <-.
  - by apply handleRoute_keeps_polling in H.
Qed.

Lemma stopChatPolling_polling w :
  one_session (polling w) ->
  polling (stopChatPolling w) =
    ({| chatPolling := None; currentGroupId := currentGroupId (ui w) |},
     nextTimer (browser w), []).
Proof.
  unfold one_session, polling, stopChatPolling. intros [Hnext Hpoll].
  destruct (ui w) as [[h|] g] eqn:Hui; simpl in *.
  - destruct Hpoll as [Hh Htimers].
    destruct (Nat.eqb_spec h 0) as [|_]; [done |]. simpl.
    rewrite Htimers, Hui. simpl.
    by rewrite filter_cons_False by (simpl; intros Hne; by apply Hne).
  - by rewrite Hui, Hpoll.
Qed.

Lemma startChatPolling_polling g w :
  one_session (polling w) ->
  polling (startChatPolling g w) =
    ({| chatPolling := Some (nextTimer (browser w)); currentGroupId := g |},
     S (nextTimer (browser w)), [(nextTimer (browser w), g)]).
Proof.
  intros Hw. pose proof (stopChatPolling_polling w Hw) as Hstop.
  unfold polling in Hstop. injection Hstop as Hui Hnext Htimers.
  unfold startChatPolling, polling, setInterval. simpl.
  by rewrite Hnext, Htimers.
Qed.

Lemma startChatPolling_one_session g w :
  one_session (polling w) -> one_session (polling (startChatPolling g w)).
Proof.
  intros Hw. rewrite startChatPolling_polling by done.
  destruct Hw as [Hnext _]. unfold polling in Hnext. simpl.
  repeat split; lia.
Qed.

Lemma step_one_session fuel a w w' :
  step fuel a w = Some w' -> one_session (polling w) -> one_session (polling w').
Proof.
  intros Hstep Hw.
  assert (Hother : (forall g found, a <> AGroupLoaded g found) ->
                   one_session (polling w')).
  { intros Ha. by erewrite step_keeps_polling. }
  destruct a; try (by apply Hother).
  injection Hstep as <-. unfold renderGroup_loaded. destruct found; [|done].
  by apply startChatPolling_one_session.
Qed.

Lemma run_one_session fuel actions w w' :
  run fuel actions w = Some w' -> one_session (polling w) -> one_session (polling w').
Proof.
  revert w. induction actions as [|a rest IH]; intros w; simpl.
  - by intros [= <-].
  - intros H Hw. unbind. eapply IH; [done |]. by eapply step_one_session.
Qed.

Lemma reachable_one_session fuel w :
  reachable fuel w -> one_session (polling w).
Proof.
  intros (stored & path & actions & H). unbind.
  eapply run_one_session; [done |].
  erewrite boot_polling by done. simpl. split; [lia | done].
Qed.

End PollingFacts.

(** ** Resolving routes of the application's table *)

Module RouterFacts.
Import Routing App Notions Frames.

Lemma findRoute_root :
  findRoute setupRoutes "/" =
    Some ({| handler := HRedirectDefault; requiresAuth := false;
             redirectIfAuth := None |}, ∅).
Proof. reflexivity. Qed.

Lemma findRoute_login :
  findRoute setupRoutes "/login" =
    Some ({| handler := HLogin; requiresAuth := false;
             redirectIfAuth := Some "/dashboard" |}, ∅).
Proof. reflexivity. Qed.

Lemma findRoute_dashboard :
  findRoute setupRoutes "/dashboard" =
    Some ({| handler := HDashboard; requiresAuth := true;
             redirectIfAuth := None |}, ∅).
Proof. reflexivity. Qed.

Lemma firstPattern_elem rs path r ps :
  firstPattern rs path = Some (r, ps) -> exists pat, (pat, r) ∈ rs.
Proof.
  induction rs as [|[pat0 r0] rs IH]; simpl; [done |].
  destruct (matchRoute pat0 path).
  - intros [= -> _]. exists pat0. by left.
  - intros H. destruct (IH H) as [pat Hpat]. exists pat. by right.
Qed.

Lemma routes_get_elem rs path r :
  routes_get rs path = Some r -> (path, r) ∈ rs.
Proof.
  induction rs as [|[k r0] rs IH]; simpl; [done |].
  destruct (String.eqb_spec k path) as [->|_].
  - intros [= ->]. by left.
  - intros H. right. by apply IH.
Qed.

(** Whatever [findRoute] returns is an entry of the table. *)
Lemma findRoute_elem rs path r ps :
  findRoute rs path = Some (r, ps) -> exists pat, (pat, r) ∈ rs.
Proof.
  unfold findRoute. destruct (routes_get rs path) as [r0|] eqn:Hget.
  - intros [= <- _]. exists path. by apply routes_get_elem.
  - apply firstPattern_elem.
Qed.

(** The protected routes of the application are the dashboard and the group
    page. *)
Lemma setupRoutes_protected pat r :
  (pat, r) ∈ setupRoutes -> requiresAuth r = true ->
  truthy (redirectIfAuth r) = false /\ (handler r = HDashboard \/ handler r = HGroup).
Proof.
  intros Hin Hauth. vm_compute in Hin.
  repeat (apply elem_of_cons in Hin as [[= -> ->]|Hin]; [by (split; auto) || done |]).
  by apply elem_of_nil in Hin.
Qed.

Lemma handleRoute_unfold fuel path w :
  handleRoute (S fuel) path w =
    match findRoute (routes (router w)) path with
    | None => Some (log (EvRenderPage PNotFound) w)
    | Some (route, params) =>
        if requiresAuth route && negb (isAuthenticated (auth w))
        then navigate fuel "/login" true w
        else if truthy (redirectIfAuth route) && isAuthenticated (auth w)
        then navigate fuel (default "" (redirectIfAuth route)) true w
        else
          run_handler (navigate fuel) (handler route) params
            (log (EvHandler (handler route) params)
               (with_router {| routes := routes (router w);
                               currentRoute := Some path;
                               currentParams := params |} w))
    end.
Proof. reflexivity. Qed.

(** Resolving [/login] while anonymous shows the login page. *)
Lemma handleRoute_login_anonymous fuel w :
  routes (router w) = setupRoutes -> isAuthenticated (auth w) = false ->
  handleRoute (S fuel) "/login" w = Some (shown "/login" HLogin PLogin w).
Proof.
  intros Hrs Hanon. cbn [handleRoute]. rewrite Hrs, findRoute_login.
  cbn [requiresAuth redirectIfAuth handler]. rewrite Hanon.
  unfold shown. by rewrite Hrs.
Qed.

(** Resolving [/dashboard] while authenticated shows the dashboard. *)
Lemma handleRoute_dashboard_authenticated fuel w :
  routes (router w) = setupRoutes -> isAuthenticated (auth w) = true ->
  handleRoute (S fuel) "/dashboard" w =
    Some (shown "/dashboard" HDashboard PDashboard w).
Proof.
  intros Hrs Hauth. cbn [handleRoute]. rewrite Hrs, findRoute_dashboard.
  cbn [requiresAuth redirectIfAuth handler]. rewrite Hauth.
  unfold shown. by rewrite Hrs.
Qed.

End RouterFacts.

(** ** Protected routes and the root path *)

Module Guards.
Import Routing App Notions Frames RouterFacts.

(** What the guard of [handleRoute] does.  On the application's route
    table, resolving a route that requires authentication while the session
    is anonymous ends in one of two ways.  When the router's current route
    is not [/login], the history entry is replaced (not pushed) by [/login]
    and the login page is shown.  When the current route already is
    [/login], [navigate] returns at once and the world is left exactly as it
    was, whatever page is on the screen.  In both cases the handler of the
    requested route is not invoked. *)
Lemma protected_route_anonymous fuel path w route ps :
  routes (router w) = setupRoutes ->
  findRoute setupRoutes path = Some (route, ps) ->
  requiresAuth route = true ->
  isAuthenticated (auth w) = false ->
  exists w',
    handleRoute (S (S fuel)) path w = Some w' /\
    w' = (if decide (currentRoute (router w) = Some "/login") then w
          else shown "/login" HLogin PLogin (replaceState "/login" w)) /\
    trace w' = trace w ++
      (if decide (currentRoute (router w) = Some "/login") then []
       else [EvReplaceState "/login"; EvHandler HLogin ∅; EvRenderPage PLogin]) /\
    handler route <> HLogin.
Proof.
  intros Hrs Hfind Hreq Hanon.
  assert (handler route <> HLogin) as Hh.
  { destruct (findRoute_elem _ _ _ _ Hfind) as [pat Hin].
    destruct (setupRoutes_protected pat route Hin Hreq) as [_ [-> | ->]]; done. }
  rewrite handleRoute_unfold, Hrs, Hfind, Hreq, Hanon. cbn [andb negb].
  unfold navigate, navigate_with. destruct (decide _) as [Hon|Hoff].
  - exists w. by rewrite app_nil_r.
  - eexists. split; [by apply handleRoute_login_anonymous |].
    repeat split; [|done]. unfold shown, replaceState. simpl.
    by rewrite <- !app_assoc.
Qed.

(** The inputs of [protected_route_anonymous] exist: a visitor who is
    shown the not-found page asks for the dashboard. *)
Lemma protected_route_anonymous_witness :
  exists w w',
    boot 4 ∅ "/nowhere" = Some w /\
    handleRoute 2 "/dashboard" w = Some w' /\
    trace w' = trace w ++
      [EvReplaceState "/login"; EvHandler HLogin ∅; EvRenderPage PLogin].
Proof.
  eexists. 
  destruct (protected_route_anonymous 0 "/dashboard"
              (default (blank ∅ "") (boot 4 ∅ "/nowhere"))
              {| handler := HDashboard; requiresAuth := true;
                 redirectIfAuth := None |} ∅)
    as (w' & Hrun & _ & Htrace & _); [reflexivity.. |].
  exists w'. split; [reflexivity |]. split; [exact Hrun | exact Htrace].
Defined.

(** The same early return for a visitor who is on the login page.  The
    dashboard requires authentication and the session is anonymous, yet
    resolving [/dashboard] returns the world unchanged; when the request
    comes from the back button, no history entry is replaced and the
    address stays [/dashboard]. *)
Lemma protected_route_not_redirected_on_login :
  exists w w',
    visitor_at_login = Some w /\
    isAuthenticated (auth w) = false /\
    (exists r ps,
       findRoute (routes (router w)) "/dashboard" = Some (r, ps) /\
       requiresAuth r = true) /\
    handleRoute 4 "/dashboard" w = Some w /\
    step 4 (APopState "/dashboard") w = Some w' /\
    trace w' = trace w /\
    (EvReplaceState "/login" ∉ trace w') /\
    pathname (browser w') = "/dashboard".
Proof.
  exists (default (blank ∅ "") visitor_at_login).
  exists (default (blank ∅ "")
            (visitor_at_login ≫= step 4 (APopState "/dashboard"))).
  split; [vm_compute; reflexivity |]. split; [vm_compute; reflexivity |].
  split; [eexists _, _; split; vm_compute; reflexivity |].
  repeat (split; [vm_compute; reflexivity |]).
  split; [|vm_compute; reflexivity]. vm_compute.
  intros H. repeat (apply elem_of_cons in H as [H|H]; [discriminate H |]).
  by apply elem_of_nil in H.
Qed.

(** C1 at its failing input.  An anonymous visitor opens an address that
    does not exist, follows the link of the not-found page to the dashboard
    and is sent to the login page, goes back with the back button, and
    follows the same link again.  The dashboard requires authentication and
    the session is anonymous, yet this time nothing redirects: the only
    thing that happens is the push of [/dashboard]; no history entry is
    replaced, the address stays [/dashboard], and the page on the screen is
    still the not-found page, not the login page.  The router's current
    route has been [/login] since the first redirect, because the not-found
    branch of [handleRoute] does not set it, and [navigate('/login', true)]
    returns at once when asked for the current route. *)
Theorem protected_route_redirect_missed :
  exists w w',
    visitor_back_at_unknown = Some w /\
    reachable 4 w /\
    isAuthenticated (auth w) = false /\
    findRoute (routes (router w)) "/dashboard" =
      Some ({| handler := HDashboard; requiresAuth := true;
               redirectIfAuth := None |}, ∅) /\
    step 4 (ANavigate "/dashboard") w = Some w' /\
    trace w' = trace w ++ [EvPushState "/dashboard"] /\
    pathname (browser w') = "/dashboard" /\
    currentRoute (router w') = Some "/login" /\
    displayed w = Some PNotFound /\
    displayed w' = Some PNotFound.
Proof.
  exists (default (blank ∅ "") visitor_back_at_unknown).
  exists (default (blank ∅ "")
            (visitor_back_at_unknown ≫= step 4 (ANavigate "/dashboard"))).
  split; [vm_compute; reflexivity |]. split.
  - exists ∅, "/nowhere", [ANavigate "/dashboard"; APopState "/nowhere"].
    vm_compute. reflexivity.
  - repeat (split; [vm_compute; reflexivity |]). vm_compute. reflexivity.
Qed.

(** C10.  On the application's route table, resolving [/] invokes only the
    redirecting handler, replaces the history entry by the default route,
    and shows that route's page: the dashboard when the session is
    authenticated, the login page when it is anonymous. *)
Theorem root_redirects fuel w :
  routes (router w) = setupRoutes ->
  exists w',
    handleRoute (S (S fuel)) "/" w = Some w' /\
    defaultRoute w =
      (if isAuthenticated (auth w) then "/dashboard" else "/login") /\
    trace w' = trace w ++
      [EvHandler HRedirectDefault ∅;
       EvReplaceState (defaultRoute w);
       EvHandler (if isAuthenticated (auth w) then HDashboard else HLogin) ∅;
       EvRenderPage (if isAuthenticated (auth w) then PDashboard else PLogin)] /\
    pathname (browser w') = defaultRoute w /\
    currentRoute (router w') = Some (defaultRoute w).
Proof.
  intros Hrs. rewrite handleRoute_unfold, Hrs, findRoute_root.
  cbn [requiresAuth redirectIfAuth handler truthy andb run_handler].
  unfold navigate, navigate_with, defaultRoute.
  cbn [log auth router currentRoute with_router].
  destruct (isAuthenticated (auth w)) eqn:Hauth.
  - destruct (decide _) as [[=]|_].
    eexists. split; [by apply handleRoute_dashboard_authenticated |].
    repeat split. unfold shown, replaceState. simpl. by rewrite <- !app_assoc.
  - destruct (decide _) as [[=]|_].
    eexists. split; [by apply handleRoute_login_anonymous |].
    repeat split. unfold shown, replaceState. simpl. by rewrite <- !app_assoc.
Qed.

(** The input of [root_redirects] exists: the visitor on the login page. *)
Lemma root_redirects_witness :
  exists w w',
    visitor_at_login = Some w /\
    handleRoute 2 "/" w = Some w' /\
    pathname (browser w') = "/login".
Proof.
  eexists.
  destruct (root_redirects 0 (default (blank ∅ "") visitor_at_login))
    as (w' & Hrun & _ & _ & Hpath & _); [reflexivity |].
  exists w'. split; [reflexivity |]. split; [exact Hrun | exact Hpath].
Defined.

End Guards.

(** ** One polling session, and stopping it *)

Module PollingSession.
Import Routing App Notions Frames PollingFacts.

(** C7.  In every state the application can reach at most one interval
    timer is running.  Starting the loop for [g1] and then for [g2] leaves
    exactly one timer, the one [chatPolling] holds, and it refreshes [g2];
    in particular starting twice for the same group leaves one timer. *)
Theorem single_polling_session fuel w :
  reachable fuel w ->
  length (intervals (browser w)) <= 1 /\
  (forall g1 g2,
     let w' := startChatPolling g2 (startChatPolling g1 w) in
     exists h,
       intervals (browser w') = [(h, g2)] /\
       chatPolling (ui w') = Some h /\
       currentGroupId (ui w') = g2) /\
  (forall g,
     length (intervals (browser (startChatPolling g (startChatPolling g w)))) = 1).
Proof.
  intros Hreach. apply reachable_one_session in Hreach.
  assert (Htwice : forall g1 g2,
    polling (startChatPolling g2 (startChatPolling g1 w)) =
      ({| chatPolling := Some (S (nextTimer (browser w))); currentGroupId := g2 |},
       S (S (nextTimer (browser w))), [(S (nextTimer (browser w)), g2)])).
  { intros g1 g2.
    pose proof (startChatPolling_one_session g1 w Hreach) as H1.
    rewrite (startChatPolling_polling g2 _ H1).
    pose proof (f_equal (fun v => snd (fst v))
                  (startChatPolling_polling g1 w Hreach)) as Hnext.
    cbn [polling fst snd] in Hnext. by rewrite Hnext. }
  split; [|split].
  - unfold one_session, polling in Hreach. destruct Hreach as [_ Hpoll].
    destruct (chatPolling (ui w)) as [h|].
    + destruct Hpoll as [_ ->]. simpl. lia.
    + rewrite Hpoll. simpl. lia.
  - intros g1 g2 w'. specialize (Htwice g1 g2). fold w' in Htwice.
    pose proof (f_equal (fun v => fst (fst v)) Htwice) as Hui.
    pose proof (f_equal snd Htwice) as Htimers.
    cbn [polling fst snd] in Hui, Htimers.
    exists (S (nextTimer (browser w))). by rewrite Hui, Htimers.
  - intros g. pose proof (f_equal snd (Htwice g g)) as Htimers.
    cbn [polling fst snd] in Htimers. by rewrite Htimers.
Qed.

(** The input of [single_polling_session] exists: a member on a group page
    whose polling loop is running. *)
Lemma single_polling_session_witness :
  exists w,
    member_in_group = Some w /\
    length (intervals (browser w)) <= 1 /\
    intervals
      (browser (startChatPolling (Some "g2") (startChatPolling (Some "g1") w))) =
      [(3, Some "g2")].
Proof.
  exists (default (blank ∅ "") member_in_group).
  split; [vm_compute; reflexivity |].
  destruct (single_polling_session 4 (default (blank ∅ "") member_in_group))
    as (Hone & _ & _).
  - exists ∅, "/login",
      [ALogin (auth_answer (Some ana) (Some "tok"));
       ANavigate "/group/g1"; AGroupLoaded (Some "g1") true].
    vm_compute. reflexivity.
  - split; [exact Hone | vm_compute; reflexivity].
Defined.

(** C8, as the loop implements it.  From any state, [stopChatPolling]
    leaves no truthy interval handle and does not touch the recorded group
    id; when a handle was held, it is set to [null] and its timer is
    cancelled; a second call in a row changes nothing. *)
Theorem stopChatPolling_idempotent w :
  stopChatPolling (stopChatPolling w) = stopChatPolling w /\
  truthy_handle (chatPolling (ui (stopChatPolling w))) = false /\
  currentGroupId (ui (stopChatPolling w)) = currentGroupId (ui w) /\
  match chatPolling (ui w) with
  | Some h =>
      if h =? 0 then stopChatPolling w = w
      else chatPolling (ui (stopChatPolling w)) = None /\
           intervals (browser (stopChatPolling w)) =
             filter (fun t => t.1 ≠ h) (intervals (browser w))
  | None => stopChatPolling w = w
  end.
Proof.
  unfold stopChatPolling.
  destruct (truthy_handle (chatPolling (ui w))) eqn:Htruthy.
  - destruct (chatPolling (ui w)) as [h|] eqn:Hh; [|done]. simpl in Htruthy.
    destruct (h =? 0); [done |]. by simpl.
  - rewrite Htruthy. repeat split.
    destruct (chatPolling (ui w)) as [h|] eqn:Hh; [|done]. simpl in Htruthy.
    by destruct (h =? 0).
Qed.

(** On a reachable state nothing of the loop is left running after
    [stopChatPolling]. *)
Lemma stopChatPolling_reachable fuel w :
  reachable fuel w ->
  chatPolling (ui (stopChatPolling w)) = None /\
  intervals (browser (stopChatPolling w)) = [].
Proof.
  intros Hreach. apply reachable_one_session in Hreach.
  pose proof (stopChatPolling_polling w Hreach) as Hp.
  pose proof (f_equal (fun v => fst (fst v)) Hp) as Hui.
  pose proof (f_equal snd Hp) as Htimers.
  cbn [polling fst snd] in Hui, Htimers. by rewrite Hui, Htimers.
Qed.

(** C8, as the specification states it, fails on the group id: it is still
    the one of the stopped loop. *)
Lemma stopChatPolling_keeps_group_id :
  exists w,
    member_in_group = Some w /\
    chatPolling (ui (stopChatPolling w)) = None /\
    currentGroupId (ui (stopChatPolling w)) = Some "g1" /\
    currentGroupId (ui (stopChatPolling w)) <> None.
Proof.
  exists (default (blank ∅ "") member_in_group).
  repeat (split; [vm_compute; reflexivity |]). vm_compute. discriminate.
Qed.

(** C6 at its failing input.  A member is on the page of group [g1] with the
    loop running and follows a link to the dashboard: the dashboard is
    shown, and the timer refreshing [g1] is still running. *)
Theorem polling_survives_leaving_group :
  exists w w',
    member_in_group = Some w /\
    currentRoute (router w) = Some "/group/g1" /\
    intervals (browser w) = [(1, Some "g1")] /\
    step 4 (ANavigate "/dashboard") w = Some w' /\
    currentRoute (router w') = Some "/dashboard" /\
    last (trace w') = Some (EvRenderPage PDashboard) /\
    intervals (browser w') = [(1, Some "g1")] /\
    chatPolling (ui w') = Some 1.
Proof.
  exists (default (blank ∅ "") member_in_group).
  exists (default (blank ∅ "")
            (member_in_group ≫= step 4 (ANavigate "/dashboard"))).
  repeat (split; [vm_compute; reflexivity |]). vm_compute. reflexivity.
Qed.

End PollingSession.

(** ** The session invariant, login, and the HTTP client *)

Module Session.
Import Routing App Notions Frames AuthFacts.

(** What the auth state does keep.  In every state the application can
    reach, [isAuthenticated] is true exactly when a user is held. *)
Lemma authenticated_iff_user fuel w :
  reachable fuel w ->
  isAuthenticated (auth w) = true <-> is_Some (user (auth w)).
Proof.
  intros (stored & path & actions & H). unbind.
  change (consistent (session w)).
  eapply session_step_consistent; [|by eapply run_session].
  erewrite boot_session by done. apply consistent_signed_out.
Qed.

(** The input of [authenticated_iff_user] exists: the visitor after
    signing in. *)
Lemma authenticated_iff_user_witness :
  exists w,
    signed_in = Some w /\
    (isAuthenticated (auth w) = true <-> is_Some (user (auth w))).
Proof.
  exists (default (blank ∅ "") signed_in).
  split; [vm_compute; reflexivity |].
  apply (authenticated_iff_user 4).
  exists ∅, "/login", [ALogin (auth_answer (Some ana) (Some "tok"))].
  vm_compute. reflexivity.
Defined.

(** C5 at its failing input.  The visitor signs in and the server answers
    with a user and no token.  The state reached is authenticated and holds
    the user, yet no token is held, neither in the client nor in local
    storage, and no request made from it carries an Authorization
    header. *)
Theorem authenticated_without_token :
  exists w,
    signed_in_without_token = Some w /\
    reachable 4 w /\
    isAuthenticated (auth w) = true /\
    user (auth w) = Some ana /\
    token w = None /\
    storage (browser w) !! "auth_token" = None /\
    authorization w = None.
Proof.
  exists (default (blank ∅ "") signed_in_without_token).
  split; [vm_compute; reflexivity |]. split.
  - exists ∅, "/login", [ALogin (auth_answer (Some ana) None)].
    vm_compute. reflexivity.
  - repeat (split; [vm_compute; reflexivity |]). vm_compute. reflexivity.
Qed.

(** C3 at its failing input.  The server answers the login with
    [{success: true, data: {user}}] and no token: [login] returns the
    response instead of failing, the session becomes authenticated, and no
    token is stored. *)
Theorem login_accepts_missing_token :
  exists w w' response,
    visitor_at_login = Some w /\
    login 4 (auth_answer (Some ana) None) w = Some (w', Returned response) /\
    isAuthenticated (auth w') = true /\
    user (auth w') = Some ana /\
    token w' = None /\
    storage (browser w') !! "auth_token" = None.
Proof.
  exists (default (blank ∅ "") visitor_at_login).
  eexists _, _.
  split; [vm_compute; reflexivity |].
  split; [vm_compute; reflexivity |].
  repeat (split; [vm_compute; reflexivity |]). vm_compute. reflexivity.
Qed.

(** What [receive] throws is what [request] throws. *)
Lemma request_throws fuel endpoint fr e w w' r :
  receive fr = Thrown e ->
  request fuel endpoint fr w = Some (w', r) -> r = Thrown e.
Proof.
  intros He. unfold request. rewrite He. intros H. unbind. by injection H as _ <-.
Qed.

(** Errors reported by the server reach the caller of [login] as [request]
    built them. *)
Lemma login_propagates fuel endpoint fr e w w' r :
  receive fr = Thrown e ->
  authenticate fuel endpoint fr w = Some (w', r) -> r = Thrown e.
Proof.
  intros He. unfold authenticate, api_authenticate. intros H. unbind.
  repeat match goal with
  | p : (World * Result Body)%type |- _ => destruct p as [? ?]
  end.
  match goal with
  | Hr : request _ _ _ _ = Some _ |- _ =>
      apply (request_throws _ _ _ _ _ _ _ He) in Hr as ->
  end.
  match goal with
  | Hr : Some (_, Thrown e) = Some _ |- _ => injection Hr as <- <-
  end.
  by injection H as _ <-.
Qed.

(** C9.  When [fetch] rejects, [request] throws the error it was rejected
    with, which carries no status and no data; nothing but the console is
    touched on the way: the token, the stored token and the session stay.
    A caller such as [login] passes the same error on. *)
Theorem network_failure_propagates fuel endpoint message w :
  exists w' e,
    request fuel endpoint (FetchRejected message) w = Some (w', Thrown e) /\
    err_name e = FetchFailure /\
    err_message e = message /\
    err_status e = None /\
    err_data e = None /\
    token w' = token w /\
    browser w' = browser w /\
    auth w' = auth w /\
    trace w' = trace w ++
      [EvFetch endpoint (authorization w); EvConsoleError; EvThrow e] /\
    (exists w'', login fuel (FetchRejected message) w = Some (w'', Thrown e)).
Proof.
  eexists _, _. split; [reflexivity |]. cbn [log token browser auth trace].
  repeat split.
  - by rewrite <- !app_assoc.
  - by eexists.
Qed.

(** C4 at its failing input.  A 401 answer that declares JSON and has an
    unreadable body makes [response.json()] reject; the error caught has no
    status, so the token is kept, in the client and in local storage, the
    auth state is not touched, and no [auth:logout] is dispatched: the trace
    only gains the request, the console entry and the throw. *)
Theorem unauthorized_unreadable_keeps_token fuel endpoint w :
  exists w' e,
    request fuel endpoint unauthorized_empty w = Some (w', Thrown e) /\
    err_status e = None /\
    token w' = token w /\
    browser w' = browser w /\
    auth w' = auth w /\
    trace w' = trace w ++
      [EvFetch endpoint (authorization w); EvConsoleError; EvThrow e].
Proof.
  eexists _, _. split; [reflexivity |]. cbn [log token browser auth trace].
  repeat split. by rewrite <- !app_assoc.
Qed.

(** The same, on the signed-in visitor: still authenticated, token still
    stored. *)
Lemma unauthorized_unreadable_signed_in :
  exists w w' e,
    signed_in = Some w /\
    request 4 "/api/groups" unauthorized_empty w = Some (w', Thrown e) /\
    token w' = Some "tok" /\
    storage (browser w') !! "auth_token" = Some "tok" /\
    isAuthenticated (auth w') = true /\
    (EvDispatch "auth:logout" DNone ∉ trace w').
Proof.
  exists (default (blank ∅ "") signed_in). eexists _, _.
  split; [vm_compute; reflexivity |].
  split; [vm_compute; reflexivity |].
  repeat (split; [vm_compute; reflexivity |]). vm_compute.
  intros H. repeat (apply elem_of_cons in H as [H|H]; [discriminate H |]).
  by apply elem_of_nil in H.
Qed.

End Session.

(** ** First match wins *)

Module Matching.
Import Routing App Notions RoutingFacts RouterFacts.

(** The order of the lookup.  For a route table whose patterns contain no
    regular-expression metacharacter: a path that is a key of the table
    resolves to that entry, with no parameters, whatever the patterns say;
    any other path resolves to the first entry, in declaration order, whose
    pattern matches, and to nothing when none does; the regular expression
    matches exactly when the path is the pieces of the pattern with every
    parameter replaced by one non-empty run of characters without a slash,
    and the parameters are those runs; and the handler [handleRoute] invokes
    is the one of the entry found. *)
Lemma findRoute_first_match (rs : RouteTable) (path : string) :
  Forall (fun e : string * Route => plain_pattern e.1 = true) rs ->
  (forall r, routes_get rs path = Some r -> findRoute rs path = Some (r, ∅)) /\
  (routes_get rs path = None ->
     (forall r ps,
        findRoute rs path = Some (r, ps) <->
        exists pre pat post,
          rs = pre ++ (pat, r) :: post /\ none_match pre path /\
          matchRoute pat path = Some ps) /\
     (findRoute rs path = None <-> none_match rs path)) /\
  (forall pat r,
     (pat, r) ∈ rs ->
     (forall ps,
        matchRoute pat path = Some ps ->
        exists vals,
          matches (tokenize pat) path vals /\
          ps = bind_params (paramNames (tokenize pat)) vals ∅) /\
     (forall vals,
        matches (tokenize pat) path vals -> is_Some (matchRoute pat path))) /\
  (forall fuel w route ps,
     routes (router w) = rs ->
     findRoute rs path = Some (route, ps) ->
     requiresAuth route && negb (isAuthenticated (auth w)) = false ->
     truthy (redirectIfAuth route) && isAuthenticated (auth w) = false ->
     handleRoute (S fuel) path w =
       run_handler (navigate fuel) (handler route) ps
         (log (EvHandler (handler route) ps)
            (with_router {| routes := rs; currentRoute := Some path;
                            currentParams := ps |} w))).
Proof.
  intros _. split; [|split; [|split]].
  - intros r Hget. unfold findRoute. by rewrite Hget.
  - intros Hget. unfold findRoute. rewrite Hget. split.
    + intros r ps. apply firstPattern_Some.
    + apply firstPattern_None.
  - intros pat r _. unfold matchRoute. split.
    + intros ps.
      destruct (match_tokens (tokenize pat) path) as [caps|] eqn:Hm; [|done].
      intros [= <-]. exists caps. split; [|done]. by apply match_tokens_sound.
    + intros vals Hvals. apply match_tokens_complete in Hvals as [caps ->].
      by eexists.
  - intros fuel w route ps Hrs Hfind Hreq Hredirect.
    rewrite handleRoute_unfold, Hrs, Hfind, Hreq, Hredirect. by rewrite <- Hrs.
Qed.

(** The application's table is such a table: the dashboard is found by its
    literal key. *)
Lemma findRoute_first_match_witness :
  Forall (fun e : string * Route => plain_pattern e.1 = true) setupRoutes /\
  findRoute setupRoutes "/dashboard" =
    Some ({| handler := HDashboard; requiresAuth := true;
             redirectIfAuth := None |}, ∅).
Proof.
  assert (Hplain :
    Forall (fun e : string * Route => plain_pattern e.1 = true) setupRoutes).
  { repeat constructor. }
  split; [exact Hplain |].
  apply (proj1 (findRoute_first_match setupRoutes "/dashboard" Hplain)).
  reflexivity.
Defined.

(** The only pattern of the application with a parameter. *)
Example tokenize_group :
  tokenize "/group/:id" =
    [TLit "/"; TLit "g"; TLit "r"; TLit "o"; TLit "u"; TLit "p"; TLit "/";
     TParam "id"].
Proof. reflexivity. Qed.

Example group_page : findRoute setupRoutes "/group/42" =
  Some ({| handler := HGroup; requiresAuth := true; redirectIfAuth := None |},
        {["id" := "42"]}).
Proof. vm_compute. reflexivity. Qed.

(** A parameter does not reach over a slash, and does not match nothing. *)
Example group_page_deeper : findRoute setupRoutes "/group/42/edit" = None.
Proof. reflexivity. Qed.

Example group_page_empty : findRoute setupRoutes "/group/" = None.
Proof. reflexivity. Qed.

(** The literal key is tried before the patterns: the path that spells the
    pattern itself is an exact match and gets no parameters. *)
Example group_page_literal : findRoute setupRoutes "/group/:id" =
  Some ({| handler := HGroup; requiresAuth := true; redirectIfAuth := None |}, ∅).
Proof. reflexivity. Qed.

(** Two parameters in one segment: the first takes as much as it can. *)
Example greedy_parameters :
  match_tokens (tokenize "/:a:b") "/xyz" = Some ["xy"; "z"].
Proof. reflexivity. Qed.

(** A dot of the pattern reaches the regular expression unescaped. *)
Example tokenize_dotted :
  tokenize "/a.b" = [TLit "/"; TLit "a"; TAny; TLit "b"].
Proof. reflexivity. Qed.


End Matching.

(** ** What a route change can add to the trace *)

Module Traces.
Import Routing App Notions Frames RouterFacts.

Lemma extends_refl Q w : extends Q w w.
Proof. exists []. by rewrite app_nil_r. Qed.

Lemma extends_trans Q w1 w2 w3 :
  extends Q w1 w2 -> extends Q w2 w3 -> extends Q w1 w3.
Proof.
  intros (e1 & H1 & Q1) (e2 & H2 & Q2). exists (e1 ++ e2).
  split; [by rewrite H2, H1, app_assoc | by apply Forall_app].
Qed.

Lemma extends_log (Q : Event -> Prop) e w : Q e -> extends Q w (log e w).
Proof. intros He. exists [e]. split; [done | by constructor]. Qed.

Lemma extends_event (Q : Event -> Prop) e w w' :
  trace w' = trace w ++ [e] -> Q e -> extends Q w w'.
Proof. intros H He. exists [e]. split; [done | by constructor]. Qed.

Lemma extends_same Q w w' : trace w' = trace w -> extends Q w w'.
Proof. intros H. exists []. by rewrite app_nil_r. Qed.

Lemma extends_weaken (Q Q' : Event -> Prop) w w' :
  (forall e, Q e -> Q' e) -> extends Q w w' -> extends Q' w w'.
Proof.
  intros HQ (evs & H & Hevs). exists evs. split; [done |].
  eapply Forall_impl; eauto.
Qed.

Lemma routes_handleRoute fuel path w w' :
  handleRoute fuel path w = Some w' -> routes (router w') = routes (router w).
Proof. by apply (handleRoute_frame (fun w => routes (router w))). Qed.

Lemma auth_handleRoute fuel path w w' :
  handleRoute fuel path w = Some w' ->
  isAuthenticated (auth w') = isAuthenticated (auth w).
Proof. by apply (handleRoute_frame (fun w => isAuthenticated (auth w))). Qed.

(** While the session is anonymous, resolving any path, on any route table,
    invokes only handlers of routes that do not require authentication. *)
Lemma handleRoute_anonymous_open fuel path w w' :
  isAuthenticated (auth w) = false ->
  handleRoute fuel path w = Some w' ->
  extends (open_handler (routes (router w))) w w'.
Proof.
  revert path w w'. induction fuel as [|fuel IH]; intros path w w' Hanon; [done |].
  assert (Hnav : forall target replace w1,
    isAuthenticated (auth w1) = false -> routes (router w1) = routes (router w) ->
    navigate fuel target replace w1 = Some w' ->
    extends (open_handler (routes (router w))) w1 w').
  { intros target replace w1 Hanon1 Hrs1. unfold navigate, navigate_with.
    destruct (decide _); [intros [= <-]; apply extends_refl |].
    destruct replace; intros H; apply IH in H; try done.
    - change (routes (router (replaceState target w1)))
        with (routes (router w1)) in H. rewrite Hrs1 in H.
      eapply extends_trans; [|exact H].
      by apply (extends_event _ (EvReplaceState target)).
    - change (routes (router (pushState target w1)))
        with (routes (router w1)) in H. rewrite Hrs1 in H.
      eapply extends_trans; [|exact H].
      by apply (extends_event _ (EvPushState target)). }
  rewrite handleRoute_unfold.
  destruct (findRoute (routes (router w)) path) as [[route params]|] eqn:Hfind.
  - rewrite Hanon, andb_false_r. cbn [negb]. rewrite andb_true_r.
    destruct (requiresAuth route) eqn:Hreq; [by apply Hnav |].
    assert (extends (open_handler (routes (router w))) w
              (log (EvHandler (handler route) params)
                 (with_router {| routes := routes (router w);
                                 currentRoute := Some path;
                                 currentParams := params |} w))) as Hinvoke.
    { exists [EvHandler (handler route) params]. split; [done |].
      constructor; [|done]. by exists path, route. }
    destruct (handler route); cbn [run_handler].
    + intros H. eapply extends_trans; [exact Hinvoke |]. by eapply Hnav.
    + intros [= <-]. eapply extends_trans; [exact Hinvoke |]. by apply extends_log.
    + intros [= <-]. eapply extends_trans; [exact Hinvoke |]. by apply extends_log.
    + intros [= <-]. eapply extends_trans; [exact Hinvoke |]. by apply extends_log.
    + intros [= <-]. eapply extends_trans; [exact Hinvoke |]. by apply extends_log.
  - intros [= <-]. by apply extends_log.
Qed.

(** A route change only appends to the trace. *)
Lemma handleRoute_extends fuel path w w' :
  handleRoute fuel path w = Some w' -> extends (fun _ => True) w w'.
Proof.
  revert path w w'. induction fuel as [|fuel IH]; intros path w w'; [done |].
  assert (Hnav : forall target replace w1,
    navigate fuel target replace w1 = Some w' -> extends (fun _ => True) w1 w').
  { intros target replace w1. unfold navigate, navigate_with.
    destruct (decide _); [intros [= <-]; apply extends_refl |].
    intros H. apply IH in H. eapply extends_trans; [|exact H].
    destruct replace;
      [by apply (extends_event _ (EvReplaceState target))
      |by apply (extends_event _ (EvPushState target))]. }
  rewrite handleRoute_unfold.
  destruct (findRoute (routes (router w)) path) as [[route params]|].
  - destruct (_ && _); [by apply Hnav |]. destruct (_ && _); [by apply Hnav |].
    assert (extends (fun _ => True) w
              (log (EvHandler (handler route) params)
                 (with_router {| routes := routes (router w);
                                 currentRoute := Some path;
                                 currentParams := params |} w))) as Hinvoke.
    { exists [EvHandler (handler route) params]. split; [done | by constructor]. }
    destruct (handler route); cbn [run_handler].
    + intros H. eapply extends_trans; [exact Hinvoke |]. by eapply Hnav.
    + intros [= <-]. eapply extends_trans; [exact Hinvoke |]. by apply extends_log.
    + intros [= <-]. eapply extends_trans; [exact Hinvoke |]. by apply extends_log.
    + intros [= <-]. eapply extends_trans; [exact Hinvoke |]. by apply extends_log.
    + intros [= <-]. eapply extends_trans; [exact Hinvoke |]. by apply extends_log.
  - intros [= <-]. by apply extends_log.
Qed.

Lemma navigate_extends fuel path replace w w' :
  navigate fuel path replace w = Some w' -> extends (fun _ => True) w w'.
Proof.
  unfold navigate, navigate_with. destruct (decide _); [intros [= <-]; apply extends_refl |].
  intros H. apply handleRoute_extends in H. eapply extends_trans; [|exact H].
  destruct replace;
    [by apply (extends_event _ (EvReplaceState path))
    |by apply (extends_event _ (EvPushState path))].
Qed.

Lemma notifyListeners_extends fuel w w' :
  notifyListeners fuel w = Some w' -> extends (fun _ => True) w w'.
Proof.
  unfold notifyListeners. generalize (listeners (auth w)) as ls. intros ls.
  revert w. induction ls as [|l ls IH]; intros w; simpl.
  - intros [= <-]. apply extends_refl.
  - intros H. unbind. eapply extends_trans; [|by apply IH].
    revert Hw0. unfold call_listener. destruct (isLoading _).
    { intros [= <-]. apply extends_refl. }
    destruct l.
    + unfold handleAuthStateChange.
      destruct (findRoute _ _) as [[route params]|];
        [|intros [= <-]; apply extends_refl].
      destruct (_ && _); [apply navigate_extends |].
      destruct (_ && _); [apply navigate_extends |].
      intros [= <-]. apply extends_refl.
    + intros H0. apply handleRoute_extends in H0.
      eapply extends_trans; [|exact H0]. by apply extends_same.
Qed.

End Traces.

(** ** The application's routes always resolve *)

Module Termination.
Import Routing App Notions Frames RouterFacts Traces AuthFacts.

Lemma navigate_login_total fuel replace w :
  routes (router w) = setupRoutes -> isAuthenticated (auth w) = false ->
  is_Some (navigate (S fuel) "/login" replace w).
Proof.
  intros Hrs Hanon. unfold navigate, navigate_with.
  destruct (decide _); [by eexists |].
  rewrite handleRoute_login_anonymous; [by eexists | by destruct replace..].
Qed.

Lemma navigate_dashboard_total fuel replace w :
  routes (router w) = setupRoutes -> isAuthenticated (auth w) = true ->
  is_Some (navigate (S fuel) "/dashboard" replace w).
Proof.
  intros Hrs Hauth. unfold navigate, navigate_with.
  destruct (decide _); [by eexists |].
  rewrite handleRoute_dashboard_authenticated; [by eexists | by destruct replace..].
Qed.

(** Every entry of the application's table, spelled out. *)
Lemma setupRoutes_cases pat r :
  (pat, r) ∈ setupRoutes ->
  r = {| handler := HRedirectDefault; requiresAuth := false; redirectIfAuth := None |} \/
  r = {| handler := HLogin; requiresAuth := false; redirectIfAuth := Some "/dashboard" |} \/
  r = {| handler := HRegister; requiresAuth := false; redirectIfAuth := Some "/dashboard" |} \/
  r = {| handler := HDashboard; requiresAuth := true; redirectIfAuth := None |} \/
  r = {| handler := HGroup; requiresAuth := true; redirectIfAuth := None |}.
Proof.
  intros Hin. vm_compute in Hin.
  repeat (apply elem_of_cons in Hin as [[= -> ->]|Hin]; [by auto 6 |]).
  by apply elem_of_nil in Hin.
Qed.

(** Two levels of recursion are enough on the application's table. *)
Lemma handleRoute_total fuel path w :
  routes (router w) = setupRoutes ->
  is_Some (handleRoute (S (S fuel)) path w).
Proof.
  intros Hrs. rewrite handleRoute_unfold, Hrs.
  destruct (findRoute setupRoutes path) as [[route ps]|] eqn:Hfind; [|by eexists].
  destruct (findRoute_elem _ _ _ _ Hfind) as [pat Hin].
  destruct (isAuthenticated (auth w)) eqn:Hauth;
    destruct (setupRoutes_cases pat route Hin) as [->|[->|[->|[->| ->]]]];
    cbn [requiresAuth redirectIfAuth handler truthy andb negb run_handler default];
    try (by eexists);
    try (by apply navigate_dashboard_total);
    try (by apply navigate_login_total).
  - unfold defaultRoute. cbn [log with_router auth]. rewrite Hauth.
    by apply navigate_dashboard_total.
  - unfold defaultRoute. cbn [log with_router auth]. rewrite Hauth.
    by apply navigate_login_total.
Qed.

Lemma handleAuthStateChange_total fuel w :
  routes (router w) = setupRoutes ->
  is_Some (handleAuthStateChange (S fuel) (isAuthenticated (auth w)) w).
Proof.
  intros Hrs. unfold handleAuthStateChange. rewrite Hrs.
  destruct (findRoute setupRoutes _) as [[route ps]|] eqn:Hfind; [|by eexists].
  destruct (findRoute_elem _ _ _ _ Hfind) as [pat Hin].
  destruct (isAuthenticated (auth w)) eqn:Hauth;
    destruct (setupRoutes_cases pat route Hin) as [->|[->|[->|[->| ->]]]];
    cbn [requiresAuth redirectIfAuth handler truthy andb negb default];
    try (by eexists);
    try (by apply navigate_dashboard_total);
    try (by apply navigate_login_total).
Qed.

Lemma routes_handleRoute_init fuel path w w' :
  handleRoute fuel path w = Some w' -> routes (router w) = setupRoutes ->
  routes (router w') = setupRoutes.
Proof.
  intros H Hrs. by apply (handleRoute_frame (fun w => routes (router w))) in H as ->.
Qed.

Lemma routes_call_listener fuel l w w' :
  call_listener fuel l w = Some w' -> routes (router w') = routes (router w).
Proof. by apply (call_listener_frame (fun w => routes (router w))). Qed.

Lemma notify_each_total fuel ls w :
  routes (router w) = setupRoutes ->
  is_Some (notify_each (S (S fuel)) ls w).
Proof.
  revert w. induction ls as [|l ls IH]; intros w Hrs; simpl; [by eexists |].
  assert (is_Some (call_listener (S (S fuel)) l w)) as [w1 Hw1].
  { unfold call_listener. destruct (isLoading _); [by eexists |].
    destruct l; [by apply handleAuthStateChange_total | by apply handleRoute_total]. }
  rewrite Hw1. simpl. apply IH.
  apply routes_call_listener in Hw1. congruence.
Qed.

Lemma notifyListeners_total fuel w :
  routes (router w) = setupRoutes ->
  is_Some (notifyListeners (S (S fuel)) w).
Proof. apply notify_each_total. Qed.

Lemma routes_setToken t w : routes (router (setToken t w)) = routes (router w).
Proof. unfold setToken. destruct t as [s|]; [destruct (truthy _) |]; done. Qed.

Lemma clearAuth_total fuel w :
  routes (router w) = setupRoutes -> is_Some (clearAuth (S (S fuel)) w).
Proof. intros Hrs. apply notifyListeners_total. by rewrite routes_setToken. Qed.

Lemma setUser_total fuel u w :
  routes (router w) = setupRoutes -> is_Some (setUser (S (S fuel)) u w).
Proof. intros Hrs. by apply notifyListeners_total. Qed.

(** What the listeners do leaves the token, held and stored, alone. *)
Lemma token_notifyListeners fuel w w' :
  notifyListeners fuel w = Some w' ->
  token w' = token w /\ storage (browser w') = storage (browser w).
Proof.
  intros H. split.
  - by apply (notifyListeners_frame token) in H.
  - by apply (notifyListeners_frame (fun w => storage (browser w))) in H.
Qed.

End Termination.

(** ** The parts of the login and 401 contracts that hold *)

Module Contracts.
Import Routing App Notions Frames RouterFacts Traces AuthFacts Termination.

Lemma receive_unauthorized r :
  status r = 401%Z -> readable r ->
  exists e, receive (FetchResponse r) = Thrown e /\ err_status e = Some 401%Z.
Proof.
  intros Hstatus Hread. unfold receive, response_ok. rewrite Hstatus. simpl.
  destruct (isJson r) eqn:Hjson.
  - destruct (Hread Hjson) as [j ->]. by eexists.
  - by eexists.
Qed.

(** A 401 answer whose body can be read: the token is cleared in the client
    and in local storage, [auth:logout] is dispatched and the session is
    anonymous, all of it before [request] logs and throws. *)
Lemma unauthorized_clears_session fuel endpoint r w :
  routes (router w) = setupRoutes -> status r = 401%Z -> readable r ->
  exists w' e mid,
    request (S (S fuel)) endpoint (FetchResponse r) w = Some (w', Thrown e) /\
    err_status e = Some 401%Z /\
    token w' = None /\
    storage (browser w') !! "auth_token" = None /\
    session w' = (None, false) /\
    trace w' = trace w ++
      [EvFetch endpoint (authorization w); EvDispatch "auth:logout" DNone] ++
      mid ++ [EvConsoleError; EvThrow e].
Proof.
  intros Hrs Hstatus Hread.
  destruct (receive_unauthorized r Hstatus Hread) as (e & He & H401).
  unfold request. rewrite He. rewrite decide_True by done.
  unfold dispatch_auth_logout.
  set (w0 := log (EvDispatch "auth:logout" DNone)
               (setToken None (log (EvFetch endpoint (authorization w)) w))).
  destruct (clearAuth_total fuel w0) as [w1 Hw1].
  { unfold w0. cbn [log router]. by rewrite routes_setToken. }
  rewrite Hw1. simpl.
  pose proof (session_clearAuth _ _ _ Hw1) as Hsession.
  unfold clearAuth in Hw1.
  destruct (token_notifyListeners _ _ _ Hw1) as [Htoken Hstorage].
  apply notifyListeners_extends in Hw1 as (mid & Htrace & _).
  exists (log (EvThrow e) (log EvConsoleError w1)), e, mid.
  split; [done |]. split; [done |]. cbn [log token browser].
  split; [by rewrite Htoken |].
  split; [rewrite Hstorage; simpl; apply lookup_delete_eq |].
  split; [done |].
  simpl. rewrite Htrace. simpl. by rewrite <- !app_assoc.
Qed.

Lemma receive_auth_answer u t :
  receive (auth_answer u t) =
    Returned (BJson {| success := true;
                       data := Some {| p_user := u; p_token := t |};
                       error_message := None |}).
Proof. reflexivity. Qed.

(** A success answer with user and token: the token is stored and the
    session is authenticated. *)
Lemma login_stores_token fuel endpoint u t w :
  routes (router w) = setupRoutes -> truthy (Some t) = true ->
  exists w' response,
    authenticate (S (S fuel)) endpoint (auth_answer (Some u) (Some t)) w =
      Some (w', Returned response) /\
    token w' = Some t /\
    storage (browser w') !! "auth_token" = Some t /\
    session w' = (Some u, true).
Proof.
  intros Hrs Ht. unfold authenticate, api_authenticate, request.
  rewrite receive_auth_answer.
  cbn [mbind option_bind success_data success data p_token p_user].
  rewrite Ht. cbn [mbind option_bind success_data success data p_token p_user].
  set (w0 := setToken (Some t) (log (EvFetch endpoint (authorization w)) w)).
  destruct (setUser_total fuel u w0) as [w1 Hw1].
  { unfold w0. by rewrite routes_setToken. }
  rewrite Hw1. cbn [mbind option_bind].
  pose proof (session_setUser _ _ _ _ Hw1) as Hsession.
  unfold setUser in Hw1.
  destruct (token_notifyListeners _ _ _ Hw1) as [Htoken Hstorage].
  eexists _, _. split; [done |]. unfold dispatch_toast. cbn [log token browser].
  split; [rewrite Htoken; unfold w0, setToken; by rewrite Ht |].
  split; [|done].
  rewrite Hstorage. unfold w0, setToken. rewrite Ht. simpl.
  apply lookup_insert_eq.
Qed.

(** A success answer with a user and no token: [login] returns, the session
    is authenticated, and the token is whatever it was before. *)
Lemma login_without_token fuel endpoint u w :
  routes (router w) = setupRoutes ->
  exists w' response,
    authenticate (S (S fuel)) endpoint (auth_answer (Some u) None) w =
      Some (w', Returned response) /\
    token w' = token w /\
    storage (browser w') = storage (browser w) /\
    session w' = (Some u, true).
Proof.
  intros Hrs. unfold authenticate, api_authenticate, request.
  rewrite receive_auth_answer.
  cbn [mbind option_bind success_data success data p_token p_user truthy].
  set (w0 := log (EvFetch endpoint (authorization w)) w).
  destruct (setUser_total fuel u w0) as [w1 Hw1]; [done |].
  rewrite Hw1. cbn [mbind option_bind].
  pose proof (session_setUser _ _ _ _ Hw1) as Hsession.
  unfold setUser in Hw1.
  destruct (token_notifyListeners _ _ _ Hw1) as [Htoken Hstorage].
  eexists _, _. split; [done |]. unfold dispatch_toast. cbn [log token browser].
  by rewrite Htoken, Hstorage.
Qed.

(** A success answer without a user: [login] throws the invalid-response
    error, after showing it. *)
Lemma login_missing_user fuel endpoint t w :
  exists w',
    authenticate fuel endpoint (auth_answer None t) w =
      Some (w', Thrown invalid_response).
Proof.
  unfold authenticate, api_authenticate, request.
  rewrite receive_auth_answer.
  cbn [mbind option_bind success_data success data p_token p_user].
  destruct (truthy t);
    cbn [mbind option_bind success_data success data p_token p_user];
    by eexists.
Qed.

End Contracts.

(** ** Every action runs to completion *)

Module Progress.
Import Routing App Notions Frames RouterFacts Termination.

(** The route table, which nothing changes after start-up. *)
Lemma table_log e w : routes (router (log e w)) = routes (router w).
Proof. done. Qed.
Lemma table_route cr cp w :
  routes (router (with_router {| routes := routes (router w); currentRoute := cr;
                                 currentParams := cp |} w)) = routes (router w).
Proof. done. Qed.
Lemma table_pathname p w :
  routes (router (with_browser (with_pathname p (browser w)) w)) = routes (router w).
Proof. done. Qed.
Lemma table_auth a w : routes (router (with_auth a w)) = routes (router w).
Proof. done. Qed.
Lemma table_token t w : routes (router (with_token t w)) = routes (router w).
Proof. done. Qed.

Create HintDb table.
#[local] Hint Resolve table_log table_route table_pathname table_auth
  table_token routes_setToken : table.

Lemma routes_clearAuth fuel w w' :
  clearAuth fuel w = Some w' -> routes (router w') = routes (router w).
Proof.
  intros H. by apply (clearAuth_frame (fun w => routes (router w))) in H;
    auto with table.
Qed.

Lemma routes_request fuel endpoint fr w w' r :
  request fuel endpoint fr w = Some (w', r) ->
  routes (router w') = routes (router w).
Proof.
  intros H. by apply (request_frame (fun w => routes (router w))) in H;
    auto with table.
Qed.

Lemma bind_total {A B} (m : option A) (f : A -> option B) :
  is_Some m -> (forall x, m = Some x -> is_Some (f x)) -> is_Some (m ≫= f).
Proof. intros [x ->] Hf. simpl. by apply Hf. Qed.

Lemma navigate_total fuel path replace w :
  routes (router w) = setupRoutes ->
  is_Some (navigate (S (S fuel)) path replace w).
Proof.
  intros Hrs. unfold navigate, navigate_with. destruct (decide _); [by eexists |].
  apply handleRoute_total. by destruct replace.
Qed.

Lemma finish_loading_total fuel w :
  routes (router w) = setupRoutes -> is_Some (finish_loading (S (S fuel)) w).
Proof. intros Hrs. by apply notifyListeners_total. Qed.

Lemma request_total fuel endpoint fr w :
  routes (router w) = setupRoutes ->
  is_Some (request (S (S fuel)) endpoint fr w).
Proof.
  intros Hrs. unfold request. destruct (receive fr) as [d|e]; [by eexists |].
  apply bind_total; [|by eexists]. destruct (decide _); [|by eexists].
  apply clearAuth_total. cbn [log router]. by rewrite routes_setToken.
Qed.

Lemma authenticate_total fuel endpoint fr w :
  routes (router w) = setupRoutes ->
  is_Some (authenticate (S (S fuel)) endpoint fr w).
Proof.
  intros Hrs. unfold authenticate.
  apply bind_total.
  - unfold api_authenticate. apply bind_total; [by apply request_total |].
    intros [w1 [response|e]] _; [|by eexists].
    destruct (success_data response) as [[p|]|e]; try by eexists.
    destruct (truthy (p_token p)); by eexists.
  - intros [w1 res] Hw1.
    apply (api_authenticate_frame (fun w => routes (router w))) in Hw1;
      auto with table.
    destruct res as [response|e]; [|by eexists].
    destruct (success_data response) as [[[[u|] t]|]|e]; try by eexists.
    apply bind_total; [|by eexists]. apply setUser_total. congruence.
Qed.

Lemma logout_total fuel w :
  routes (router w) = setupRoutes -> is_Some (logout (S (S fuel)) w).
Proof.
  intros Hrs. unfold logout, api_logout, dispatch_navigate.
  apply bind_total.
  { apply clearAuth_total. cbn [log router]. by rewrite routes_setToken. }
  intros w1 Hw1.
  apply (dispatch_auth_logout_frame (fun w => routes (router w))) in Hw1;
    auto with table.
  rewrite routes_setToken in Hw1.
  apply bind_total; [apply clearAuth_total; congruence |].
  intros w2 Hw2.
  apply (clearAuth_frame (fun w => routes (router w))) in Hw2; auto with table.
  apply navigate_total. unfold dispatch_toast. cbn [log router]. congruence.
Qed.

Lemma validateToken_total fuel fr w :
  routes (router w) = setupRoutes -> is_Some (validateToken (S (S fuel)) fr w).
Proof.
  intros Hrs. unfold validateToken.
  apply bind_total; [by apply request_total |].
  intros [w1 res] Hw1.
  apply (request_frame (fun w => routes (router w))) in Hw1; auto with table.
  assert (routes (router w1) = setupRoutes) as Hrs1 by congruence.
  assert (Hclear : is_Some (w2 ← clearAuth (S (S fuel)) w1;
                            finish_loading (S (S fuel)) w2)).
  { apply bind_total; [by apply clearAuth_total |]. intros w2 Hw2.
    apply (clearAuth_frame (fun w => routes (router w))) in Hw2; auto with table.
    apply finish_loading_total. congruence. }
  destruct (match res with
            | Returned response => success_data response
            | Thrown e => Thrown e
            end) as [[[[u|] t]|]|e]; try exact Hclear.
  - apply bind_total; [by apply setUser_total |]. intros w2 Hw2.
    apply (setUser_frame (fun w => routes (router w))) in Hw2; auto with table.
    apply finish_loading_total. congruence.
  - apply bind_total; [by apply clearAuth_total |]. intros w2 Hw2.
    apply (clearAuth_frame (fun w => routes (router w))) in Hw2; auto with table.
    apply bind_total; [apply finish_loading_total; congruence |]. intros w3 Hw3.
    apply (finish_loading_frame (fun w => routes (router w))) in Hw3;
      auto with table.
    apply clearAuth_total. cbn [log router]. congruence.
Qed.

(** From a state whose router holds the application's table, every action
    completes, and the table is still there afterwards. *)
Lemma step_total fuel a w :
  routes (router w) = setupRoutes ->
  exists w', step (S (S fuel)) a w = Some w' /\ routes (router w') = setupRoutes.
Proof.
  intros Hrs.
  assert (is_Some (step (S (S fuel)) a w)) as [w' Hw'].
  { destruct a; cbn [step].
    - by apply validateToken_total.
    - unfold submit. apply bind_total; [by apply authenticate_total |].
      intros [w1 [b|e]] Hw1; [|by eexists]. apply navigate_total.
      apply (authenticate_frame (fun w => routes (router w))) in Hw1;
        auto with table. congruence.
    - unfold submit. apply bind_total; [by apply authenticate_total |].
      intros [w1 [b|e]] Hw1; [|by eexists]. apply navigate_total.
      apply (authenticate_frame (fun w => routes (router w))) in Hw1;
        auto with table. congruence.
    - by apply logout_total.
    - destruct (request_total fuel endpoint fr w Hrs) as [x ->]. by eexists.
    - by apply navigate_total.
    - by apply handleRoute_total.
    - by eexists. }
  exists w'. split; [done |].
  assert (Hother : (forall g found, a <> AGroupLoaded g found) ->
                   routes (router w') = setupRoutes).
  { intros Ha.
    erewrite (step_frame (fun w => routes (router w))); eauto with table. }
  destruct a; try (by apply Hother).
  injection Hw' as <-. unfold renderGroup_loaded.
  destruct found; [|done]. unfold startChatPolling, stopChatPolling.
  by destruct (truthy_handle _).
Qed.

Lemma boot_total fuel stored path :
  exists w,
    boot (S (S fuel)) stored path = Some w /\ routes (router w) = setupRoutes.
Proof.
  unfold boot, auth_init.
  assert (is_Some (if truthy (stored !! "auth_token")
                   then Some (setToken (stored !! "auth_token")
                                (with_token (stored !! "auth_token")
                                   (blank stored path)))
                   else finish_loading (S (S fuel))
                          (with_token (stored !! "auth_token")
                             (blank stored path)))) as [w0 Hw0].
  { destruct (truthy _); [by eexists |]. unfold finish_loading, notifyListeners.
    by eexists. }
  cbn [blank browser storage]. rewrite Hw0. cbn [mbind option_bind].
  unfold router_init. cbn [addListener with_router auth router isLoading with_auth].
  destruct (isLoading (auth w0)); [by eexists |].
  match goal with
  | |- exists w, handleRoute _ ?p ?w1 = Some w /\ _ =>
      destruct (handleRoute_total fuel p w1) as [w Hw]; [done |];
      exists w; split; [done |];
      by apply (routes_handleRoute_init _ _ _ _ Hw)
  end.
Qed.

Lemma run_total fuel actions w :
  routes (router w) = setupRoutes ->
  is_Some (run (S (S fuel)) actions w).
Proof.
  revert w. induction actions as [|a rest IH]; intros w Hrs; simpl; [by eexists |].
  destruct (step_total fuel a w Hrs) as (w' & -> & Hrs'). simpl. by apply IH.
Qed.

(** Whatever is stored, wherever the visitor lands and whatever happens
    next, the application ends up in some state. *)
Lemma every_run_reaches fuel stored path actions :
  exists w, reachable (S (S fuel)) w /\
            (w0 ← boot (S (S fuel)) stored path; run (S (S fuel)) actions w0) = Some w.
Proof.
  destruct (boot_total fuel stored path) as (w0 & Hboot & Hrs).
  destruct (run_total fuel actions w0 Hrs) as [w Hw].
  exists w. rewrite Hboot. simpl. split; [|done].
  exists stored, path, actions. by rewrite Hboot.
Qed.

End Progress.

(** ** Which paths the application resolves *)

Module Resolution.
Import Routing App Notions Helpers RoutingFacts RouterFacts.

Lemma strip_prefix_Some p s rest :
  strip_prefix p s = Some rest <-> s = p +:+ rest.
Proof.
  revert s. induction p as [|c p IH]; intros s; simpl.
  - rewrite app_nil_l. split; [by intros [= ->] | by intros ->].
  - rewrite app_cons. destruct s as [|d s]; [done |].
    destruct (Ascii.eqb_spec c d) as [->|Hne].
    + rewrite IH. split; [by intros -> | by intros [= ->]].
    + split; [done | intros [= ? _]; done].
Qed.

(** Literal tokens consume exactly their characters. *)
Lemma match_lits p ts s :
  match_tokens (lits p ++ ts) s =
    match strip_prefix p s with
    | Some rest => match_tokens ts rest
    | None => None
    end.
Proof.
  revert s. induction p as [|c p IH]; intros s; [done |].
  simpl. destruct s as [|d s]; [done |].
  destruct (Ascii.eqb c d); [apply IH | done].
Qed.

(** A parameter at the end of a pattern takes the whole rest, which must be
    one segment. *)
Lemma greedy_end pre s :
  no_slash pre = true ->
  greedy (match_tokens []) pre s =
    if is_segment (pre +:+ s) then Some [pre +:+ s] else None.
Proof.
  revert pre. induction s as [|c s IH]; intros pre Hpre.
  - rewrite app_nil_r. unfold is_segment. rewrite Hpre, andb_true_r. simpl.
    by destruct (String.eqb pre "").
  - cbn [greedy]. destruct (Ascii.eqb c slash) eqn:Hc.
    + unfold is_segment. rewrite no_slash_app. simpl. rewrite Hc. simpl.
      rewrite !andb_false_r. cbn [match_tokens]. simpl.
      by destruct (String.eqb pre "").
    + rewrite IH by (rewrite no_slash_app, Hpre; simpl; by rewrite Hc).
      rewrite snoc_app.
      destruct (is_segment (pre +:+ String c s)) eqn:Hseg; [done |].
      cbn [match_tokens]. simpl. by destruct (String.eqb pre "").
Qed.

Lemma match_group_pattern path :
  matchRoute "/group/:id" path =
    match strip_prefix "/group/" path with
    | Some g => if is_segment g then Some {["id" := g]} else None
    | None => None
    end.
Proof.
  unfold matchRoute.
  change (tokenize "/group/:id") with (lits "/group/" ++ [TParam "id"]).
  rewrite match_lits. destruct (strip_prefix "/group/" path) as [g|]; [|done].
  cbn [match_tokens]. rewrite greedy_end by done. rewrite app_nil_l.
  by destruct (is_segment g).
Qed.

Lemma match_lits_only p s :
  match_tokens (lits p) s = if String.eqb p s then Some [] else None.
Proof.
  rewrite <- (List.app_nil_r (lits p)), match_lits.
  destruct (String.eqb_spec p s) as [<-|Hne].
  - by rewrite (proj2 (strip_prefix_Some p p ""))
      by (by rewrite RoutingFacts.app_nil_r).
  - destruct (strip_prefix p s) as [rest|] eqn:Hrest; [|done].
    apply strip_prefix_Some in Hrest. cbn [match_tokens].
    destruct (String.eqb_spec rest "") as [->|_]; [|done].
    rewrite RoutingFacts.app_nil_r in Hrest. by subst.
Qed.

(** A pattern without parameters matches its own spelling only. *)
Lemma match_literal_pattern p path :
  tokenize p = lits p ->
  matchRoute p path = if String.eqb p path then Some ∅ else None.
Proof.
  intros Htok. unfold matchRoute. rewrite Htok, match_lits_only.
  destruct (String.eqb p path); [|done]. by destruct (paramNames (lits p)).
Qed.

(** [findRoute] on the application's table, in closed form. *)
Lemma findRoute_setupRoutes path :
  findRoute setupRoutes path =
    match routes_get setupRoutes path with
    | Some route => Some (route, ∅)
    | None =>
        match strip_prefix "/group/" path with
        | Some g =>
            if is_segment g
            then Some ({| handler := HGroup; requiresAuth := true;
                          redirectIfAuth := None |}, {["id" := g]})
            else None
        | None => None
        end
    end.
Proof.
  unfold findRoute. destruct (routes_get setupRoutes path) as [r|] eqn:Hget; [done |].
  change setupRoutes with
    [("/", {| handler := HRedirectDefault; requiresAuth := false;
              redirectIfAuth := None |});
     ("/login", {| handler := HLogin; requiresAuth := false;
                   redirectIfAuth := Some "/dashboard" |});
     ("/register", {| handler := HRegister; requiresAuth := false;
                      redirectIfAuth := Some "/dashboard" |});
     ("/dashboard", {| handler := HDashboard; requiresAuth := true;
                       redirectIfAuth := None |});
     ("/group/:id", {| handler := HGroup; requiresAuth := true;
                       redirectIfAuth := None |})] in *.
  cbn [routes_get] in Hget. cbn [firstPattern].
  rewrite !match_literal_pattern by reflexivity.
  repeat match type of Hget with
  | (if String.eqb ?k path then _ else _) = None =>
      destruct (String.eqb k path); [discriminate Hget |]
  end.
  rewrite match_group_pattern.
  destruct (strip_prefix "/group/" path) as [g|]; [|done].
  by destruct (is_segment g).
Qed.

(** The application resolves four literal paths and the group pages, and
    nothing else: a path is not found exactly when it is none of [/],
    [/login], [/register], [/dashboard] and is not [/group/] followed by one
    non-empty segment without a slash; and the page of a group binds [id] to
    that segment (the path [/group/:id] itself is a literal key and binds
    nothing). *)
Theorem application_routes path :
  (findRoute setupRoutes path = None <->
     (path ∉ ["/"; "/login"; "/register"; "/dashboard"]) /\
     forall g, is_segment g = true -> path <> "/group/" +:+ g) /\
  (forall g,
     is_segment g = true ->
     findRoute setupRoutes ("/group/" +:+ g) =
       Some ({| handler := HGroup; requiresAuth := true; redirectIfAuth := None |},
             if String.eqb g ":id" then ∅ else {["id" := g]})).
Proof.
  split.
  - rewrite findRoute_setupRoutes. split.
    + intros Hnone. split.
      * intros Hin.
        repeat (apply elem_of_cons in Hin as [->|Hin]; [discriminate Hnone |]).
        by apply elem_of_nil in Hin.
      * intros g Hseg ->.
        destruct (routes_get setupRoutes ("/group/" +:+ g)); [done |].
        rewrite (proj2 (strip_prefix_Some "/group/" _ g) eq_refl), Hseg in Hnone.
        done.
    + intros [Hlit Hgroup].
      destruct (routes_get setupRoutes path) as [r|] eqn:Hget.
      * apply routes_get_elem in Hget. vm_compute in Hget.
        apply elem_of_cons in Hget as [[= -> _]|Hget];
          [destruct Hlit; set_solver |].
        apply elem_of_cons in Hget as [[= -> _]|Hget];
          [destruct Hlit; set_solver |].
        apply elem_of_cons in Hget as [[= -> _]|Hget];
          [destruct Hlit; set_solver |].
        apply elem_of_cons in Hget as [[= -> _]|Hget];
          [destruct Hlit; set_solver |].
        apply elem_of_cons in Hget as [[= -> _]|Hget];
          [by destruct (Hgroup ":id") |].
        by apply elem_of_nil in Hget.
      * destruct (strip_prefix "/group/" path) as [g|] eqn:Hg; [|done].
        destruct (is_segment g) eqn:Hseg; [|done].
        apply strip_prefix_Some in Hg. by destruct (Hgroup g).
  - intros g Hseg. rewrite findRoute_setupRoutes.
    rewrite (proj2 (strip_prefix_Some "/group/" _ g) eq_refl), Hseg.
    change (routes_get setupRoutes ("/group/" +:+ g))
      with (if String.eqb ":id" g
            then Some {| handler := HGroup; requiresAuth := true;
                         redirectIfAuth := None |}
            else None).
    rewrite (String.eqb_sym ":id" g). by destruct (String.eqb g ":id").
Qed.

End Resolution.

(** ** Redirects that follow the auth state *)

Module Flows.
Import Routing App Notions Helpers Frames RouterFacts AuthFacts Termination.

Lemma navigate_login_shown fuel replace w :
  routes (router w) = setupRoutes -> isAuthenticated (auth w) = false ->
  currentRoute (router w) <> Some "/login" ->
  navigate (S fuel) "/login" replace w =
    Some (shown "/login" HLogin PLogin
            (if replace then replaceState "/login" w else pushState "/login" w)).
Proof.
  intros Hrs Hanon Hcur. unfold navigate, navigate_with.
  rewrite decide_False by done.
  apply handleRoute_login_anonymous; by destruct replace.
Qed.

Lemma navigate_dashboard_shown fuel replace w :
  routes (router w) = setupRoutes -> isAuthenticated (auth w) = true ->
  currentRoute (router w) <> Some "/dashboard" ->
  navigate (S fuel) "/dashboard" replace w =
    Some (shown "/dashboard" HDashboard PDashboard
            (if replace then replaceState "/dashboard" w
             else pushState "/dashboard" w)).
Proof.
  intros Hrs Hauth Hcur. unfold navigate, navigate_with.
  rewrite decide_False by done.
  apply handleRoute_dashboard_authenticated; by destruct replace.
Qed.

(** The guest-only routes of the application send to the dashboard. *)
Lemma setupRoutes_guest_only pat r :
  (pat, r) ∈ setupRoutes -> truthy (redirectIfAuth r) = true ->
  requiresAuth r = false /\ default "" (redirectIfAuth r) = "/dashboard" /\
  (handler r = HLogin \/ handler r = HRegister).
Proof.
  intros Hin Hguest.
  destruct (setupRoutes_cases pat r Hin) as [->|[->|[->|[->| ->]]]];
    try done; auto.
Qed.

(** Guest-only routes.  On the application's table, resolving a route that
    has a [redirectIfAuth] target (the login and register pages) while the
    session is authenticated does not invoke that route's handler: the
    history entry is replaced by [/dashboard] and the dashboard is shown,
    or, when the dashboard already is the current route, nothing happens. *)
Theorem guest_route_authenticated fuel path w route ps :
  routes (router w) = setupRoutes ->
  findRoute setupRoutes path = Some (route, ps) ->
  truthy (redirectIfAuth route) = true ->
  isAuthenticated (auth w) = true ->
  handleRoute (S (S fuel)) path w =
    Some (if decide (currentRoute (router w) = Some "/dashboard") then w
          else shown "/dashboard" HDashboard PDashboard
                 (replaceState "/dashboard" w)) /\
  handler route <> HDashboard.
Proof.
  intros Hrs Hfind Hguest Hauth.
  destruct (findRoute_elem _ _ _ _ Hfind) as [pat Hin].
  destruct (setupRoutes_guest_only pat route Hin Hguest) as (Hreq & Htarget & Hh).
  split; [|by destruct Hh as [-> | ->]].
  rewrite handleRoute_unfold, Hrs, Hfind, Hreq, Hguest, Hauth, Htarget.
  cbn [andb]. destruct (decide _) as [Hon|Hoff].
  - unfold navigate, navigate_with. by rewrite decide_True.
  - by apply navigate_dashboard_shown.
Qed.

Lemma guest_route_authenticated_witness :
  exists w,
    signed_in = Some w /\
    handleRoute 2 "/register" w = Some w.
Proof.
  exists (default (blank ∅ "") signed_in). split; [vm_compute; reflexivity |].
  rewrite (proj1 (guest_route_authenticated 0 "/register"
                    (default (blank ∅ "") signed_in)
                    {| handler := HRegister; requiresAuth := false;
                       redirectIfAuth := Some "/dashboard" |} ∅
                    ltac:(vm_compute; reflexivity) ltac:(vm_compute; reflexivity)
                    ltac:(vm_compute; reflexivity) ltac:(vm_compute; reflexivity))).
  vm_compute. reflexivity.
Defined.

(** Once a first listener has brought the world into [Q] and every listener
    keeps it there, notifying any non-empty list of listeners ends in [Q]. *)
Lemma notify_settles fuel (Q : World -> Prop) ls w0 :
  ls <> [] ->
  (forall l, exists w', call_listener fuel l w0 = Some w' /\ Q w') ->
  (forall l w, Q w -> exists w', call_listener fuel l w = Some w' /\ Q w') ->
  exists w', notify_each fuel ls w0 = Some w' /\ Q w'.
Proof.
  intros Hne Hfirst Hkeep. destruct ls as [|l ls]; [done |].
  cbn [notify_each]. destruct (Hfirst l) as (w1 & -> & Hw1). simpl.
  clear Hne Hfirst. revert w1 Hw1. induction ls as [|l' ls IH]; intros w1 Hw1.
  - by exists w1.
  - cbn [notify_each]. destruct (Hkeep l' w1 Hw1) as (w2 & -> & Hw2). simpl.
    by apply IH.
Qed.

Lemma at_page_shown_login w :
  routes (router w) = setupRoutes -> isLoading (auth w) = false ->
  isAuthenticated (auth w) = false -> pathname (browser w) = "/login" ->
  at_page "/login" false (shown "/login" HLogin PLogin w).
Proof. intros. by repeat split. Qed.

Lemma at_page_shown_dashboard w :
  routes (router w) = setupRoutes -> isLoading (auth w) = false ->
  isAuthenticated (auth w) = true -> pathname (browser w) = "/dashboard" ->
  at_page "/dashboard" true (shown "/dashboard" HDashboard PDashboard w).
Proof. intros. by repeat split. Qed.

Lemma replaced_in_shown path h page target w :
  EvReplaceState target ∈ trace (shown path h page (replaceState target w)).
Proof.
  unfold shown, replaceState. simpl. rewrite !elem_of_app.
  left. left. right. by left.
Qed.

Lemma replaced_still_shown_any path h page e w :
  e ∈ trace w -> e ∈ trace (shown path h page w).
Proof. intros H. unfold shown. simpl. rewrite !elem_of_app. by left; left. Qed.

Lemma replaced_still_shown path h page target w :
  EvReplaceState target ∈ trace w ->
  EvReplaceState target ∈ trace (shown path h page w).
Proof. intros H. unfold shown. simpl. rewrite !elem_of_app. by left; left. Qed.

(** Listeners called on the login page of an anonymous session stay there. *)
Lemma login_page_stable fuel l w :
  at_page "/login" false w /\ EvReplaceState "/login" ∈ trace w ->
  exists w', call_listener (S (S fuel)) l w = Some w' /\
             at_page "/login" false w' /\ EvReplaceState "/login" ∈ trace w'.
Proof.
  intros [(Hrs & Hload & Hanon & Hpath & Hcur) Htrace].
  unfold call_listener. rewrite Hload. destruct l.
  - unfold handleAuthStateChange. rewrite Hrs, Hpath, findRoute_login, Hanon.
    cbn [requiresAuth redirectIfAuth andb negb]. rewrite andb_false_r.
    exists w. by repeat split.
  - rewrite Hpath, handleRoute_login_anonymous by done.
    eexists. split; [done |]. split.
    + by apply at_page_shown_login.
    + by apply replaced_still_shown.
Qed.

(** Listeners called on the dashboard of an authenticated session stay
    there. *)
Lemma dashboard_stable fuel l w :
  at_page "/dashboard" true w /\ EvReplaceState "/dashboard" ∈ trace w ->
  exists w', call_listener (S (S fuel)) l w = Some w' /\
             at_page "/dashboard" true w' /\
             EvReplaceState "/dashboard" ∈ trace w'.
Proof.
  intros [(Hrs & Hload & Hauth & Hpath & Hcur) Htrace].
  unfold call_listener. rewrite Hload. destruct l.
  - unfold handleAuthStateChange. rewrite Hrs, Hpath, findRoute_dashboard, Hauth.
    cbn [requiresAuth redirectIfAuth andb negb truthy].
    exists w. by repeat split.
  - rewrite Hpath, handleRoute_dashboard_authenticated by done.
    eexists. split; [done |]. split.
    + by apply at_page_shown_dashboard.
    + by apply replaced_still_shown.
Qed.

Lemma pathname_setToken t w :
  pathname (browser (setToken t w)) = pathname (browser w).
Proof. unfold setToken. destruct t as [s|]; [destruct (truthy _) |]; done. Qed.

Lemma router_setToken t w : router (setToken t w) = router w.
Proof. unfold setToken. destruct t as [s|]; [destruct (truthy _) |]; done. Qed.

Lemma auth_setToken t w : auth (setToken t w) = auth w.
Proof. unfold setToken. destruct t as [s|]; [destruct (truthy _) |]; done. Qed.

(** Session expiry on a protected page.  On the application's table, with
    the auth state loaded and a listener registered: when the session is
    cleared while a page that requires authentication is displayed, the
    history entry is replaced by [/login], the login page becomes the
    current route, and neither user nor token is left. *)
Theorem session_expiry_redirects fuel w route ps :
  routes (router w) = setupRoutes ->
  isLoading (auth w) = false ->
  listeners (auth w) <> [] ->
  currentRoute (router w) = Some (pathname (browser w)) ->
  findRoute setupRoutes (pathname (browser w)) = Some (route, ps) ->
  requiresAuth route = true ->
  exists w',
    clearAuth (S (S fuel)) w = Some w' /\
    at_page "/login" false w' /\
    user (auth w') = None /\
    token w' = None /\
    storage (browser w') !! "auth_token" = None /\
    EvReplaceState "/login" ∈ trace w'.
Proof.
  intros Hrs Hload Hls Hcur Hfind Hreq.
  assert (pathname (browser w) <> "/login") as Hnot.
  { intros Heq. rewrite Heq, findRoute_login in Hfind. by injection Hfind as <- _. }
  unfold clearAuth, notifyListeners.
  set (w0 := setToken None _).
  assert (routes (router w0) = setupRoutes) as Hrs0
    by (unfold w0; by rewrite router_setToken).
  assert (pathname (browser w0) = pathname (browser w)) as Hpath0
    by (unfold w0; by rewrite pathname_setToken).
  assert (currentRoute (router w0) = Some (pathname (browser w))) as Hcur0
    by (unfold w0; by rewrite router_setToken).
  assert (auth w0 = {| user := None; isAuthenticated := false;
                       isLoading := isLoading (auth w);
                       listeners := listeners (auth w) |}) as Hauth0
    by (unfold w0; by rewrite auth_setToken).
  assert (isAuthenticated (auth w0) = false) as Hanon0 by (by rewrite Hauth0).
  assert (isLoading (auth w0) = false) as Hload0 by (by rewrite Hauth0).
  assert (currentRoute (router w0) <> Some "/login") as Hoff0
    by (rewrite Hcur0; congruence).
  destruct (notify_settles (S (S fuel))
              (fun w' => at_page "/login" false w' /\
                         EvReplaceState "/login" ∈ trace w')
              (listeners (auth w0)) w0) as (w' & Hw' & Hpage & Htrace).
  - by rewrite Hauth0.
  - intros l. unfold call_listener. rewrite Hload0. destruct l.
    + unfold handleAuthStateChange. rewrite Hrs0, Hpath0, Hfind, Hreq, Hanon0.
      cbn [andb negb].
      rewrite (navigate_login_shown _ true w0 Hrs0 Hanon0 Hoff0).
      eexists. split; [done |]. split; [|apply replaced_in_shown].
      by apply at_page_shown_login.
    + rewrite handleRoute_unfold.
      change (routes (router (removeListener LRouterInitialRoute w0)))
        with (routes (router w0)).
      change (isAuthenticated (auth (removeListener LRouterInitialRoute w0)))
        with (isAuthenticated (auth w0)).
      rewrite Hrs0, Hpath0, Hfind, Hreq, Hanon0. cbn [andb negb].
      rewrite navigate_login_shown by done.
      eexists. split; [done |]. split; [|apply replaced_in_shown].
      by apply at_page_shown_login.
  - intros l w1. apply login_page_stable.
  - exists w'. split; [done |].
    pose proof (session_notifyListeners _ _ _ Hw') as Hsession.
    destruct (token_notifyListeners _ _ _ Hw') as [Htoken Hstorage].
    unfold session in Hsession. rewrite Hauth0 in Hsession.
    injection Hsession as Huser _.
    repeat split; try done.
    + apply Hpage.
    + apply Hpage.
    + apply Hpage.
    + apply Hpage.
    + apply Hpage.
    + rewrite Hstorage. unfold w0, setToken. simpl. apply lookup_delete_eq.
Qed.

End Flows.

(** ** Login, logout and start-up *)

Module Lifecycle.
Import Routing App Notions Helpers Frames RouterFacts AuthFacts Traces
  Termination Progress Flows.

Lemma session_expiry_redirects_witness :
  exists w w',
    signed_in = Some w /\
    clearAuth 2 w = Some w' /\
    currentRoute (router w') = Some "/login".
Proof.
  destruct (session_expiry_redirects 0 (default (blank ∅ "") signed_in)
              {| handler := HDashboard; requiresAuth := true;
                 redirectIfAuth := None |} ∅
              ltac:(vm_compute; reflexivity) ltac:(vm_compute; reflexivity)
              ltac:(vm_compute; discriminate) ltac:(vm_compute; reflexivity)
              ltac:(vm_compute; reflexivity) ltac:(vm_compute; reflexivity))
    as (w' & Hrun & Hpage & _).
  exists (default (blank ∅ "") signed_in), w'.
  split; [vm_compute; reflexivity |]. split; [exact Hrun |]. apply Hpage.
Defined.

(** Login completing on a guest-only page.  On the application's table,
    with the auth state loaded and a listener registered: when a user is set
    while the login or register page is displayed, the history entry is
    replaced by [/dashboard] and the dashboard becomes the current route;
    the token is not touched. *)
Theorem login_completion_redirects fuel u w route ps :
  routes (router w) = setupRoutes ->
  isLoading (auth w) = false ->
  listeners (auth w) <> [] ->
  currentRoute (router w) = Some (pathname (browser w)) ->
  findRoute setupRoutes (pathname (browser w)) = Some (route, ps) ->
  truthy (redirectIfAuth route) = true ->
  exists w',
    setUser (S (S fuel)) u w = Some w' /\
    at_page "/dashboard" true w' /\
    user (auth w') = Some u /\
    token w' = token w /\
    EvReplaceState "/dashboard" ∈ trace w'.
Proof.
  intros Hrs Hload Hls Hcur Hfind Hguest.
  destruct (findRoute_elem _ _ _ _ Hfind) as [pat Hin].
  destruct (setupRoutes_guest_only pat route Hin Hguest) as (Hreq & Htarget & _).
  assert (pathname (browser w) <> "/dashboard") as Hnot.
  { intros Heq. rewrite Heq, findRoute_dashboard in Hfind.
    injection Hfind as <- _. done. }
  unfold setUser, notifyListeners.
  set (w0 := with_auth _ w).
  assert (isAuthenticated (auth w0) = true) as Hauth0 by done.
  assert (isLoading (auth w0) = false) as Hload0 by done.
  assert (routes (router w0) = setupRoutes) as Hrs0 by done.
  assert (pathname (browser w0) = pathname (browser w)) as Hpath0 by done.
  assert (currentRoute (router w0) <> Some "/dashboard") as Hoff0.
  { change (currentRoute (router w) <> Some "/dashboard"). rewrite Hcur. congruence. }
  destruct (notify_settles (S (S fuel))
              (fun w' => at_page "/dashboard" true w' /\
                         EvReplaceState "/dashboard" ∈ trace w')
              (listeners (auth w0)) w0) as (w' & Hw' & Hpage & Htrace).
  - done.
  - intros l. unfold call_listener. rewrite Hload0. destruct l.
    + unfold handleAuthStateChange.
      rewrite Hrs0, Hpath0, Hfind, Hreq, Hguest, Hauth0, Htarget. cbn [andb].
      rewrite (navigate_dashboard_shown _ true w0 Hrs0 Hauth0 Hoff0).
      eexists. split; [done |]. split; [|apply replaced_in_shown].
      by apply at_page_shown_dashboard.
    + rewrite handleRoute_unfold.
      change (routes (router (removeListener LRouterInitialRoute w0)))
        with (routes (router w0)).
      change (isAuthenticated (auth (removeListener LRouterInitialRoute w0)))
        with (isAuthenticated (auth w0)).
      rewrite Hrs0, Hpath0, Hfind, Hreq, Hguest, Hauth0, Htarget. cbn [andb].
      rewrite navigate_dashboard_shown by done.
      eexists. split; [done |]. split; [|apply replaced_in_shown].
      by apply at_page_shown_dashboard.
  - intros l w1. apply dashboard_stable.
  - exists w'. split; [done |].
    pose proof (session_notifyListeners _ _ _ Hw') as Hsession.
    destruct (token_notifyListeners _ _ _ Hw') as [Htoken _].
    unfold session in Hsession. injection Hsession as Huser _.
    by repeat split; try apply Hpage.
Qed.

Lemma login_completion_redirects_witness :
  exists w w',
    visitor_at_login = Some w /\
    setUser 2 ana w = Some w' /\
    currentRoute (router w') = Some "/dashboard".
Proof.
  destruct (login_completion_redirects 0 ana
              (default (blank ∅ "") visitor_at_login)
              {| handler := HLogin; requiresAuth := false;
                 redirectIfAuth := Some "/dashboard" |} ∅
              ltac:(vm_compute; reflexivity) ltac:(vm_compute; reflexivity)
              ltac:(vm_compute; discriminate) ltac:(vm_compute; reflexivity)
              ltac:(vm_compute; reflexivity) ltac:(vm_compute; reflexivity))
    as (w' & Hrun & Hpage & _).
  exists (default (blank ∅ "") visitor_at_login), w'.
  split; [vm_compute; reflexivity |]. split; [exact Hrun |]. apply Hpage.
Defined.

(** Logout.  On the application's table [logout] always completes, and
    afterwards the login page is the router's current route, no user is
    held, and the token is gone from the client and from local storage. *)
Theorem logout_ends_at_login fuel w :
  routes (router w) = setupRoutes ->
  exists w',
    logout (S (S fuel)) w = Some w' /\
    currentRoute (router w') = Some "/login" /\
    session w' = (None, false) /\
    token w' = None /\
    storage (browser w') !! "auth_token" = None.
Proof.
  intros Hrs. unfold logout, api_logout, dispatch_auth_logout.
  set (w0 := log _ (setToken None w)).
  destruct (clearAuth_total fuel w0) as [w1 Hw1].
  { unfold w0. cbn [log router]. by rewrite router_setToken. }
  rewrite Hw1. cbn [mbind option_bind].
  assert (routes (router w1) = setupRoutes) as Hrs1.
  { rewrite (routes_clearAuth _ _ _ Hw1). unfold w0. cbn [log router].
    by rewrite router_setToken. }
  destruct (clearAuth_total fuel w1 Hrs1) as [w2 Hw2].
  rewrite Hw2. cbn [mbind option_bind].
  pose proof (session_clearAuth _ _ _ Hw2) as Hsession.
  assert (routes (router w2) = setupRoutes) as Hrs2
    by (by rewrite (routes_clearAuth _ _ _ Hw2)).
  unfold clearAuth in Hw2.
  destruct (token_notifyListeners _ _ _ Hw2) as [Htoken Hstorage].
  assert (token w2 = None) as Htoken2.
  { rewrite Htoken. unfold setToken. done. }
  assert (storage (browser w2) !! "auth_token" = None) as Hstorage2.
  { rewrite Hstorage. unfold setToken. simpl. apply lookup_delete_eq. }
  unfold dispatch_navigate, dispatch_toast.
  set (w3 := log _ (log _ w2)).
  assert (isAuthenticated (auth w3) = false) as Hanon3.
  { change (isAuthenticated (auth w2) = false).
    unfold session in Hsession. by injection Hsession as _ ->. }
  assert (routes (router w3) = setupRoutes) as Hrs3 by done.
  destruct (decide (currentRoute (router w3) = Some "/login")) as [Hon|Hoff].
  - exists w3. unfold navigate, navigate_with. rewrite decide_True by done.
    by repeat split.
  - rewrite (navigate_login_shown _ false w3 Hrs3 Hanon3 Hoff).
    eexists. split; [done |]. by repeat split.
Qed.

Lemma logout_ends_at_login_witness :
  exists w w',
    member_in_group = Some w /\
    logout 2 w = Some w' /\
    currentRoute (router w') = Some "/login" /\
    token w' = None.
Proof.
  destruct (logout_ends_at_login 0 (default (blank ∅ "") member_in_group)
              ltac:(vm_compute; reflexivity))
    as (w' & Hrun & Hcur & _ & Htoken & _).
  exists (default (blank ∅ "") member_in_group), w'.
  split; [vm_compute; reflexivity |]. by repeat split.
Defined.

End Lifecycle.

(** ** Start-up and token validation *)

Module Startup.
Import Routing App Notions Helpers Frames RouterFacts AuthFacts Traces
  Termination Progress Flows.

(** Resolving a route when the router has none yet always leaves a mark. *)
Lemma handleRoute_first_logs fuel path w w' :
  handleRoute fuel path w = Some w' -> currentRoute (router w) = None ->
  exists e evs, trace w' = trace w ++ e :: evs.
Proof.
  destruct fuel as [|fuel]; [done |]. intros H Hcur.
  assert (Hnav : forall target w1,
    navigate fuel target true w1 = Some w' -> currentRoute (router w1) = None ->
    exists evs, trace w' = trace w1 ++ EvReplaceState target :: evs).
  { intros target w1. unfold navigate, navigate_with. intros Hn Hc.
    rewrite decide_False in Hn by (rewrite Hc; done).
    apply handleRoute_extends in Hn as (evs & Hn & _). exists evs.
    rewrite Hn. unfold replaceState. simpl. by rewrite <- app_assoc. }
  rewrite handleRoute_unfold in H.
  destruct (findRoute (routes (router w)) path) as [[route params]|].
  - destruct (_ && _); [destruct (Hnav _ _ H Hcur) as [evs ->]; by eexists _, _ |].
    destruct (_ && _); [destruct (Hnav _ _ H Hcur) as [evs ->]; by eexists _, _ |].
    set (w1 := log _ _) in H.
    assert (exists evs, trace w' = trace w1 ++ evs) as [evs Hevs].
    { destruct (handler route); cbn [run_handler] in H.
      - apply navigate_extends in H as (evs & H & _). by exists evs.
      - injection H as <-. by eexists.
      - injection H as <-. by eexists.
      - injection H as <-. by eexists.
      - injection H as <-. by eexists. }
    exists (EvHandler (handler route) params), evs. rewrite Hevs. unfold w1.
    simpl. by rewrite <- app_assoc.
  - injection H as <-. by exists (EvRenderPage PNotFound), [].
Qed.

(** Deferred initial route.  With a stored token the page starts in the
    loading state: nothing is resolved or rendered, the stored token is the
    client's token, and the router waits with both of its listeners.
    Without one the auth state is loaded at once, only the auth-change
    listener is registered, and the initial route has been resolved. *)
Theorem boot_defers_initial_route fuel stored path :
  (forall t,
     stored !! "auth_token" = Some t -> truthy (Some t) = true ->
     exists w,
       boot fuel stored path = Some w /\
       trace w = [] /\
       isLoading (auth w) = true /\
       token w = Some t /\
       currentRoute (router w) = None /\
       listeners (auth w) = [LRouterAuthChange; LRouterInitialRoute]) /\
  (truthy (stored !! "auth_token") = false ->
   exists w,
     boot (S (S fuel)) stored path = Some w /\
     trace w <> [] /\
     isLoading (auth w) = false /\
     isAuthenticated (auth w) = false /\
     listeners (auth w) = [LRouterAuthChange]).
Proof.
  split.
  - intros t Hstored Ht. unfold boot, auth_init.
    cbn [blank browser storage]. rewrite Hstored, Ht. cbn [mbind option_bind].
    unfold router_init, setToken. rewrite Ht. by eexists.
  - intros Hnone. unfold boot, auth_init.
    cbn [blank browser storage]. rewrite Hnone.
    unfold finish_loading, notifyListeners.
    cbn [with_token with_auth blank auth listeners notify_each mbind option_bind].
    unfold router_init.
    cbn [with_router addListener with_auth auth router isLoading browser pathname].
    match goal with
    | |- exists w, handleRoute _ ?p ?w1 = Some w /\ _ =>
        destruct (handleRoute_total fuel p w1) as [w Hw]; [done |];
        exists w; split; [done |];
        pose proof (handleRoute_first_logs _ _ _ _ Hw eq_refl) as (e & evs & Htrace);
        apply (handleRoute_frame auth) in Hw as Hauth; [|done..]
    end.
    rewrite Htrace, Hauth. simpl. repeat split. by destruct evs.
Qed.

Lemma boot_defers_initial_route_witness :
  exists w,
    boot 2 {["auth_token" := "tok"]} "/dashboard" = Some w /\
    trace w = [] /\ isLoading (auth w) = true.
Proof.
  destruct (proj1 (boot_defers_initial_route 2
                     ({["auth_token" := "tok"]} : gmap string string)
                     "/dashboard") "tok"
              (lookup_singleton_eq "auth_token" "tok") eq_refl)
    as (w & Hboot & Htrace & Hload & _).
  exists w. by repeat split.
Defined.

(** Listeners are only ever removed while the others are called, and the
    one-shot listener of the initial route is gone once it was called. *)
Lemma notify_each_listeners fuel ls w w' :
  notify_each fuel ls w = Some w' -> isLoading (auth w) = false ->
  (forall l, l ∈ listeners (auth w') -> l ∈ listeners (auth w)) /\
  (LRouterInitialRoute ∈ ls -> LRouterInitialRoute ∉ listeners (auth w')).
Proof.
  revert w. induction ls as [|l ls IH]; intros w; simpl.
  - intros [= <-] _. split; [done |]. by intros ?%elem_of_nil.
  - intros H Hload. unbind.
    assert ((forall l', l' ∈ listeners (auth w0) -> l' ∈ listeners (auth w)) /\
            isLoading (auth w0) = false /\
            (l = LRouterInitialRoute -> LRouterInitialRoute ∉ listeners (auth w0)))
      as (Hsub & Hload0 & Hgone).
    { revert Hw0. unfold call_listener. rewrite Hload. destruct l.
      - intros Hc. apply (handleAuthStateChange_frame auth) in Hc; [|done..].
        rewrite Hc. by repeat split.
      - intros Hc. apply (handleRoute_frame auth) in Hc; [|done..].
        rewrite Hc. cbn [removeListener with_auth auth listeners isLoading].
        split; [|split; [done |]].
        + intros l' Hl'. by apply list_elem_of_filter in Hl' as [_ ?].
        + intros _ Hin. by apply list_elem_of_filter in Hin as [? _]. }
    destruct (IH w0 H Hload0) as [Hsub' Hgone']. split.
    + intros l' Hl'. by apply Hsub, Hsub'.
    + intros Hin. apply elem_of_cons in Hin as [<-|Hin]; [|by apply Hgone'].
      intros Hl'. by apply (Hgone eq_refl), Hsub'.
Qed.

Lemma notifyListeners_initial_gone fuel w w' :
  notifyListeners fuel w = Some w' -> isLoading (auth w) = false ->
  (LRouterInitialRoute ∉ listeners (auth w')) /\
  (forall l, l ∈ listeners (auth w') -> l ∈ listeners (auth w)).
Proof.
  intros H Hload. destruct (notify_each_listeners _ _ _ _ H Hload) as [Hsub Hgone].
  split; [|done]. intros Hin. by apply (Hgone (Hsub _ Hin)).
Qed.

Lemma loading_notifyListeners fuel w w' :
  notifyListeners fuel w = Some w' -> isLoading (auth w') = isLoading (auth w).
Proof. by apply (notifyListeners_frame (fun w => isLoading (auth w))). Qed.

(** The end of loading: the listeners are told, the one-shot listener is
    gone, and session and token are as before. *)
Lemma finish_loading_facts fuel w w' :
  finish_loading fuel w = Some w' ->
  isLoading (auth w') = false /\
  (LRouterInitialRoute ∉ listeners (auth w')) /\
  session w' = session w /\ token w' = token w /\
  storage (browser w') = storage (browser w).
Proof.
  intros H. pose proof (session_finish_loading _ _ _ H) as Hsession.
  unfold finish_loading in H.
  pose proof (loading_notifyListeners _ _ _ H) as Hload.
  destruct (notifyListeners_initial_gone _ _ _ H eq_refl) as [Hgone _].
  destruct (token_notifyListeners _ _ _ H) as [Htoken Hstorage].
  by repeat split.
Qed.

Lemma clearAuth_facts fuel w w' :
  clearAuth fuel w = Some w' ->
  isLoading (auth w') = isLoading (auth w) /\
  (isLoading (auth w) = false ->
   LRouterInitialRoute ∉ listeners (auth w) ->
   LRouterInitialRoute ∉ listeners (auth w')) /\
  session w' = (None, false) /\ token w' = None /\
  storage (browser w') !! "auth_token" = None.
Proof.
  intros H. pose proof (session_clearAuth _ _ _ H) as Hsession.
  unfold clearAuth in H.
  pose proof (loading_notifyListeners _ _ _ H) as Hload.
  destruct (token_notifyListeners _ _ _ H) as [Htoken Hstorage].
  rewrite auth_setToken in Hload. split; [done |]. split.
  - intros Hl Hnot Hin.
    destruct (notifyListeners_initial_gone _ _ _ H) as [_ Hsub].
    { by rewrite auth_setToken. }
    apply Hsub in Hin. by rewrite auth_setToken in Hin.
  - split; [done |]. split; [by rewrite Htoken |].
    rewrite Hstorage. unfold setToken. simpl. apply lookup_delete_eq.
Qed.

(** Token validation.  Whenever [validateToken] completes, loading is over
    and the one-shot listener of the initial route is no longer registered.
    If the profile answer is a success carrying a user, that user is held,
    the session is authenticated and the token stays; after any other
    answer, or none, the session is anonymous and the token is gone from
    the client and from local storage. *)
Theorem validateToken_outcome fuel fr w w' :
  validateToken fuel fr w = Some w' ->
  isLoading (auth w') = false /\
  (LRouterInitialRoute ∉ listeners (auth w')) /\
  match profile_user fr with
  | Some u =>
      session w' = (Some u, true) /\ token w' = token w /\
      storage (browser w') = storage (browser w)
  | None =>
      session w' = (None, false) /\ token w' = None /\
      storage (browser w') !! "auth_token" = None
  end.
Proof.
  unfold validateToken, profile_user, request. intros H.
  destruct (receive fr) as [response|e] eqn:Hreceive; cbn [mbind option_bind] in H.
  - destruct (success_data response) as [[[[u|] t]|]|e].
    + unbind. apply finish_loading_facts in H as (Hl & Hg & Hs & Ht & Hst).
      pose proof (session_setUser _ _ _ _ Hw0) as Hsession.
      unfold setUser in Hw0. destruct (token_notifyListeners _ _ _ Hw0) as [Ht0 Hst0].
      cbn [with_auth log token browser] in Ht0, Hst0.
      repeat split; try done; congruence.
    + unbind. apply finish_loading_facts in H as (Hl & Hg & Hs & Ht & Hst).
      apply clearAuth_facts in Hw0 as (_ & _ & Hs0 & Ht0 & Hst0).
      repeat split; try done; congruence.
    + unbind. apply finish_loading_facts in H as (Hl & Hg & Hs & Ht & Hst).
      apply clearAuth_facts in Hw0 as (_ & _ & Hs0 & Ht0 & Hst0).
      repeat split; try done; congruence.
    + unbind. apply finish_loading_facts in Hw1 as (Hl & Hg & _).
      apply clearAuth_facts in H as (Hl2 & Hg2 & Hs2 & Ht2 & Hst2).
      cbn [log auth] in Hl2, Hg2. repeat split; try done; [congruence | by apply Hg2].
  - unbind. destruct w0 as [w0 r0]. unbind. injection Hw0 as <- <-. unbind.
    match goal with
    | Hf : finish_loading _ _ = Some _ |- _ =>
        apply finish_loading_facts in Hf as (Hl & Hg & _)
    end.
    apply clearAuth_facts in H as (Hl2 & Hg2 & Hs2 & Ht2 & Hst2).
    cbn [log auth] in Hl2, Hg2. repeat split; try done; [congruence | by apply Hg2].
Qed.

Lemma validateToken_outcome_witness :
  exists w w',
    boot 2 {["auth_token" := "tok"]} "/dashboard" = Some w /\
    validateToken 2 (auth_answer (Some ana) None) w = Some w' /\
    isLoading (auth w') = false /\
    isAuthenticated (auth w') = true.
Proof.
  exists (default (blank ∅ "") (boot 2 {["auth_token" := "tok"]} "/dashboard")).
  exists (default (blank ∅ "")
            (boot 2 {["auth_token" := "tok"]} "/dashboard"
               ≫= validateToken 2 (auth_answer (Some ana) None))).
  split; [vm_compute; reflexivity |].
  assert (Hrun : validateToken 2 (auth_answer (Some ana) None)
            (default (blank ∅ "") (boot 2 {["auth_token" := "tok"]} "/dashboard")) =
          Some (default (blank ∅ "")
                  (boot 2 {["auth_token" := "tok"]} "/dashboard"
                     ≫= validateToken 2 (auth_answer (Some ana) None))))
    by (vm_compute; reflexivity).
  split; [exact Hrun |].
  destruct (validateToken_outcome _ _ _ _ Hrun) as (Hload & _ & Hsession).
  split; [exact Hload |]. vm_compute. reflexivity.
Defined.

End Startup.

(** ** The HTTP client, the guard and the permission checks *)

Module Client.
Import Routing App Notions Helpers Frames RouterFacts AuthFacts Traces
  Termination Progress Flows.

(** Token round trip.  Setting a non-empty token makes it the client's
    token, the Authorization header and the stored token, and a page loaded
    afterwards starts with it; setting [null] removes all three.  No other
    key of local storage is touched. *)
Theorem setToken_round_trip (w : World) :
  (forall t fuel path,
     truthy (Some t) = true ->
     token (setToken (Some t) w) = Some t /\
     authorization (setToken (Some t) w) = Some ("Bearer " +:+ t) /\
     storage (browser (setToken (Some t) w)) !! "auth_token" = Some t /\
     exists w',
       boot fuel (storage (browser (setToken (Some t) w))) path = Some w' /\
       token w' = Some t /\ authorization w' = Some ("Bearer " +:+ t)) /\
  (token (setToken None w) = None /\
   authorization (setToken None w) = None /\
   storage (browser (setToken None w)) !! "auth_token" = None) /\
  (forall t k,
     k <> "auth_token" ->
     storage (browser (setToken t w)) !! k = storage (browser w) !! k).
Proof.
  split; [|split].
  - intros t fuel path Ht.
    assert (storage (browser (setToken (Some t) w)) !! "auth_token" = Some t)
      as Hstored.
    { unfold setToken. rewrite Ht. simpl. apply lookup_insert_eq. }
    assert (token (setToken (Some t) w) = Some t) as Htok
      by (unfold setToken; by rewrite Ht).
    split; [done |].
    split; [unfold authorization; by rewrite Htok, Ht |].
    split; [done |].
    unfold boot, auth_init. cbn [blank browser storage].
    rewrite Hstored, Ht. cbn [mbind option_bind]. unfold router_init.
    set (w1 := setToken (Some t) (with_token (Some t) _)).
    assert (token w1 = Some t) as Htok1 by (unfold w1, setToken; by rewrite Ht).
    assert (isLoading (auth w1) = true) as Hload1
      by (unfold w1, setToken; by rewrite Ht).
    cbn [with_router addListener with_auth auth isLoading].
    rewrite Hload1. eexists. split; [done |].
    unfold authorization. cbn [token addListener with_auth with_router].
    by rewrite Htok1, Ht.
  - unfold setToken, authorization. simpl. repeat split. apply lookup_delete_eq.
  - intros t k Hk. unfold setToken.
    destruct t as [s|]; [destruct (truthy (Some s)) |]; simpl.
    + by rewrite lookup_insert_ne.
    + by rewrite lookup_delete_ne.
    + by rewrite lookup_delete_ne.
Qed.

(** [request] returns a body exactly when [fetch] resolved with a status
    from 200 to 299 and the body could be read; an error built from a
    response that was read carries that response's status and body, and its
    message is the server's when there is one. *)
Theorem receive_outcomes (fr : FetchResult) :
  ((exists d, receive fr = Returned d) <->
   exists r, fr = FetchResponse r /\ readable r /\ response_ok r = true) /\
  (forall r,
     fr = FetchResponse r -> readable r -> response_ok r = false ->
     exists e d,
       receive fr = Thrown e /\
       err_status e = Some (status r) /\
       err_data e = Some d /\
       d = (if isJson r then BJson (default {| success := false; data := None;
                                               error_message := None |}
                                      (jsonBody r))
            else BText (textBody r)) /\
       (forall m, d = BJson m -> truthy (error_message m) = true ->
                  Some (err_message e) = error_message m)).
Proof.
  split.
  - split.
    + intros [d Hd]. destruct fr as [m|r]; [done |]. exists r. split; [done |].
      unfold receive in Hd. unfold readable. destruct (isJson r).
      * destruct (jsonBody r) as [j|]; [|done].
        destruct (response_ok r); [|done]. split; [by eexists | done].
      * destruct (response_ok r); [|done]. done.
    + intros (r & -> & Hread & Hok). unfold receive. rewrite Hok.
      unfold readable in Hread. destruct (isJson r).
      * destruct (Hread eq_refl) as [j ->]. by eexists.
      * by eexists.
  - intros r -> Hread Hok. unfold receive. rewrite Hok.
    unfold readable in Hread. destruct (isJson r).
    + destruct (Hread eq_refl) as [j ->]. eexists _, _.
      split; [done |]. split; [done |]. split; [done |]. split; [done |].
      intros m [= <-] Hm. simpl. rewrite Hm.
      by destruct (error_message j).
    + eexists _, _. split; [done |]. split; [done |]. split; [done |].
      split; [done |]. by intros m [=].
Qed.

Lemma receive_outcomes_witness :
  exists e, receive unauthorized_json = Thrown e /\ err_status e = Some 401%Z.
Proof.
  destruct (proj2 (receive_outcomes unauthorized_json) _ eq_refl
              ltac:(intros _; by eexists) eq_refl)
    as (e & d & He & Hstatus & _).
  by exists e.
Defined.

(** Only a 401 touches the session.  Whatever [fetch] gives, unless the
    error thrown carries status 401, [request] completes, hands on what
    [receive] produced, and leaves the token, the auth state, the router,
    the polling state and the browser as they were. *)
Theorem request_keeps_session fuel endpoint fr w :
  (forall e, receive fr = Thrown e -> err_status e <> Some 401%Z) ->
  exists w',
    request fuel endpoint fr w = Some (w', receive fr) /\
    token w' = token w /\ auth w' = auth w /\ router w' = router w /\
    ui w' = ui w /\ browser w' = browser w.
Proof.
  intros Hno. unfold request. destruct (receive fr) as [d|e] eqn:Hr.
  - by eexists.
  - rewrite decide_False by (by apply Hno). by eexists.
Qed.

Lemma request_keeps_session_witness :
  exists w w',
    signed_in = Some w /\
    request 2 "/api/groups" (FetchRejected "Failed to fetch") w =
      Some (w', receive (FetchRejected "Failed to fetch")) /\
    token w' = token w.
Proof.
  destruct (request_keeps_session 2 "/api/groups" (FetchRejected "Failed to fetch")
              (default (blank ∅ "") signed_in))
    as (w' & Hrun & Htoken & _); [by intros e [= <-] |].
  exists (default (blank ∅ "") signed_in), w'.
  split; [vm_compute; reflexivity |]. by split.
Defined.

(** The route guard.  On the application's table [requireAuth] answers
    true exactly when the session is authenticated or still loading, and
    then changes nothing; otherwise it asks the router for [/login], which
    becomes the current route. *)
Theorem requireAuth_answer fuel w :
  routes (router w) = setupRoutes ->
  exists w' b,
    requireAuth (S (S fuel)) w = Some (w', b) /\
    b = isAuthenticated (auth w) || isLoading (auth w) /\
    (b = true -> w' = w) /\
    (b = false ->
     currentRoute (router w') = Some "/login" /\
     EvDispatch "router:navigate" (DNavigate "/login") ∈ trace w' /\
     auth w' = auth w /\ token w' = token w).
Proof.
  intros Hrs. unfold requireAuth.
  destruct (isAuthenticated (auth w)) eqn:Hauth; cbn [negb andb orb].
  { exists w, true. by repeat split. }
  destruct (isLoading (auth w)) eqn:Hload; cbn [negb andb orb].
  { exists w, true. by repeat split. }
  unfold dispatch_navigate. set (w1 := log _ w).
  assert (EvDispatch "router:navigate" (DNavigate "/login") ∈ trace w1) as Hin.
  { unfold w1. simpl. apply elem_of_app. right. by left. }
  destruct (decide (currentRoute (router w1) = Some "/login")) as [Hon|Hoff].
  - unfold navigate, navigate_with. rewrite decide_True by done.
    exists w1, false. by repeat split.
  - rewrite (navigate_login_shown _ false w1 Hrs Hauth Hoff).
    eexists _, false. cbn [mbind option_bind]. split; [done |].
    split; [done |]. split; [done |]. intros _.
    split; [done |]. split; [|done].
    apply replaced_still_shown_any. unfold pushState. simpl.
    apply elem_of_app. by left.
Qed.

Lemma requireAuth_answer_witness :
  exists w w',
    visitor_at_login = Some w /\
    requireAuth 2 w = Some (w', false) /\
    currentRoute (router w') = Some "/login".
Proof.
  destruct (requireAuth_answer 0 (default (blank ∅ "") visitor_at_login)
              ltac:(vm_compute; reflexivity))
    as (w' & b & Hrun & Hb & _ & Hfalse).
  assert (b = false) as -> by (rewrite Hb; vm_compute; reflexivity).
  exists (default (blank ∅ "") visitor_at_login), w'.
  split; [vm_compute; reflexivity |]. split; [exact Hrun |]. by apply Hfalse.
Defined.

(** Permissions.  In every state the application can reach, each of the
    three permission checks answers true only if the session is
    authenticated and the object's owner field is the id of the user held;
    for an anonymous session, or a missing object, they answer false. *)
Theorem permissions_need_owner fuel w :
  reachable fuel w ->
  (forall g, canManageGroup w g = true ->
     isAuthenticated (auth w) = true /\
     exists u x, user (auth w) = Some u /\ g = Some x /\
                 owner_id x = Some (user_id u)) /\
  (forall m, canDeleteMentorship w m = true ->
     isAuthenticated (auth w) = true /\
     exists u x, user (auth w) = Some u /\ m = Some x /\
                 created_by x = Some (user_id u)) /\
  (forall m, canDeleteMaterial w m = true ->
     isAuthenticated (auth w) = true /\
     exists u x, user (auth w) = Some u /\ m = Some x /\
                 uploaded_by x = Some (user_id u)) /\
  (isAuthenticated (auth w) = false ->
   forall g m1 m2,
     canManageGroup w g = false /\ canDeleteMentorship w m1 = false /\
     canDeleteMaterial w m2 = false).
Proof.
  intros (stored & path & actions & H). unbind.
  assert (consistent (session w)) as Hok.
  { eapply session_step_consistent; [|by eapply run_session].
    erewrite boot_session by done. apply consistent_signed_out. }
  unfold consistent, session in Hok. simpl in Hok.
  unfold canManageGroup, canDeleteMentorship, canDeleteMaterial.
  destruct (user (auth w)) as [u|] eqn:Hu.
  - assert (isAuthenticated (auth w) = true) as Hauth by (apply Hok; by eexists).
    repeat split; try done.
    + destruct g as [x|]; [|done]. exists u, x. by apply bool_decide_eq_true in H0.
    + destruct m as [x|]; [|done]. exists u, x. by apply bool_decide_eq_true in H0.
    + destruct m as [x|]; [|done]. exists u, x. by apply bool_decide_eq_true in H0.
    + congruence.
    + congruence.
    + congruence.
  - repeat split; done.
Qed.

Lemma permissions_need_owner_witness :
  exists w,
    signed_in = Some w /\
    canManageGroup w (Some {| owner_id := Some 1%Z |}) = true /\
    canManageGroup w (Some {| owner_id := Some 2%Z |}) = false /\
    isAuthenticated (auth w) = true.
Proof.
  exists (default (blank ∅ "") signed_in).
  split; [vm_compute; reflexivity |].
  split; [vm_compute; reflexivity |]. split; [vm_compute; reflexivity |].
  apply (proj1 (permissions_need_owner 4 (default (blank ∅ "") signed_in)
                  ltac:(exists ∅, "/login",
                          [ALogin (auth_answer (Some ana) (Some "tok"))];
                        vm_compute; reflexivity))
           (Some {| owner_id := Some 1%Z |})).
  vm_compute. reflexivity.
Defined.

End Client.

(** ** Validators and forms *)

Module FormFacts.
Import Routing App Notions Helpers Forms RoutingFacts.

(** One or more characters of the class, then the rest. *)
Lemma plus_spec cls k started s :
  plus cls k started s = true <->
  (started = true /\ k s = true) \/
  exists v s',
    s = v +:+ s' /\ v <> "" /\ all_of cls v = true /\ k s' = true.
Proof.
  revert started. induction s as [|c s IH]; intros started; cbn [plus].
  - rewrite andb_true_iff. split; [by left |].
    intros [H|(v & s' & Hs & Hv & _)]; [done |]. by destruct v.
  - rewrite orb_true_iff, andb_true_iff. split.
    + intros [H|H]; [|by left]. right.
      destruct (cls c) eqn:Hc; [|done].
      apply IH in H as [[_ Hk]|(v & s' & -> & Hv & Hall & Hk)].
      * exists (String c ""), s. simpl. by rewrite Hc.
      * exists (String c v), s'. rewrite app_cons. simpl. by rewrite Hc.
    + intros [H|(v & s' & Hs & Hv & Hall & Hk)]; [by right |]. left.
      destruct v as [|d v]; [done |]. rewrite app_cons in Hs.
      injection Hs as <- ->. simpl in Hall. apply andb_true_iff in Hall as [-> Hall].
      apply IH. destruct v as [|e v].
      * left. by rewrite app_nil_l.
      * right. by exists (String e v), s'.
Qed.

Lemma email_part_spec v :
  email_part v = true <-> v <> "" /\ all_of email_char v = true.
Proof.
  unfold email_part. rewrite andb_true_iff, negb_true_iff.
  destruct (String.eqb_spec v "") as [->|Hv]; split; intros [? ?]; by split.
Qed.

Lemma validateEmail_parts s :
  validateEmail (Some s) = true ->
  exists l d t,
    s = l +:+ "@" +:+ d +:+ "." +:+ t /\
    email_part l = true /\ email_part d = true /\ email_part t = true.
Proof.
  unfold validateEmail, emailRegex.
  change (js_string (Some s)) with s. cbn [rmatch].
  rewrite plus_spec.
  intros [[? _]|(l & s1 & -> & Hl & Hlall & Hk)]; [done |].
  destruct s1 as [|c s1]; [done |].
  apply andb_true_iff in Hk as [Hc Hk]. apply Ascii.eqb_eq in Hc as <-.
  apply plus_spec in Hk as [[? _]|(d & s2 & -> & Hd & Hdall & Hk)]; [done |].
  destruct s2 as [|c s2]; [done |].
  apply andb_true_iff in Hk as [Hc Hk]. apply Ascii.eqb_eq in Hc as <-.
  apply plus_spec in Hk as [[? _]|(t & s3 & -> & Ht & Htall & Hk)]; [done |].
  apply String.eqb_eq in Hk as ->. rewrite app_nil_r.
  exists l, d, t. rewrite !email_part_spec. by repeat split.
Qed.

(** E-mail addresses.  [validateEmail] accepts a string exactly when it is
    [local@domain.tail] where the three parts are non-empty and hold neither
    white space nor an [@]; an undefined field is rejected. *)
Theorem validateEmail_shape :
  (forall s,
     validateEmail (Some s) = true <->
     exists l d t,
       s = l +:+ "@" +:+ d +:+ "." +:+ t /\
       email_part l = true /\ email_part d = true /\ email_part t = true) /\
  validateEmail None = false.
Proof.
  split; [|reflexivity].
  intros s. split; [apply validateEmail_parts |].
  intros (l & d & t & -> & Hl & Hd & Ht).
  unfold validateEmail, emailRegex.
  change (js_string (Some (l +:+ "@" +:+ d +:+ "." +:+ t)))
    with (l +:+ "@" +:+ d +:+ "." +:+ t).
  cbn [rmatch]. rewrite plus_spec.
  apply email_part_spec in Hl as [Hl Hlall].
  apply email_part_spec in Hd as [Hd Hdall].
  apply email_part_spec in Ht as [Ht Htall].
  right. exists l, ("@" +:+ d +:+ "." +:+ t). repeat split; try done.
  rewrite app_cons, app_nil_l. rewrite Ascii.eqb_refl. cbn [andb].
  apply plus_spec. right. exists d, ("." +:+ t). repeat split; try done.
  rewrite app_cons, app_nil_l. rewrite Ascii.eqb_refl. cbn [andb].
  apply plus_spec. right. exists t, "". rewrite app_nil_r. by repeat split.
Qed.

Example validateEmail_accepts : validateEmail (Some "a@b.com") = true.
Proof. reflexivity. Qed.

Example validateEmail_no_tail : validateEmail (Some "a@b.") = false.
Proof. reflexivity. Qed.

Example validateEmail_space : validateEmail (Some "a b@c.d") = false.
Proof. reflexivity. Qed.

(** The two sets of validators agree: those of [ui.js] return no message
    exactly when those of [auth.js] accept, for the e-mail address and for
    the password, defined or not. *)
Theorem validators_agree (v : option string) :
  (ui_validateEmail v = None <-> validateEmail v = true) /\
  (ui_validatePassword v = None <-> validatePassword v = true).
Proof.
  split.
  - unfold ui_validateEmail, validateEmail. destruct v as [s|]; [|done].
    cbn [truthy]. destruct (String.eqb_spec s "") as [->|Hs]; [done |].
    cbn [negb]. by destruct (rmatch emailRegex (js_string (Some s))).
  - unfold ui_validatePassword, validatePassword. destruct v as [s|]; [|done].
    destruct (String.eqb s ""); [done |]. cbn [negb andb].
    destruct (Nat.ltb_spec (String.length s) 6) as [Hlt|Hge].
    + split; [done |]. intros H%Nat.leb_le. lia.
    + split; [|done]. intros _. by apply Nat.leb_le.
Qed.

Lemma all_space_trim_start p s :
  all_of is_space p = true -> trim_start (p +:+ s) = trim_start s.
Proof.
  induction p as [|c p IH]; [done |]. rewrite app_cons.
  cbn [all_of trim_start]. intros [Hc Hp]%andb_true_iff.
  rewrite Hc. by apply IH.
Qed.

Lemma trim_end_all_space p :
  all_of is_space p = true -> trim_end p = "".
Proof.
  induction p as [|c p IH]; [done |]. cbn [all_of trim_end].
  intros [Hc Hp]%andb_true_iff. by rewrite (IH Hp), Hc.
Qed.

Lemma all_space_trim_end s p :
  all_of is_space p = true -> trim_end (s +:+ p) = trim_end s.
Proof.
  intros Hp. induction s as [|c s IH].
  - rewrite app_nil_l. by apply trim_end_all_space.
  - rewrite app_cons. cbn [trim_end]. by rewrite IH.
Qed.

Lemma trim_start_spaces_or_keep s p :
  (all_of is_space s = true /\ trim_start s = "") \/
  trim_start (s +:+ p) = trim_start s +:+ p.
Proof.
  induction s as [|c s IH]; [by left |]. rewrite app_cons.
  cbn [all_of trim_start].
  destruct (is_space c); [|right; by rewrite app_cons].
  destruct IH as [[Hall Hs]|IH]; [by left | by right].
Qed.

(** Padding does not count: white space before and after is ignored by
    [trim]. *)
Lemma trim_padding p1 s p2 :
  all_of is_space p1 = true -> all_of is_space p2 = true ->
  trim (p1 +:+ s +:+ p2) = trim s.
Proof.
  intros H1 H2. unfold trim. rewrite all_space_trim_start by done.
  destruct (trim_start_spaces_or_keep s p2) as [[Hall Hs]|Hkeep].
  - rewrite Hs. rewrite all_space_trim_start by done.
    rewrite <- (app_nil_r p2), all_space_trim_start by done. done.
  - by rewrite Hkeep, all_space_trim_end.
Qed.

Lemma trim_empty_iff s : trim s = "" -> all_of is_space s = true.
Proof.
  unfold trim. induction s as [|c s IH]; [done |]. cbn [all_of trim_start].
  destruct (is_space c) eqn:Hc; [done |]. cbn [trim_end]. by rewrite Hc.
Qed.

(** Names.  [validateName] accepts exactly the defined names of which at
    least two characters remain after trimming, so white space around a
    name never changes the answer. *)
Theorem validateName_trimmed :
  (forall s, validateName (Some s) = true <-> 2 <= String.length (trim s)) /\
  (forall p1 s p2,
     all_of is_space p1 = true -> all_of is_space p2 = true ->
     validateName (Some (p1 +:+ s +:+ p2)) = validateName (Some s)) /\
  validateName None = false.
Proof.
  assert (Hiff : forall s,
    validateName (Some s) = true <-> 2 <= String.length (trim s)).
  { intros s. unfold validateName. rewrite andb_true_iff, negb_true_iff, Nat.leb_le.
    split; [by intros [_ ?] |]. intros H. split; [|done].
    destruct (String.eqb_spec s "") as [->|]; [simpl in H; lia | done]. }
  split; [done |]. split; [|done].
  intros p1 s p2 H1 H2.
  destruct (validateName (Some s)) eqn:Hs.
  - apply Hiff. rewrite trim_padding by done. by apply Hiff.
  - destruct (validateName (Some (p1 +:+ s +:+ p2))) eqn:Hp; [|done].
    apply Hiff in Hp. rewrite trim_padding in Hp by done.
    apply Hiff in Hp. congruence.
Qed.

Lemma validateName_trimmed_witness :
  validateName (Some "  Ana  ") = validateName (Some "Ana").
Proof.
  apply (proj1 (proj2 validateName_trimmed) "  " "Ana" "  "); reflexivity.
Defined.

End FormFacts.

(** ** What the listeners can add to the trace *)

Module RouterEvents.
Import Routing App Notions Helpers Frames Traces.

Section Router.
Variable Q : Event -> Prop.
Hypothesis Q_push : forall p, Q (EvPushState p).
Hypothesis Q_replace : forall p, Q (EvReplaceState p).
Hypothesis Q_handler : forall h ps, Q (EvHandler h ps).
Hypothesis Q_page : forall pg, Q (EvRenderPage pg).
Hypothesis Q_group : forall g, Q (EvFetchGroup g).

Lemma handleRoute_events fuel path w w' :
  handleRoute fuel path w = Some w' -> extends Q w w'.
Proof.
  revert path w w'. induction fuel as [|fuel IH]; intros path w w'; [done |].
  assert (Hnav : forall target replace w1,
    navigate fuel target replace w1 = Some w' -> extends Q w1 w').
  { intros target replace w1. unfold navigate, navigate_with.
    destruct (decide _); [intros [= <-]; apply extends_refl |].
    intros H. apply IH in H. eapply extends_trans; [|exact H].
    destruct replace;
      [by apply (extends_event _ (EvReplaceState target))
      |by apply (extends_event _ (EvPushState target))]. }
  rewrite RouterFacts.handleRoute_unfold.
  destruct (findRoute (routes (router w)) path) as [[route params]|].
  - destruct (_ && _); [by apply Hnav |]. destruct (_ && _); [by apply Hnav |].
    assert (extends Q w
              (log (EvHandler (handler route) params)
                 (with_router {| routes := routes (router w);
                                 currentRoute := Some path;
                                 currentParams := params |} w))) as Hinvoke.
    { by apply (extends_event _ (EvHandler (handler route) params)). }
    destruct (handler route); cbn [run_handler].
    + intros H. eapply extends_trans; [exact Hinvoke |]. by eapply Hnav.
    + intros [= <-]. eapply extends_trans; [exact Hinvoke |]. by apply extends_log.
    + intros [= <-]. eapply extends_trans; [exact Hinvoke |]. by apply extends_log.
    + intros [= <-]. eapply extends_trans; [exact Hinvoke |]. by apply extends_log.
    + intros [= <-]. eapply extends_trans; [exact Hinvoke |]. by apply extends_log.
  - intros [= <-]. by apply extends_log.
Qed.

Lemma navigate_events fuel path replace w w' :
  navigate fuel path replace w = Some w' -> extends Q w w'.
Proof.
  unfold navigate, navigate_with.
  destruct (decide _); [intros [= <-]; apply extends_refl |].
  intros H. apply handleRoute_events in H. eapply extends_trans; [|exact H].
  destruct replace;
    [by apply (extends_event _ (EvReplaceState path))
    |by apply (extends_event _ (EvPushState path))].
Qed.

Lemma notifyListeners_events fuel w w' :
  notifyListeners fuel w = Some w' -> extends Q w w'.
Proof.
  unfold notifyListeners. generalize (listeners (auth w)) as ls. intros ls.
  revert w. induction ls as [|l ls IH]; intros w; simpl.
  - intros [= <-]. apply extends_refl.
  - intros H. unbind. eapply extends_trans; [|by apply IH].
    revert Hw0. unfold call_listener. destruct (isLoading _).
    { intros [= <-]. apply extends_refl. }
    destruct l.
    + unfold handleAuthStateChange.
      destruct (findRoute _ _) as [[route params]|];
        [|intros [= <-]; apply extends_refl].
      destruct (_ && _); [apply navigate_events |].
      destruct (_ && _); [apply navigate_events |].
      intros [= <-]. apply extends_refl.
    + intros H0. apply handleRoute_events in H0.
      eapply extends_trans; [|exact H0]. by apply extends_same.
Qed.

End Router.

(** Listeners navigate and render; they never make a request. *)
Lemma notifyListeners_no_fetch fuel w w' :
  notifyListeners fuel w = Some w' -> extends not_fetch w w'.
Proof. by apply notifyListeners_events. Qed.

(** [request] makes one request, and whatever else happens in it is not a
    request. *)
Lemma request_one_fetch fuel endpoint fr w w' r :
  request fuel endpoint fr w = Some (w', r) ->
  exists rest,
    trace w' = trace w ++ EvFetch endpoint (authorization w) :: rest /\
    Forall not_fetch rest.
Proof.
  unfold request. destruct (receive fr) as [d|e].
  - intros [= <- _]. exists []. by split.
  - intros H. unbind. injection H as <- _.
    assert (exists mid, trace w0 = trace w ++
              EvFetch endpoint (authorization w) :: mid /\ Forall not_fetch mid)
      as (mid & Hmid & Hall).
    { destruct (decide _).
      - unfold dispatch_auth_logout, clearAuth in Hw0.
        apply notifyListeners_no_fetch in Hw0 as (mid & Hmid & Hall).
        exists (EvDispatch "auth:logout" DNone :: mid). split.
        + rewrite Hmid. unfold setToken. simpl. by rewrite <- !app_assoc.
        + by constructor.
      - injection Hw0 as <-. exists []. by split. }
    exists (mid ++ [EvConsoleError; EvThrow e]). split.
    + simpl. rewrite Hmid. by rewrite <- !app_assoc.
    + apply Forall_app. split; [done |]. by repeat constructor.
Qed.

End RouterEvents.

(** ** Submitting forms and sending messages *)

Module Submission.
Import Routing App Notions Helpers Forms RoutingFacts Frames Progress FormFacts
  RouterEvents.

Lemma validateForm_isValid (fd : FormData) :
  isValid (validateForm fd) =
    (match f_name fd with Some n => validateName (Some n) | None => true end)
    && validateEmail (f_email fd) && validatePassword (f_password fd).
Proof.
  unfold validateForm.
  destruct (f_name fd) as [n|]; [destruct (validateName (Some n)) |];
    destruct (validateEmail (f_email fd));
    by destruct (validatePassword (f_password fd)).
Qed.

(** The form as a whole.  [validateForm] reports the form valid exactly
    when it reports no error, which is when the name (if the form has one),
    the e-mail address and the password all validate; each error is filed
    under the name of its field, and the data is handed back unchanged. *)
Theorem validateForm_verdict (fd : FormData) :
  (isValid (validateForm fd) = true <-> errors (validateForm fd) = ∅) /\
  isValid (validateForm fd) =
    (match f_name fd with Some n => validateName (Some n) | None => true end)
    && validateEmail (f_email fd) && validatePassword (f_password fd) /\
  (is_Some (errors (validateForm fd) !! "name") <->
     exists n, f_name fd = Some n /\ validateName (Some n) = false) /\
  (is_Some (errors (validateForm fd) !! "email") <->
     validateEmail (f_email fd) = false) /\
  (is_Some (errors (validateForm fd) !! "password") <->
     validatePassword (f_password fd) = false) /\
  v_data (validateForm fd) = fd.
Proof.
  unfold validateForm.
  destruct (f_name fd) as [n|];
    [destruct (validateName (Some n)) eqn:Hn |];
    destruct (validateEmail (f_email fd)) eqn:He;
    destruct (validatePassword (f_password fd)) eqn:Hp;
    cbn [negb fst snd isValid errors v_data andb];
    (split; [split; [done | intros Hempty] |]);
    try (apply (f_equal (fun m => m !! "name")) in Hempty as Hname;
         apply (f_equal (fun m => m !! "email")) in Hempty as Hemail;
         apply (f_equal (fun m => m !! "password")) in Hempty as Hpassword;
         by simplify_map_eq);
    (split; [done |]);
    repeat split; try done;
      try (intros [x Hx]; by simplify_map_eq);
      try (intros (x & [= <-] & Hx); congruence);
      try (intros (x & [=] & _));
      try (intros _; simplify_map_eq; by eexists);
      try (intros _; by exists n).
Qed.

Lemma has_at_of_email s :
  validateEmail (Some s) = true -> exists l r, s = l +:+ "@" +:+ r.
Proof.
  intros H. apply validateEmail_parts in H as (l & d & t & -> & _).
  by exists l, (d +:+ "." +:+ t).
Qed.

(** Invalid credentials stay local.  When the password has fewer than six
    characters or is missing, or the e-mail address is missing or holds no
    [@], submitting the login form or the register form changes nothing: no
    request is made. *)
Theorem weak_credentials_stay_local fuel fd fr w :
  (forall s, f_password fd = Some s -> String.length s < 6) \/
  (forall s, f_email fd = Some s -> forall l r, s <> l +:+ "@" +:+ r) ->
  login_submit fuel fd fr w = Some w /\ register_submit fuel fd fr w = Some w.
Proof.
  intros Hweak.
  assert (isValid (validateForm fd) = false) as Hinvalid.
  { rewrite validateForm_isValid.
    destruct Hweak as [Hpw|Hmail].
    - assert (validatePassword (f_password fd) = false) as ->;
        [|by rewrite andb_false_r].
      unfold validatePassword. destruct (f_password fd) as [s|]; [|done].
      specialize (Hpw s eq_refl). apply andb_false_iff. right.
      apply Nat.leb_gt. lia.
    - assert (validateEmail (f_email fd) = false) as ->;
        [|by rewrite andb_false_r].
      destruct (f_email fd) as [s|]; [|done].
      destruct (validateEmail (Some s)) eqn:He; [|done].
      apply has_at_of_email in He as (l & r & ->). by destruct (Hmail _ eq_refl l r). }
  unfold login_submit, register_submit. by rewrite Hinvalid.
Qed.

Lemma weak_credentials_stay_local_witness :
  exists w,
    visitor_at_login = Some w /\
    login_submit 2 {| f_name := None; f_email := Some "a@b.com";
                      f_password := Some "12345" |}
      (auth_answer (Some ana) (Some "tok")) w = Some w.
Proof.
  exists (default (blank ∅ "") visitor_at_login).
  split; [vm_compute; reflexivity |].
  apply (weak_credentials_stay_local 2
           {| f_name := None; f_email := Some "a@b.com";
              f_password := Some "12345" |}).
  left. intros s [= <-]. simpl. lia.
Defined.

(** A valid form is submitted: the handler does what the login action
    does. *)
Lemma valid_form_is_submitted fuel fd fr w :
  isValid (validateForm fd) = true ->
  login_submit fuel fd fr w = step fuel (ALogin fr) w /\
  register_submit fuel fd fr w = step fuel (ARegister fr) w.
Proof. intros H. unfold login_submit, register_submit. by rewrite H. Qed.

(** Sending a chat message.  A message that is empty after trimming sends
    nothing.  Otherwise the POST is made; if it is answered with a body,
    the next request, made right away, fetches the messages again; if it
    fails, no further request is made and the error is shown. *)
Theorem sendMessage_refreshes fuel groupId value posted refreshed w :
  routes (router w) = setupRoutes ->
  (trim value = "" ->
   sendMessage (S (S fuel)) groupId value posted refreshed w = Some w) /\
  (trim value <> "" ->
   exists w',
     sendMessage (S (S fuel)) groupId value posted refreshed w = Some w' /\
     match receive posted with
     | Returned _ =>
         exists rest,
           trace w' = trace w ++
             EvFetch ("/api/groups/" +:+ default "undefined" groupId +:+ "/messages")
                     (authorization w) ::
             EvFetch (messages_endpoint groupId) (authorization w) :: rest /\
           Forall not_fetch rest
     | Thrown e =>
         exists mid,
           trace w' = trace w ++
             EvFetch ("/api/groups/" +:+ default "undefined" groupId +:+ "/messages")
                     (authorization w) ::
             mid ++ [EvDispatch "ui:toast" (DToast "error")] /\
           Forall not_fetch mid
     end).
Proof.
  intros Hrs. unfold sendMessage. split; [by intros -> |].
  intros Hne. destruct (String.eqb_spec (trim value) "") as [|_]; [done |].
  set (endpoint := "/api/groups/" +:+ default "undefined" groupId +:+ "/messages").
  destruct (request_total fuel endpoint posted w Hrs) as [[w1 r1] Hw1].
  rewrite Hw1. cbn [mbind option_bind].
  pose proof (routes_request _ _ _ _ _ _ Hw1) as Hrs1.
  pose proof (request_one_fetch _ _ _ _ _ _ Hw1) as (rest1 & Htrace1 & Hall1).
  destruct (receive posted) as [d|e] eqn:Hposted.
  - unfold request in Hw1. rewrite Hposted in Hw1. injection Hw1 as <- <-.
    unfold refreshChatMessages.
    set (w1 := log _ w) in *.
    destruct (request_total fuel (messages_endpoint groupId) refreshed w1)
      as [[w2 r2] Hw2]; [done |].
    rewrite Hw2. exists w2. split; [done |].
    apply request_one_fetch in Hw2 as (rest & Htrace & Hall).
    exists rest. split; [|done]. rewrite Htrace. unfold w1. simpl.
    by rewrite <- !List.app_assoc.
  - assert (r1 = Thrown e) as ->.
    { unfold request in Hw1. rewrite Hposted in Hw1.
      apply bind_Some in Hw1 as (w0 & _ & [= _ <-]). done. }
    eexists. split; [done |]. exists rest1. split; [|done].
    unfold handleApiError, dispatch_toast. simpl. rewrite Htrace1.
    by rewrite <- !List.app_assoc.
Qed.

Lemma sendMessage_refreshes_witness :
  exists w w' rest,
    member_in_group = Some w /\
    trim " hi " <> "" /\
    sendMessage 2 (Some "g1") " hi " plain_answer plain_answer w = Some w' /\
    trace w' = trace w ++
      EvFetch "/api/groups/g1/messages" (Some "Bearer tok") ::
      EvFetch "/api/groups/g1/messages?limit=30" (Some "Bearer tok") :: rest /\
    Forall not_fetch rest /\
    sendMessage 2 (Some "g1") "   " plain_answer plain_answer w = Some w.
Proof.
  set (w := default (blank ∅ "") member_in_group).
  assert (Hrs : routes (router w) = setupRoutes) by (vm_compute; reflexivity).
  assert (Hsaid : trim " hi " <> "") by (vm_compute; discriminate).
  destruct (sendMessage_refreshes 0 (Some "g1") " hi " plain_answer
              plain_answer w Hrs) as [_ Hsend].
  destruct (Hsend Hsaid) as (w' & Hw' & Hfetched).
  destruct (receive plain_answer) as [d|e] eqn:Hposted;
    [|vm_compute in Hposted; discriminate Hposted].
  destruct Hfetched as (rest & Htrace & Hrest).
  assert (authorization w = Some "Bearer tok") as Hauth
    by (vm_compute; reflexivity).
  rewrite Hauth in Htrace.
  exists w, w', rest.
  split; [vm_compute; reflexivity |]. split; [exact Hsaid |].
  split; [exact Hw' |]. split; [exact Htrace |]. split; [exact Hrest |].
  apply (proj1 (sendMessage_refreshes 0 (Some "g1") "   " plain_answer
                  plain_answer w Hrs)).
  reflexivity.
Defined.

Lemma substring_prefix head tail :
  String.substring 0 (String.length head) (head +:+ tail) = head.
Proof.
  induction head as [|c head IH].
  - rewrite app_nil_l. by destruct tail.
  - rewrite app_cons. cbn [String.length String.substring]. by rewrite IH.
Qed.

Lemma split_at n s :
  n <= String.length s ->
  exists head tail, s = head +:+ tail /\ String.length head = n.
Proof.
  revert n. induction s as [|c s IH]; intros n Hn.
  - simpl in Hn. assert (n = 0) as -> by lia. by exists "", "".
  - destruct n as [|n]; [by exists "", (String c s) |].
    simpl in Hn. destruct (IH n) as (head & tail & -> & Hlen); [lia |].
    exists (String c head), tail. rewrite app_cons. simpl. by rewrite Hlen.
Qed.

(** Truncation.  [null] and the empty text are returned as they are,
    whatever [maxLength] is, also a negative one; so is a text no longer
    than [maxLength]; a longer, non-empty one is cut to its first
    [maxLength] characters (none for a negative [maxLength]) followed by
    three dots, so the result can be up to three characters longer than
    [maxLength] allows; truncating twice is truncating once. *)
Theorem truncateText_cuts (text : option string) (maxLength : Z) :
  truncateText (truncateText text maxLength) maxLength =
    truncateText text maxLength /\
  truncateText None maxLength = None /\
  truncateText (Some "") maxLength = Some "" /\
  (forall s,
     text = Some s -> (Z.of_nat (String.length s) <= maxLength)%Z ->
     truncateText text maxLength = Some s) /\
  (forall s,
     text = Some s -> s <> "" -> (maxLength < Z.of_nat (String.length s))%Z ->
     exists head tail,
       s = head +:+ tail /\ String.length head = Z.to_nat maxLength /\
       truncateText text maxLength = Some (head +:+ "...")).
Proof.
  assert (Hcut : forall s,
    (maxLength < Z.of_nat (String.length s))%Z ->
    exists head tail,
      s = head +:+ tail /\ String.length head = Z.to_nat maxLength /\
      String.substring 0 (Z.to_nat maxLength) s = head /\
      String.substring 0 (Z.to_nat maxLength) (head +:+ "...") = head).
  { intros s Hlong.
    destruct (split_at (Z.to_nat maxLength) s) as (head & tail & -> & Hlen);
      [lia |].
    exists head, tail. rewrite <- Hlen. by rewrite !substring_prefix. }
  split; [|split; [reflexivity |]; split; [reflexivity |]; split].
  - unfold truncateText. destruct text as [s|]; [|done].
    destruct (String.eqb_spec s "") as [->|Hs]; [done |]. cbn [orb].
    destruct (Z.leb_spec (Z.of_nat (String.length s)) maxLength) as [Hshort|Hlong].
    + destruct (String.eqb s ""); cbn [orb]; [done |].
      by rewrite (proj2 (Z.leb_le _ _) Hshort).
    + destruct (Hcut s Hlong) as (head & tail & -> & Hlen & Hsub & Hsub').
      rewrite Hsub.
      assert (String.length (head +:+ "...") = String.length head + 3) as Hl.
      { clear. induction head as [|c h IH]; [done |]. rewrite app_cons. simpl.
        by rewrite IH. }
      assert (String.eqb (head +:+ "...") "" = false) as ->
        by (by destruct head).
      cbn [orb]. rewrite (proj2 (Z.leb_gt _ _)) by lia. by rewrite Hsub'.
  - intros s -> Hshort. unfold truncateText.
    rewrite (proj2 (Z.leb_le _ _) Hshort). by rewrite orb_true_r.
  - intros s -> Hs Hlong. unfold truncateText.
    destruct (String.eqb_spec s "") as [|_]; [done |].
    cbn [orb]. rewrite (proj2 (Z.leb_gt _ _) Hlong).
    destruct (Hcut s Hlong) as (head & tail & -> & Hlen & Hsub & _).
    exists head, tail. by rewrite Hsub.
Qed.

Example truncateText_longer :
  truncateText (Some "abcd") 3 = Some "abc...".
Proof. reflexivity. Qed.

End Submission.

(** ** Document titles *)

Module Titles.
Import Routing App Notions Helpers RoutingFacts RouterFacts Resolution.

(** The titles agree with the route table: for every path the application
    resolves, the title that [renderPage] sets once the path is the current
    route is the one of the page its handler renders. *)
Theorem documentTitle_of_route path route ps :
  findRoute setupRoutes path = Some (route, ps) ->
  documentTitle (Some path) =
    Returned match handler route with
             | HRedirectDefault => "EduConnect"
             | HLogin => "Login - EduConnect"
             | HRegister => "Criar Conta - EduConnect"
             | HDashboard => "Dashboard - EduConnect"
             | HGroup => "Grupo - EduConnect"
             end.
Proof.
  rewrite findRoute_setupRoutes.
  destruct (routes_get setupRoutes path) as [r|] eqn:Hget.
  - intros [= <- _]. apply routes_get_elem in Hget. vm_compute in Hget.
    repeat (apply elem_of_cons in Hget as [[= -> ->]|Hget]; [reflexivity |]).
    by apply elem_of_nil in Hget.
  - unfold documentTitle. destruct (strip_prefix "/group/" path) as [g|]; [|done].
    destruct (is_segment g); [|done]. by intros [= <- _].
Qed.

Lemma documentTitle_of_route_witness :
  documentTitle (Some "/group/g1") = Returned "Grupo - EduConnect".
Proof.
  apply (documentTitle_of_route "/group/g1"
           {| handler := HGroup; requiresAuth := true; redirectIfAuth := None |}
           {["id" := "g1"]}).
  vm_compute. reflexivity.
Defined.

(** An unknown address as the first page.  Without a stored token the
    initial route is resolved at once; nothing matches, the 404 page is put
    in place, and the router's current route is still [null], so the title
    update that ends [renderPage] throws a [TypeError]. *)
Theorem unknown_first_page_throws fuel stored path :
  truthy (stored !! "auth_token") = false ->
  findRoute setupRoutes path = None ->
  exists w,
    boot (S fuel) stored path = Some w /\
    trace w = [EvRenderPage PNotFound] /\
    documentTitle (currentRoute (router w)) = Thrown property_of_undefined.
Proof.
  intros Hnone Hfind. unfold boot, auth_init.
  cbn [blank browser storage]. rewrite Hnone.
  unfold finish_loading, notifyListeners.
  cbn [with_token with_auth blank auth listeners notify_each mbind option_bind].
  unfold router_init.
  cbn [with_router addListener with_auth auth router isLoading browser pathname].
  rewrite handleRoute_unfold.
  change (findRoute _ _) with (findRoute setupRoutes path). rewrite Hfind.
  by eexists.
Qed.

Lemma unknown_first_page_throws_witness :
  exists w,
    boot 1 ∅ "/nowhere" = Some w /\
    trace w = [EvRenderPage PNotFound] /\
    documentTitle (currentRoute (router w)) = Thrown property_of_undefined.
Proof.
  apply (unknown_first_page_throws 0 ∅ "/nowhere");
    vm_compute; reflexivity.
Defined.

End Titles.

(** ** The polling timer *)

Module Timer.
Import Routing App Notions Helpers Frames PollingFacts Contracts Progress
  RouterEvents.

(** A firing of the chat timer.  A timer that is still running fetches the
    messages of the group it was started for, once, whatever page is shown;
    whatever the answer, the timer keeps running with the same handle and
    group, also when the answer is a 401 that ends the session.  A timer
    that was cleared does nothing. *)
Theorem tick_outlives_session fuel handle fr w :
  routes (router w) = setupRoutes ->
  exists w',
    tick (S (S fuel)) handle fr w = Some w' /\
    polling w' = polling w /\
    match list_find (fun t => t.1 = handle) (intervals (browser w)) with
    | Some (_, (_, groupId)) =>
        (exists rest,
           trace w' = trace w ++
             EvFetch (messages_endpoint groupId) (authorization w) :: rest /\
           Forall not_fetch rest) /\
        (forall r,
           fr = FetchResponse r -> status r = 401%Z -> readable r ->
           session w' = (None, false) /\ token w' = None)
    | None => w' = w
    end.
Proof.
  intros Hrs. unfold tick.
  destruct (list_find _ _) as [[i [h g]]|]; [|by exists w].
  unfold refreshChatMessages.
  destruct (request_total fuel (messages_endpoint g) fr w Hrs) as [[w1 r1] Hw1].
  rewrite Hw1. exists w1. split; [done |].
  split; [by apply request_keeps_polling in Hw1 |].
  split; [by apply request_one_fetch in Hw1 |].
  intros r -> Hstatus Hread.
  destruct (unauthorized_clears_session fuel (messages_endpoint g) r w
              Hrs Hstatus Hread)
    as (w2 & e & mid & Hw2 & _ & Htoken & _ & Hsession & _).
  rewrite Hw2 in Hw1. by injection Hw1 as <- _.
Qed.

Lemma tick_outlives_session_witness :
  exists w w',
    member_in_group = Some w /\
    tick 2 1 unauthorized_json w = Some w' /\
    polling w' = polling w /\
    session w' = (None, false).
Proof.
  set (w := default (blank ∅ "") member_in_group).
  destruct (tick_outlives_session 0 1 unauthorized_json w
              ltac:(vm_compute; reflexivity))
    as (w' & Htick & Hpoll & Hrest).
  exists w, w'. split; [vm_compute; reflexivity |].
  split; [done |]. split; [done |].
  change (list_find (fun t => t.1 = 1) (intervals (browser w)))
    with (Some (0, (1, Some "g1"))) in Hrest.
  destruct Hrest as [_ H401].
  apply (H401 _ eq_refl); [reflexivity |]. intros _. by eexists.
Defined.

End Timer.

(** ** Modals *)

Module ModalFacts.
Import Modals.

Lemma filter_all {A} (P : A -> Prop) `{!forall x, Decision (P x)} (l : list A) :
  Forall P l -> filter P l = l.
Proof.
  induction 1 as [|x l Hx _ IH]; [done |].
  by rewrite filter_cons_True, IH.
Qed.

Lemma Forall_filter_keeps {A} (P Q : A -> Prop) `{!forall x, Decision (P x)}
    (l : list A) :
  Forall Q l -> Forall Q (filter P l).
Proof.
  rewrite !Forall_forall. intros Hl x [_ Hx]%list_elem_of_filter. by apply Hl.
Qed.

Lemma fresh_entry st :
  well_formed st ->
  filter (fun m => m ≠ {| overlay := next st; handleEscape := next st |})
    (modals st) = modals st.
Proof.
  intros (Hm & _ & _). apply filter_all.
  eapply Forall_impl; [done |]. intros e [Ho _] ->. simpl in Ho. lia.
Qed.

Lemma fresh_number (l : list nat) n :
  Forall (fun k => k < n) l -> filter (fun k => k ≠ n) l = l.
Proof.
  intros H. apply filter_all.
  eapply Forall_impl; [done |]. intros k Hk ->. lia.
Qed.

Lemma well_formed_showModal st : well_formed st -> well_formed (showModal st).1.
Proof.
  intros (Hm & Ha & Hk). unfold well_formed, showModal. simpl.
  repeat split; apply Forall_app; split;
    try (eapply Forall_impl; [done |]; simpl; intros; lia);
    repeat constructor; simpl; lia.
Qed.

Lemma well_formed_hideModal arg st :
  well_formed st -> well_formed (hideModal arg st).
Proof.
  intros (Hm & Ha & Hk). unfold hideModal.
  destruct (match arg with Nothing => _ | _ => arg end) as [|n|e]; [done.. |].
  repeat split; simpl; by apply Forall_filter_keeps.
Qed.

Lemma pressEscape_each presses st :
  let st' := foldl (fun st n => pressEscape n st) st presses in
  modals st' = modals st /\
  attached st' = attached st /\
  (forall k, k ∈ keydown st' <-> k ∈ keydown st /\ (k ∉ presses)).
Proof.
  revert st. induction presses as [|n presses IH]; intros st; simpl.
  - repeat split; try (by intros [? _]); try apply not_elem_of_nil; done.
  - destruct (IH (pressEscape n st)) as (Hm & Ha & Hk).
    split; [by rewrite Hm |]. split; [by rewrite Ha |].
    intros k. rewrite Hk. cbn [pressEscape hideModal keydown].
    rewrite list_elem_of_filter, not_elem_of_cons. tauto.
Qed.

(** A modal's own controls do not close it.  The close button, a click on
    the overlay and the Escape key all call [hideModal] with the overlay
    element, which is no entry of [this.modals]: whichever Escape handlers
    run, and however many, the list of modals and the overlays in the page
    stay as they are, and each handler that ran has removed itself, so a
    second press does not even call [hideModal].  A modal just shown is
    still open after its Escape handler ran. *)
Theorem modal_controls_keep_modal st (presses : list nat) :
  let st' := foldl (fun st n => pressEscape n st) st presses in
  (forall n, hideModal (Element n) st = st) /\
  modals st' = modals st /\
  attached st' = attached st /\
  (forall n, n ∈ presses -> n ∉ keydown st') /\
  let st1 := (showModal st).1 in
  let m := (showModal st).2 in
  {| overlay := m; handleEscape := m |} ∈ modals (pressEscape m st1) /\
  m ∈ attached (pressEscape m st1).
Proof.
  destruct (pressEscape_each presses st) as (Hm & Ha & Hk).
  split; [done |]. split; [done |]. split; [done |]. split.
  - intros n Hn [_ Hnot]%Hk. done.
  - simpl. split; apply elem_of_app; right; by left.
Qed.

(** [hideModal()] without an argument undoes the latest [showModal]: the
    modals, the overlays in the page and the keydown listeners are again
    what they were. *)
Theorem hideModal_undoes_showModal st :
  well_formed st ->
  let st1 := (showModal st).1 in
  well_formed st1 /\
  modals (hideModal Nothing st1) = modals st /\
  attached (hideModal Nothing st1) = attached st /\
  keydown (hideModal Nothing st1) = keydown st /\
  well_formed (hideModal Nothing st1).
Proof.
  intros Hst. simpl.
  split; [by apply well_formed_showModal |].
  split; [|split; [|split]];
    [..| apply well_formed_hideModal; by apply well_formed_showModal].
  - unfold hideModal, showModal. simpl. rewrite last_snoc. simpl.
    rewrite filter_app, fresh_entry by done.
    rewrite filter_cons_False, filter_nil by (simpl; intros H; by apply H).
    apply List.app_nil_r.
  - unfold hideModal, showModal. simpl. rewrite last_snoc. simpl.
    rewrite filter_app, fresh_number by apply Hst.
    rewrite filter_cons_False, filter_nil by (simpl; intros H; by apply H).
    apply List.app_nil_r.
  - unfold hideModal, showModal. simpl. rewrite last_snoc. simpl.
    rewrite filter_app, fresh_number by apply Hst.
    rewrite filter_cons_False, filter_nil by (simpl; intros H; by apply H).
    apply List.app_nil_r.
Qed.

Lemma hideModal_undoes_showModal_witness :
  modals (hideModal Nothing
            (showModal {| modals := [{| overlay := 0; handleEscape := 0 |}];
                          attached := [0]; keydown := [0]; next := 1 |}).1) =
    [{| overlay := 0; handleEscape := 0 |}].
Proof.
  apply (hideModal_undoes_showModal
           {| modals := [{| overlay := 0; handleEscape := 0 |}];
              attached := [0]; keydown := [0]; next := 1 |}).
  unfold well_formed. simpl. repeat split; repeat constructor; simpl; lia.
Defined.

Lemma hideEach_spec l st :
  (forall e, e ∈ modals (foldl (fun st e => hideModal (Pushed e) st) st l) <->
             e ∈ modals st /\ e ∉ l) /\
  (forall n, n ∈ attached (foldl (fun st e => hideModal (Pushed e) st) st l) <->
             n ∈ attached st /\ n ∉ overlay <$> l) /\
  (forall n, n ∈ keydown (foldl (fun st e => hideModal (Pushed e) st) st l) <->
             n ∈ keydown st /\ n ∉ handleEscape <$> l).
Proof.
  revert st. induction l as [|e l IH]; intros st; simpl.
  - repeat split; try (by intros [? _]); try apply not_elem_of_nil; done.
  - destruct (IH (hideModal (Pushed e) st)) as (Hm & Ha & Hk).
    split; [|split].
    + intros x. rewrite Hm. cbn [hideModal modals].
      rewrite list_elem_of_filter, not_elem_of_cons. tauto.
    + intros n. rewrite Ha. cbn [hideModal attached].
      rewrite list_elem_of_filter, not_elem_of_cons. tauto.
    + intros n. rewrite Hk. cbn [hideModal keydown].
      rewrite list_elem_of_filter, not_elem_of_cons. tauto.
Qed.

(** The loop of [cleanup] closes every modal: no modal is left, the overlays
    and the Escape listeners of the modals are gone, and nothing else is
    taken from the page. *)
Theorem hideAll_clears st :
  modals (hideAll st) = [] /\
  (forall e, e ∈ modals st ->
     (overlay e ∉ attached (hideAll st)) /\
     (handleEscape e ∉ keydown (hideAll st))) /\
  (forall n, n ∈ attached st -> (n ∉ overlay <$> modals st) ->
     n ∈ attached (hideAll st)).
Proof.
  unfold hideAll.
  destruct (hideEach_spec (modals st) st) as (Hm & Ha & Hk).
  split; [|split].
  - apply elem_of_nil_inv. intros e [H1 H2]%Hm. done.
  - intros e He. split.
    + intros [_ Hnot]%Ha. apply Hnot. by apply list_elem_of_fmap_2.
    + intros [_ Hnot]%Hk. apply Hnot. by apply list_elem_of_fmap_2.
  - intros n Hn Hfresh. by apply Ha.
Qed.

End ModalFacts.
